(** * TheHighestDef: the high-speed timelapse viewer

    A shallow embedding of [src/timelapse_viewer.cpp] (class
    [TimelapseViewer] and the helpers of the C++ library it leans on),
    followed by the properties of the playback engine.

    Conventions of the embedding.
    - [size_t] is a 64-bit unsigned integer: a [Z] reduced modulo [2^64]
      after every addition.  [int] is a 32-bit signed integer held in a [Z].
    - [float] is IEEE-754 binary32, through the parametric operations of
      [SpecFloat] at precision 24 and maximal exponent 128.
    - Undefined behaviour of C++ (integer division by zero, [operator[]] out
      of range, a float-to-int conversion that does not fit) is the value
      [None] of the [option] monad.  Overflow of [int] arithmetic wraps
      around in two's complement, as on the machines the viewer runs on.
    - A null pointer is [None]: [textures] is a [list (option SDL_Texture)].
    - Calls into SDL that act on the screen are recorded, in order, in a list
      of [sdl_call]; lines written to [std::cerr] in a list of [cerr_line].
      Progress lines written to [std::cout] are not recorded.  The calls
      that release what the viewer holds are recorded in a list of
      [teardown_call].
    - Time points of [high_resolution_clock] are integers counting
      nanoseconds. *)

From Stdlib Require Import ZArith Lia Ascii String Floats.SpecFloat.
From Stdlib Require Import Numbers.DecimalString.
From Stdlib Require QArith.QArith QArith.Qminmax.
From stdpp Require Import base option list strings sorting.

Local Open Scope Z_scope.

(** ** Machine integers *)

Module Cxx.

Definition INT_MIN : Z := - 2 ^ 31.
Definition INT_MAX : Z := 2 ^ 31 - 1.

(** The largest number of elements any [std::vector] can hold
    ([max_size()] never exceeds [PTRDIFF_MAX]). *)
Definition VECTOR_MAX_SIZE : Z := 2 ^ 63 - 1.

(** Unsigned arithmetic on [size_t] wraps around. *)
Definition size_t_wrap (z : Z) : Z := z mod 2 ^ 64.

Definition size_t_add (a b : Z) : Z := size_t_wrap (a + b).
Definition size_t_sub (a b : Z) : Z := size_t_wrap (a - b).

(** [a % b] on unsigned operands; undefined when [b] is zero. *)
Definition size_t_rem (a b : Z) : option Z :=
  if b =? 0 then None else Some (a mod b).

(** Two's complement reduction into [int]. *)
Definition int_wrap (z : Z) : Z := (z + 2 ^ 31) mod 2 ^ 32 - 2 ^ 31.

(** [a / b] on signed operands truncates toward zero; undefined when [b]
    is zero. *)
Definition int_div (a b : Z) : option Z :=
  if b =? 0 then None else Some (Z.quot a b).

(** [v.size()] *)
Definition size {A} (v : list A) : Z := Z.of_nat (length v).

(** [v[i]]: undefined outside [0 .. size()-1]. *)
Definition at_index {A} (v : list A) (i : Z) : option A :=
  if i <? 0 then None else v !! Z.to_nat i.

(** [std::to_string] on an integer. *)
Definition to_string (z : Z) : string :=
  NilZero.string_of_int (Z.to_int z).

End Cxx.

(** ** Single-precision floating point *)

Module Float32.

Definition prec : Z := 24.
Definition emax : Z := 128.

Definition float : Type := spec_float.

(** [static_cast<float>(n)] and the implicit conversion of an [int]
    operand: round to nearest, ties to even. *)
Definition of_int (n : Z) : float := binary_normalize prec emax n 0 false.

Definition div (x y : float) : float := SFdiv prec emax x y.
Definition mul (x y : float) : float := SFmul prec emax x y.
Definition ltb (x y : float) : bool := SFltb x y.

(** [std::min(a, b)] is [(b < a) ? b : a]. *)
Definition min (a b : float) : float := if ltb b a then b else a.

(** The integer part of a finite float, toward zero. *)
Definition truncate (s : bool) (m : positive) (e : Z) : Z :=
  let magnitude :=
    match e with
    | Zneg p => Z.shiftr (Zpos m) (Zpos p)
    | _ => Z.shiftl (Zpos m) e
    end in
  if s then - magnitude else magnitude.

(** [static_cast<int>(x)]: truncation toward zero; undefined when the
    truncated value is not representable in [int] (and for NaN and the
    infinities). *)
Definition to_int (x : float) : option Z :=
  match x with
  | S754_zero _ => Some 0
  | S754_finite s m e =>
      let v := truncate s m e in
      if bool_decide (Cxx.INT_MIN <= v <= Cxx.INT_MAX) then Some v else None
  | S754_infinity _ | S754_nan => None
  end.

End Float32.

(** ** Paths of [std::filesystem] and characters *)

Module Path.

Definition separator : ascii := "/"%char.
Definition dot : ascii := "."%char.

(** [::tolower] in the C locale: only [A]..[Z] change. *)
Definition tolower (c : ascii) : ascii :=
  let n := N_of_ascii c in
  if ((65 <=? n) && (n <=? 90))%N then ascii_of_N (n + 32) else c.

(** [std::transform(s.begin(), s.end(), s.begin(), ::tolower)] *)
Fixpoint lowercase (s : string) : string :=
  match s with
  | EmptyString => EmptyString
  | String c s' => String (tolower c) (lowercase s')
  end.

(** The suffix of [s] that starts at the last occurrence of [c], if [c]
    occurs at all. *)
Fixpoint suffix_from_last (c : ascii) (s : string) : option string :=
  match s with
  | EmptyString => None
  | String a s' =>
      match suffix_from_last c s' with
      | Some t => Some t
      | None => if Ascii.eqb a c then Some s else None
      end
  end.

Fixpoint last_char (s : string) : option ascii :=
  match s with
  | EmptyString => None
  | String a EmptyString => Some a
  | String _ s' => last_char s'
  end.

(** [p / name]: a separator is put in between unless [p] is empty or
    already ends with one. *)
Definition append (p name : string) : string :=
  match last_char p with
  | None => name
  | Some c =>
      if Ascii.eqb c separator then p +:+ name
      else p +:+ String separator name
  end.

(** [p.filename()]: what follows the last separator. *)
Definition filename (p : string) : string :=
  match suffix_from_last separator p with
  | Some (String _ rest) => rest
  | _ => p
  end.

(** [p.extension()]: empty for the file names [.] and [..], and when the
    file name has no period or its only period is its first character;
    otherwise the part of the file name from its rightmost period on. *)
Definition extension (p : string) : string :=
  let name := filename p in
  if String.eqb name "." || String.eqb name ".." then EmptyString
  else
    match suffix_from_last dot name with
    | None => EmptyString
    | Some ext =>
        if (String.length ext =? String.length name)%nat then EmptyString
        else ext
    end.

End Path.

(** ** The SDL interface, as far as the viewer sees it *)

Module SDL.

(** A decoded image ([IMG_Load]) and a texture made from it; the viewer
    only ever asks a texture for its pixel size ([SDL_QueryTexture]). *)
Record SDL_Surface := { surface_w : Z; surface_h : Z }.
Record SDL_Texture := { texture_w : Z; texture_h : Z }.

Record SDL_Rect := { x : Z; y : Z; w : Z; h : Z }.

Inductive SDL_Keycode :=
| SDLK_ESCAPE | SDLK_SPACE | SDLK_RIGHT | SDLK_LEFT | SDLK_other.

Inductive SDL_Event :=
| SDL_QUIT
| SDL_KEYDOWN (sym : SDL_Keycode)
| SDL_other_event.

(** The calls that act on the window, in the order they are made. *)
Inductive sdl_call :=
| SDL_SetRenderDrawColor (r g b a : Z)
| SDL_RenderClear
| SDL_RenderCopy (texture : SDL_Texture) (dstrect : SDL_Rect)
| SDL_RenderPresent
| SDL_SetWindowTitle (title : string)
| SDL_Delay (ms : Z).

Definition IMG_INIT_JPG : Z := 1.
Definition IMG_INIT_PNG : Z := 2.

(** What the library answers during [initialize]. *)
Record sdl_env := {
  SDL_Init : Z;
  IMG_Init : Z -> Z;
  SDL_CreateWindow : bool;
  SDL_CreateRenderer : bool;
  SDL_GetWindowSize : Z * Z
}.

End SDL.

Export SDL.

#[global] Instance SDL_Texture_eq_dec : EqDecision SDL_Texture.
Proof. solve_decision. Defined.

#[global] Instance SDL_Rect_eq_dec : EqDecision SDL_Rect.
Proof. solve_decision. Defined.

#[global] Instance sdl_call_eq_dec : EqDecision sdl_call.
Proof. solve_decision. Defined.

(** ** The file system seen by [std::filesystem] *)

(** The status of a path, symbolic links followed. *)
#[local] Set Warnings "-register-all".

Inductive fs_node :=
| Regular_file
| Directory (entries : list (string * fs_node))
| Other_file.
#[local] Set Warnings "register-all".

Definition is_regular_file (n : fs_node) : bool :=
  match n with Regular_file => true | _ => false end.

(** Lines written to [std::cerr]. *)
Inductive cerr_line :=
| SDL_could_not_initialize
| SDL_image_could_not_initialize
| Window_could_not_be_created
| Renderer_could_not_be_created
| Invalid_directory_path (directoryPath : string)
| No_images_found_in_directory (directoryPath : string)
| Unable_to_load_image (path : string)
| Unable_to_create_texture_from (path : string)
| Cannot_run.

(** ** class TimelapseViewer *)

Record TimelapseViewer := {
  window : bool;        (* true when the pointer is not null *)
  renderer : bool;      (* true when the pointer is not null *)
  imagePaths : list string;
  textures : list (option SDL_Texture);
  currentIndex : Z;     (* size_t *)
  running : bool;
  playing : bool;
  targetFPS : Z;        (* int *)
  fullscreen : bool;
  windowWidth : Z;      (* int *)
  windowHeight : Z      (* int *)
}.

(** The default member initialisers. *)
Definition TimelapseViewer_default : TimelapseViewer := {|
  window := false;
  renderer := false;
  imagePaths := [];
  textures := [];
  currentIndex := 0;
  running := true;
  playing := false;
  targetFPS := 240;
  fullscreen := false;
  windowWidth := 1280;
  windowHeight := 720
|}.

Definition set_imagePaths (ps : list string) (v : TimelapseViewer) :=
  {| window := window v; renderer := renderer v; imagePaths := ps;
     textures := textures v; currentIndex := currentIndex v;
     running := running v; playing := playing v; targetFPS := targetFPS v;
     fullscreen := fullscreen v; windowWidth := windowWidth v;
     windowHeight := windowHeight v |}.

Definition set_textures (ts : list (option SDL_Texture)) (v : TimelapseViewer) :=
  {| window := window v; renderer := renderer v; imagePaths := imagePaths v;
     textures := ts; currentIndex := currentIndex v;
     running := running v; playing := playing v; targetFPS := targetFPS v;
     fullscreen := fullscreen v; windowWidth := windowWidth v;
     windowHeight := windowHeight v |}.

Definition set_currentIndex (i : Z) (v : TimelapseViewer) :=
  {| window := window v; renderer := renderer v; imagePaths := imagePaths v;
     textures := textures v; currentIndex := i;
     running := running v; playing := playing v; targetFPS := targetFPS v;
     fullscreen := fullscreen v; windowWidth := windowWidth v;
     windowHeight := windowHeight v |}.

Definition set_running (b : bool) (v : TimelapseViewer) :=
  {| window := window v; renderer := renderer v; imagePaths := imagePaths v;
     textures := textures v; currentIndex := currentIndex v;
     running := b; playing := playing v; targetFPS := targetFPS v;
     fullscreen := fullscreen v; windowWidth := windowWidth v;
     windowHeight := windowHeight v |}.

Definition set_playing (b : bool) (v : TimelapseViewer) :=
  {| window := window v; renderer := renderer v; imagePaths := imagePaths v;
     textures := textures v; currentIndex := currentIndex v;
     running := running v; playing := b; targetFPS := targetFPS v;
     fullscreen := fullscreen v; windowWidth := windowWidth v;
     windowHeight := windowHeight v |}.

(** *** loadImagesFromDirectory *)

(** The extension test of the scan, on an already lower-cased extension. *)
Definition is_image_extension (extension : string) : bool :=
  String.eqb extension ".jpg" || String.eqb extension ".jpeg"
  || String.eqb extension ".png" || String.eqb extension ".bmp"
  || String.eqb extension ".tif" || String.eqb extension ".tiff".

(** The body of the loop over [fs::directory_iterator(directoryPath)]: one
    entry, named [name] in the directory, with status [node]. *)
Definition scan_entry (directoryPath : string) (paths : list string)
    (entry : string * fs_node) : list string :=
  let entry_path := Path.append directoryPath (fst entry) in
  if is_regular_file (snd entry) then
    let extension := Path.lowercase (Path.extension entry_path) in
    if is_image_extension extension then paths ++ [entry_path] else paths
  else paths.

Definition scan_directory (directoryPath : string)
    (entries : list (string * fs_node)) (paths : list string) : list string :=
  foldl (scan_entry directoryPath) paths entries.

(** [std::sort] on strings: the order is [operator<] of [std::string], which
    compares byte by byte. *)
Fixpoint sort_insert (s : string) (l : list string) : list string :=
  match l with
  | [] => [s]
  | t :: l' => if String.leb s t then s :: l else t :: sort_insert s l'
  end.

Definition sort (l : list string) : list string :=
  foldr sort_insert [] l.

Section Loading.

(** The state of the file system: the status of a path, [None] when
    nothing exists there. *)
Variable fs_status : string -> option fs_node.

(** The image decoder and the texture factory of the renderer; both
    answer a null pointer on failure. *)
Variable IMG_Load : string -> option SDL_Surface.
Variable SDL_CreateTextureFromSurface : SDL_Surface -> option SDL_Texture.

(** One round of the pre-loading loop, at index [i]. *)
Definition load_image (i : nat) (path : string)
    (acc : list (option SDL_Texture) * list cerr_line)
    : list (option SDL_Texture) * list cerr_line :=
  let '(texs, err) := acc in
  match IMG_Load path with
  | None => (texs, err ++ [Unable_to_load_image path])
  | Some surface =>
      let texture := SDL_CreateTextureFromSurface surface in
      let texs' := <[i := texture]> texs in
      match texture with
      | None => (texs', err ++ [Unable_to_create_texture_from path])
      | Some _ => (texs', err)
      end
  end.

(** [for (size_t i = 0; i < imagePaths.size(); ++i)], entered at [i] with
    the paths from [i] on. *)
Fixpoint load_images (i : nat) (paths : list string)
    (acc : list (option SDL_Texture) * list cerr_line)
    : list (option SDL_Texture) * list cerr_line :=
  match paths with
  | [] => acc
  | path :: rest => load_images (S i) rest (load_image i path acc)
  end.

Definition loadImagesFromDirectory (directoryPath : string)
    (v : TimelapseViewer) : bool * TimelapseViewer * list cerr_line :=
  match fs_status directoryPath with
  | Some (Directory entries) =>
      let found := scan_directory directoryPath entries (imagePaths v) in
      let v1 := set_imagePaths found v in
      match found with
      | [] => (false, v1, [No_images_found_in_directory directoryPath])
      | _ :: _ =>
          let sorted := sort found in
          let v2 := set_imagePaths sorted v1 in
          let resized := resize (length sorted) None (textures v2) in
          let '(texs, err) := load_images 0 sorted (resized, []) in
          (true, set_textures texs v2, err)
      end
  | _ => (false, v, [Invalid_directory_path directoryPath])
  end.

(** *** initialize *)

Definition initialize (env : sdl_env) (directoryPath : string)
    (fullscreenMode : bool) (fps : Z) (v : TimelapseViewer)
    : bool * TimelapseViewer * list cerr_line :=
  let v :=
    {| window := window v; renderer := renderer v;
       imagePaths := imagePaths v; textures := textures v;
       currentIndex := currentIndex v; running := running v;
       playing := playing v; targetFPS := fps;
       fullscreen := fullscreenMode; windowWidth := windowWidth v;
       windowHeight := windowHeight v |} in
  if SDL_Init env <? 0 then (false, v, [SDL_could_not_initialize])
  else
    let imgFlags := Z.lor IMG_INIT_JPG IMG_INIT_PNG in
    if Z.land (IMG_Init env imgFlags) imgFlags =? 0
    then (false, v, [SDL_image_could_not_initialize])
    else
      let v :=
        {| window := SDL_CreateWindow env; renderer := renderer v;
           imagePaths := imagePaths v; textures := textures v;
           currentIndex := currentIndex v; running := running v;
           playing := playing v; targetFPS := targetFPS v;
           fullscreen := fullscreen v; windowWidth := windowWidth v;
           windowHeight := windowHeight v |} in
      if negb (window v) then (false, v, [Window_could_not_be_created])
      else
        let v :=
          {| window := window v; renderer := SDL_CreateRenderer env;
             imagePaths := imagePaths v; textures := textures v;
             currentIndex := currentIndex v; running := running v;
             playing := playing v; targetFPS := targetFPS v;
             fullscreen := fullscreen v; windowWidth := windowWidth v;
             windowHeight := windowHeight v |} in
        if negb (renderer v) then (false, v, [Renderer_could_not_be_created])
        else
          let v :=
            {| window := window v; renderer := renderer v;
               imagePaths := imagePaths v; textures := textures v;
               currentIndex := currentIndex v; running := running v;
               playing := playing v; targetFPS := targetFPS v;
               fullscreen := fullscreen v;
               windowWidth := fst (SDL_GetWindowSize env);
               windowHeight := snd (SDL_GetWindowSize env) |} in
          loadImagesFromDirectory directoryPath v.

End Loading.

(** *** renderCurrentFrame *)

(** The destination rectangle computed for a texture of
    [textureWidth] x [textureHeight] pixels in a window of
    [windowWidth] x [windowHeight]. *)
Definition render_rect (windowWidth windowHeight textureWidth textureHeight : Z)
    : option SDL_Rect :=
  let scaleX :=
    Float32.div (Float32.of_int windowWidth) (Float32.of_int textureWidth) in
  let scaleY :=
    Float32.div (Float32.of_int windowHeight) (Float32.of_int textureHeight) in
  let scale := Float32.min scaleX scaleY in
  renderWidth ← Float32.to_int (Float32.mul (Float32.of_int textureWidth) scale);
  renderHeight ← Float32.to_int (Float32.mul (Float32.of_int textureHeight) scale);
  renderX ← Cxx.int_div (Cxx.int_wrap (windowWidth - renderWidth)) 2;
  renderY ← Cxx.int_div (Cxx.int_wrap (windowHeight - renderHeight)) 2;
  Some {| x := renderX; y := renderY; w := renderWidth; h := renderHeight |}.

Definition renderCurrentFrame (v : TimelapseViewer)
    : option (TimelapseViewer * list sdl_call) :=
  if Cxx.size (textures v) <=? currentIndex v then Some (v, [])
  else
    texture ← Cxx.at_index (textures v) (currentIndex v);
    match texture with
    | None => Some (v, [])
    | Some tex =>
        renderRect ← render_rect (windowWidth v) (windowHeight v)
                                 (texture_w tex) (texture_h tex);
        Some (v, [SDL_SetRenderDrawColor 0 0 0 255; SDL_RenderClear;
                  SDL_RenderCopy tex renderRect; SDL_RenderPresent])
    end.

(** *** run *)

(** The body of [while (SDL_PollEvent(&e) != 0)] for one event. *)
Definition handle_event (e : SDL_Event) (v : TimelapseViewer)
    : option (TimelapseViewer * list sdl_call) :=
  match e with
  | SDL_QUIT => Some (set_running false v, [])
  | SDL_KEYDOWN SDLK_ESCAPE => Some (set_running false v, [])
  | SDL_KEYDOWN SDLK_SPACE => Some (set_playing (negb (playing v)) v, [])
  | SDL_KEYDOWN SDLK_RIGHT =>
      if negb (playing v) then
        i ← Cxx.size_t_rem (Cxx.size_t_add (currentIndex v) 1)
                           (Cxx.size (imagePaths v));
        renderCurrentFrame (set_currentIndex i v)
      else Some (v, [])
  | SDL_KEYDOWN SDLK_LEFT =>
      if negb (playing v) then
        i ← Cxx.size_t_rem
              (Cxx.size_t_sub
                 (Cxx.size_t_add (currentIndex v) (Cxx.size (imagePaths v))) 1)
              (Cxx.size (imagePaths v));
        renderCurrentFrame (set_currentIndex i v)
      else Some (v, [])
  | SDL_KEYDOWN SDLK_other => Some (v, [])
  | SDL_other_event => Some (v, [])
  end.

(** Draining the event queue. *)
Fixpoint poll_events (events : list SDL_Event) (v : TimelapseViewer)
    : option (TimelapseViewer * list sdl_call) :=
  match events with
  | [] => Some (v, [])
  | e :: rest =>
      '(v1, out1) ← handle_event e v;
      '(v2, out2) ← poll_events rest v1;
      Some (v2, out1 ++ out2)
  end.

(** The viewer together with the local variables of [run]. *)
Record run_state := {
  viewer : TimelapseViewer;
  lastFrameTime : Z;    (* time point, nanoseconds *)
  frameCount : Z;       (* int *)
  fpsTimer : Z          (* time point, nanoseconds *)
}.

(** [duration_cast<milliseconds>(d).count()] and
    [duration_cast<seconds>(d).count()] of a duration in nanoseconds. *)
Definition milliseconds (d : Z) : Z := Z.quot d 1000000.

Definition seconds (d : Z) : Z := Z.quot d 1000000000.

Definition window_title (fps : Z) : string :=
  "High-Speed Timelapse Viewer - " +:+ Cxx.to_string fps +:+ " FPS".

(** The branch [if (playing)] of the loop body, with [currentTime] the
    reading of the clock. *)
Definition update_frame (currentTime : Z) (s : run_state)
    : option (run_state * list sdl_call) :=
  let v := viewer s in
  let elapsed := milliseconds (currentTime - lastFrameTime s) in
  msPerFrame ← Cxx.int_div 1000 (targetFPS v);
  '(s1, out1) ←
    (if msPerFrame <=? elapsed then
       i ← Cxx.size_t_rem (Cxx.size_t_add (currentIndex v) 1)
                          (Cxx.size (imagePaths v));
       '(v1, out) ← renderCurrentFrame (set_currentIndex i v);
       Some ({| viewer := v1; lastFrameTime := currentTime;
                frameCount := Cxx.int_wrap (frameCount s + 1);
                fpsTimer := fpsTimer s |}, out)
     else Some (s, []));
  let fpsDuration := seconds (currentTime - fpsTimer s1) in
  if 1 <=? fpsDuration then
    fps ← Cxx.int_div (frameCount s1) fpsDuration;
    Some ({| viewer := viewer s1; lastFrameTime := lastFrameTime s1;
             frameCount := 0; fpsTimer := currentTime |},
          out1 ++ [SDL_SetWindowTitle (window_title fps)])
  else Some (s1, out1).

(** One turn of [while (running)]: the queued [events] are drained, then the
    frame is updated when playing ([currentTime] is what the clock reads
    there), otherwise the loop sleeps. *)
Definition loop_iteration (events : list SDL_Event) (currentTime : Z)
    (s : run_state) : option (run_state * list sdl_call) :=
  '(v1, out1) ← poll_events events (viewer s);
  let s1 := {| viewer := v1; lastFrameTime := lastFrameTime s;
               frameCount := frameCount s; fpsTimer := fpsTimer s |} in
  if playing v1 then
    '(s2, out2) ← update_frame currentTime s1;
    Some (s2, out1 ++ out2)
  else Some (s1, out1 ++ [SDL_Delay 10]).

(** [while (running)] along a finite record of what each turn received:
    its queued events and its clock reading. *)
Fixpoint run_loop (turns : list (list SDL_Event * Z)) (s : run_state)
    : option (run_state * list sdl_call) :=
  match turns with
  | [] => Some (s, [])
  | (events, currentTime) :: rest =>
      if running (viewer s) then
        '(s1, out1) ← loop_iteration events currentTime s;
        '(s2, out2) ← run_loop rest s1;
        Some (s2, out1 ++ out2)
      else Some (s, [])
  end.

(** The state in which [run] enters its loop; [now1] and [now2] are the two
    readings of the clock that initialise [lastFrameTime] and [fpsTimer]. *)
Definition run_entry (now1 now2 : Z) (v : TimelapseViewer) : run_state :=
  {| viewer := v; lastFrameTime := now1; frameCount := 0; fpsTimer := now2 |}.

Definition run (now1 now2 : Z) (turns : list (list SDL_Event * Z))
    (v : TimelapseViewer)
    : option (run_state * list sdl_call) * list cerr_line :=
  if bool_decide (imagePaths v = []) || negb (window v) || negb (renderer v)
  then (Some (run_entry now1 now2 v, []), [Cannot_run])
  else (run_loop turns (run_entry now1 now2 v), []).

(** *** cleanup and the destructor *)

Definition set_window (b : bool) (v : TimelapseViewer) :=
  {| window := b; renderer := renderer v; imagePaths := imagePaths v;
     textures := textures v; currentIndex := currentIndex v;
     running := running v; playing := playing v; targetFPS := targetFPS v;
     fullscreen := fullscreen v; windowWidth := windowWidth v;
     windowHeight := windowHeight v |}.

Definition set_renderer (b : bool) (v : TimelapseViewer) :=
  {| window := window v; renderer := b; imagePaths := imagePaths v;
     textures := textures v; currentIndex := currentIndex v;
     running := running v; playing := playing v; targetFPS := targetFPS v;
     fullscreen := fullscreen v; windowWidth := windowWidth v;
     windowHeight := windowHeight v |}.

(** The calls that give back what the viewer holds, in the order they are
    made. *)
Inductive teardown_call :=
| SDL_DestroyTexture (texture : SDL_Texture)
| SDL_DestroyRenderer
| SDL_DestroyWindow
| IMG_Quit
| SDL_Quit.

#[global] Instance teardown_call_eq_dec : EqDecision teardown_call.
Proof. solve_decision. Defined.

(** The body of [for (auto& texture : textures)] for one element. *)
Definition free_texture (texture : option SDL_Texture)
    : option SDL_Texture * list teardown_call :=
  match texture with
  | Some tex => (None, [SDL_DestroyTexture tex])
  | None => (texture, [])
  end.

Fixpoint free_textures (texs : list (option SDL_Texture))
    : list (option SDL_Texture) * list teardown_call :=
  match texs with
  | [] => ([], [])
  | texture :: rest =>
      let '(texture', out1) := free_texture texture in
      let '(rest', out2) := free_textures rest in
      (texture' :: rest', out1 ++ out2)
  end.

Definition cleanup (v : TimelapseViewer) : TimelapseViewer * list teardown_call :=
  let '(texs, out1) := free_textures (textures v) in
  let v := set_textures texs v in
  let '(v, out2) :=
    if renderer v then (set_renderer false v, [SDL_DestroyRenderer])
    else (v, []) in
  let '(v, out3) :=
    if window v then (set_window false v, [SDL_DestroyWindow])
    else (v, []) in
  (v, out1 ++ out2 ++ out3 ++ [IMG_Quit; SDL_Quit]).

(** [~TimelapseViewer()] *)
Definition destructor (v : TimelapseViewer) : list teardown_call :=
  snd (cleanup v).

(** *** main: the command line *)

Record options := {
  opt_directoryPath : string;
  opt_fullscreen : bool;
  opt_fps : Z
}.

(** The values the three variables of [main] start with. *)
Definition options_default : options :=
  {| opt_directoryPath := ""; opt_fullscreen := false; opt_fps := 240 |}.

Inductive parse_outcome :=
| Parsed (o : options)
| Usage_shown          (* -h or --help: the usage is printed, exit code 0 *)
| Stoi_threw.          (* std::stoi threw on the argument of --fps *)

Section CommandLine.

(** [std::stoi]; [None] when it throws. *)
Variable stoi : string -> option Z.

(** The loop over [argv[1 .. argc-1]]. *)
Fixpoint parse_arguments (args : list string) (o : options) : parse_outcome :=
  match args with
  | [] => Parsed o
  | arg :: rest =>
      if String.eqb arg "-d" || String.eqb arg "--directory" then
        match rest with
        | value :: rest' =>
            parse_arguments rest'
              {| opt_directoryPath := value;
                 opt_fullscreen := opt_fullscreen o; opt_fps := opt_fps o |}
        | [] => Parsed o
        end
      else if String.eqb arg "-f" || String.eqb arg "--fullscreen" then
        parse_arguments rest
          {| opt_directoryPath := opt_directoryPath o;
             opt_fullscreen := true; opt_fps := opt_fps o |}
      else if String.eqb arg "--fps" then
        match rest with
        | value :: rest' =>
            match stoi value with
            | Some n =>
                parse_arguments rest'
                  {| opt_directoryPath := opt_directoryPath o;
                     opt_fullscreen := opt_fullscreen o; opt_fps := n |}
            | None => Stoi_threw
            end
        | [] => Parsed o
        end
      else if String.eqb arg "-h" || String.eqb arg "--help" then Usage_shown
      else if String.eqb (opt_directoryPath o) "" then
        parse_arguments rest
          {| opt_directoryPath := arg;
             opt_fullscreen := opt_fullscreen o; opt_fps := opt_fps o |}
      else parse_arguments rest o
  end.

End CommandLine.

(** *** main *)

(** Lines written to [std::cerr] while [main] runs: those of the viewer,
    and the one of [main] itself. *)
Inductive main_cerr_line :=
| Viewer_says (line : cerr_line)
| Failed_to_initialize_viewer.

(** How a run of the program ends, as far as a finite record of the turns
    of the loop tells. *)
Inductive main_outcome :=
| Returned (status : Z) (cerr : list main_cerr_line) (screen : list sdl_call)
           (teardown : list teardown_call)
| Uncaught_exception            (* std::stoi threw: std::terminate *)
| Still_running (screen : list sdl_call)
                                (* the record ends with the loop going on *)
| Undefined_behaviour.

(** Has [run] returned?  It returns at once when it refuses to start, and
    otherwise when the loop finds [running] false. *)
Definition run_returned (s : run_state) (err : list cerr_line) : bool :=
  match err with
  | [] => negb (running (viewer s))
  | _ :: _ => true
  end.

Section Main.

Variable stoi : string -> option Z.
Variable fs_status : string -> option fs_node.
Variable IMG_Load : string -> option SDL_Surface.
Variable SDL_CreateTextureFromSurface : SDL_Surface -> option SDL_Texture.
Variable env : sdl_env.

(** [args] is [argv[1 .. argc-1]]; [input] is what [std::getline] stores
    when the prompt is answered (the empty string at the end of input);
    [now1], [now2] and [turns] are what [run] reads from the clock and the
    event queue. *)
Definition main (args : list string) (input : string) (now1 now2 : Z)
    (turns : list (list SDL_Event * Z)) : main_outcome :=
  match parse_arguments stoi args options_default with
  | Usage_shown => Returned 0 [] [] []
  | Stoi_threw => Uncaught_exception
  | Parsed o =>
      let directoryPath :=
        if String.eqb (opt_directoryPath o) EmptyString then input
        else opt_directoryPath o in
      let '(ok, v, err) :=
        initialize fs_status IMG_Load SDL_CreateTextureFromSurface env
          directoryPath (opt_fullscreen o) (opt_fps o) TimelapseViewer_default in
      if negb ok then
        Returned 1 (map Viewer_says err ++ [Failed_to_initialize_viewer]) []
          (destructor v)
      else
        match run now1 now2 turns v with
        | (None, _) => Undefined_behaviour
        | (Some (s, screen), err') =>
            if run_returned s err' then
              Returned 0 (map Viewer_says (err ++ err')) screen
                (destructor (viewer s))
            else Still_running screen
        end
  end.

End Main.

(** * Vocabulary of the properties *)

(** ** Playback states *)

(** The number [N] of frames the playback cycles through. *)
Definition frame_total (v : TimelapseViewer) : Z := Cxx.size (imagePaths v).

(** The frame sequence is not empty and fits a [std::vector]. *)
Definition sequence_ok (v : TimelapseViewer) : Prop :=
  0 < frame_total v <= Cxx.VECTOR_MAX_SIZE.

Definition index_in_range (v : TimelapseViewer) : Prop :=
  0 <= currentIndex v < frame_total v.

(** Sizes for which the drawing arithmetic is defined: a window of at most
    [2^24] pixels each way (up to there an [int] converts to [float]
    exactly; SDL itself stops at 16384), and decoded frames whose two sizes
    are positive [int]s. *)
Definition WINDOW_LIMIT : Z := 2 ^ 24.

Definition texture_sized (texture : option SDL_Texture) : Prop :=
  match texture with
  | None => True
  | Some tex =>
      0 < texture_w tex <= Cxx.INT_MAX /\ 0 < texture_h tex <= Cxx.INT_MAX
  end.

Definition sizes_ok (v : TimelapseViewer) : Prop :=
  0 <= windowWidth v <= WINDOW_LIMIT /\ 0 <= windowHeight v <= WINDOW_LIMIT
  /\ Forall texture_sized (textures v).

(** Every frame that was decoded has a destination rectangle in the window:
    the two float-to-int conversions of [render_rect] are defined for it. *)
Definition frame_renderable (windowWidth windowHeight : Z)
    (texture : option SDL_Texture) : bool :=
  match texture with
  | None => true
  | Some tex =>
      match render_rect windowWidth windowHeight (texture_w tex) (texture_h tex) with
      | Some _ => true
      | None => false
      end
  end.

Definition frames_renderable (v : TimelapseViewer) : bool :=
  forallb (frame_renderable (windowWidth v) (windowHeight v)) (textures v).

(** [v'] differs from [v] at most in its index and in its [running] and
    [playing] flags. *)
Definition same_setup (v v' : TimelapseViewer) : Prop :=
  window v' = window v /\ renderer v' = renderer v
  /\ imagePaths v' = imagePaths v /\ textures v' = textures v
  /\ targetFPS v' = targetFPS v /\ fullscreen v' = fullscreen v
  /\ windowWidth v' = windowWidth v /\ windowHeight v' = windowHeight v.

(** The states the loop is meant to run in. *)
Definition ready (v : TimelapseViewer) : Prop :=
  sequence_ok v /\ index_in_range v /\ targetFPS v <> 0 /\ sizes_ok v.

(** ** Commands and the clock *)

(** The events behind the commands of the playback controller. *)
Definition StepForward : SDL_Event := SDL_KEYDOWN SDLK_RIGHT.

Definition StepBackward : SDL_Event := SDL_KEYDOWN SDLK_LEFT.

Definition ToggleOnOff : SDL_Event := SDL_KEYDOWN SDLK_SPACE.

(** The interval between two frames, [1000 / targetFPS] in [int]. *)
Definition msPerFrame (v : TimelapseViewer) : Z := Z.quot 1000 (targetFPS v).

(** Is a frame due at the clock reading [currentTime]? *)
Definition frame_due (currentTime : Z) (s : run_state) : bool :=
  msPerFrame (viewer s) <=? milliseconds (currentTime - lastFrameTime s).

(** Has the measurement window lasted a whole second at [currentTime]? *)
Definition window_closes (currentTime : Z) (s : run_state) : bool :=
  1 <=? seconds (currentTime - fpsTimer s).

(** What [update_frame] leaves behind, read off the code: the index and the
    time of the last frame move when a frame is due; the counter is
    incremented then, and zeroed with the window restarted when the window
    closes. *)
Definition updated (currentTime : Z) (s : run_state) : run_state :=
  let v := viewer s in
  let due := frame_due currentTime s in
  {| viewer :=
       if due then set_currentIndex ((currentIndex v + 1) mod frame_total v) v
       else v;
     lastFrameTime := if due then currentTime else lastFrameTime s;
     frameCount :=
       if window_closes currentTime s then 0
       else if due then Cxx.int_wrap (frameCount s + 1) else frameCount s;
     fpsTimer := if window_closes currentTime s then currentTime else fpsTimer s |}.

(** The title set when the window closes: the counter, the frame of this
    very update included, divided by the whole seconds elapsed. *)
Definition reported_title (currentTime : Z) (s : run_state) : string :=
  let count :=
    if frame_due currentTime s then Cxx.int_wrap (frameCount s + 1)
    else frameCount s in
  window_title (Z.quot count (seconds (currentTime - fpsTimer s))).

(** What an observer of the loop sees after a turn: the index, the time of
    the last frame (in nanoseconds) and the frame counter. *)
Definition observe (r : option (run_state * list sdl_call)) : option (Z * Z * Z) :=
  '(s, _) ← r;
  Some (currentIndex (viewer s), lastFrameTime s, frameCount s).

(** Clock readings in nanoseconds, from milliseconds. *)
Definition ms (t : Z) : Z := t * 1000000.

(** ** Sources and decoding *)

(** Does the scan keep this entry of the directory? *)
Definition is_candidate (directoryPath : string) (entry : string * fs_node)
    : bool :=
  is_regular_file (snd entry)
  && is_image_extension
       (Path.lowercase (Path.extension (Path.append directoryPath (fst entry)))).

Section Decoding.

Variable fs_status : string -> option fs_node.
Variable IMG_Load : string -> option SDL_Surface.
Variable SDL_CreateTextureFromSurface : SDL_Surface -> option SDL_Texture.

(** What the pre-loading loop stores for a source: the texture, or a null
    pointer when the image cannot be decoded or the texture cannot be
    made. *)
Definition decode (path : string) : option SDL_Texture :=
  IMG_Load path ≫= SDL_CreateTextureFromSurface.

(** The warning the loop writes for a source, if any. *)
Definition decode_warning (path : string) : list cerr_line :=
  match IMG_Load path with
  | None => [Unable_to_load_image path]
  | Some surface =>
      match SDL_CreateTextureFromSurface surface with
      | None => [Unable_to_create_texture_from path]
      | Some _ => []
      end
  end.

Definition decodes (path : string) : bool :=
  match decode path with Some _ => true | None => false end.

(** The ordered sources the pre-loading loop goes through. *)
Definition sources (directoryPath : string) : list string :=
  match fs_status directoryPath with
  | Some (Directory entries) => sort (scan_directory directoryPath entries [])
  | _ => []
  end.

End Decoding.

(** ** Rectangles and floats *)

(** The integer part of a rational, toward zero. *)
Definition toward_zero (q : QArith_base.Q) : Z :=
  Z.quot (QArith_base.Qnum q) (Zpos (QArith_base.Qden q)).

(** The draw rectangle as the specification words it, in exact arithmetic:
    the scale [s] is the smaller of the two rational quotients
    viewport size / frame size, the sides are [frame.width * s] and
    [frame.height * s] rounded toward zero, and the rectangle is centred by
    integer division. *)
Definition spec_draw_rect (viewportWidth viewportHeight frameWidth frameHeight : Z)
    : SDL_Rect :=
  let s :=
    Qminmax.Qmin
      (QArith_base.Qdiv (QArith_base.inject_Z viewportWidth)
                        (QArith_base.inject_Z frameWidth))
      (QArith_base.Qdiv (QArith_base.inject_Z viewportHeight)
                        (QArith_base.inject_Z frameHeight)) in
  let renderWidth :=
    toward_zero (QArith_base.Qmult (QArith_base.inject_Z frameWidth) s) in
  let renderHeight :=
    toward_zero (QArith_base.Qmult (QArith_base.inject_Z frameHeight) s) in
  {| x := Z.quot (viewportWidth - renderWidth) 2;
     y := Z.quot (viewportHeight - renderHeight) 2;
     w := renderWidth; h := renderHeight |}.

(** The sign carried by a float that is not a NaN. *)
Definition has_sign (s : bool) (f : Float32.float) : Prop :=
  match f with
  | S754_zero s' | S754_finite s' _ _ | S754_infinity s' => s' = s
  | S754_nan => True
  end.

(** A positive normal float whose magnitude (binary exponent plus one) lies
    in [lo .. hi]: its value is in [2^(lo-1), 2^hi). *)
Definition normal (lo hi : Z) (f : Float32.float) : Prop :=
  exists m e,
    f = S754_finite false m e /\ 2 ^ 23 <= Zpos m < 2 ^ 24
    /\ lo <= e + 24 <= hi.

(** ** What the loop puts on the screen *)

(** The four calls that draw one frame. *)
Definition frame_calls (tex : SDL_Texture) (r : SDL_Rect) : list sdl_call :=
  [SDL_SetRenderDrawColor 0 0 0 255; SDL_RenderClear; SDL_RenderCopy tex r;
   SDL_RenderPresent].

(** The sequences of calls made of whole frames of [v], window titles and
    sleeps of ten milliseconds: a frame is one of the decoded textures of
    [v], copied to the rectangle computed for it in the window of [v],
    between a clearing to black and a presentation. *)
Inductive screen_trace (v : TimelapseViewer) : list sdl_call -> Prop :=
| trace_nil : screen_trace v []
| trace_frame tex r out :
    Some tex ∈ textures v ->
    render_rect (windowWidth v) (windowHeight v) (texture_w tex) (texture_h tex)
    = Some r ->
    screen_trace v out ->
    screen_trace v (frame_calls tex r ++ out)
| trace_title title out :
    screen_trace v out -> screen_trace v (SDL_SetWindowTitle title :: out)
| trace_delay out :
    screen_trace v out -> screen_trace v (SDL_Delay 10 :: out).

(** ** Events and turns *)

(** The events that end the loop, and the one that toggles playback. *)
Definition is_quit (e : SDL_Event) : bool :=
  match e with
  | SDL_QUIT | SDL_KEYDOWN SDLK_ESCAPE => true
  | _ => false
  end.

Definition is_toggle (e : SDL_Event) : bool :=
  match e with
  | SDL_KEYDOWN SDLK_SPACE => true
  | _ => false
  end.

(** Turns in which no event is queued, one for each clock reading. *)
Definition idle_turns (times : list Z) : list (list SDL_Event * Z) :=
  map (fun currentTime => ([], currentTime)) times.

(** The index moved by a batch of arrow keys: one forward for each right
    arrow, one backward for each left arrow. *)
Fixpoint net_steps (events : list SDL_Event) : Z :=
  match events with
  | [] => 0
  | SDL_KEYDOWN SDLK_RIGHT :: rest => net_steps rest + 1
  | SDL_KEYDOWN SDLK_LEFT :: rest => net_steps rest - 1
  | _ :: rest => net_steps rest
  end.

(** ** The viewer after [initialize] *)

(** The viewer a successful [initialize] leaves behind. *)
Definition initialized (env : sdl_env) (fullscreenMode : bool) (fps : Z)
    (paths : list string) (texs : list (option SDL_Texture)) : TimelapseViewer :=
  {| window := true; renderer := true; imagePaths := paths; textures := texs;
     currentIndex := 0; running := true; playing := false; targetFPS := fps;
     fullscreen := fullscreenMode;
     windowWidth := fst (SDL_GetWindowSize env);
     windowHeight := snd (SDL_GetWindowSize env) |}.

(** ** The order of the paths *)

(** [a <= b] in the order of [std::string]: byte by byte, a proper prefix
    first. *)
Definition path_le (a b : string) : Prop := String.leb a b = true.

(** ** What the viewer holds *)

(** The textures a viewer holds: the slots that are not null, in order. *)
Definition held_textures (v : TimelapseViewer) : list SDL_Texture :=
  omap id (textures v).

(** What [cleanup] has to give back for a viewer, in the order of the
    code: the textures, the renderer, the window, then the two libraries. *)
Definition releases (v : TimelapseViewer) : list teardown_call :=
  map SDL_DestroyTexture (held_textures v)
  ++ (if renderer v then [SDL_DestroyRenderer] else [])
  ++ (if window v then [SDL_DestroyWindow] else [])
  ++ [IMG_Quit; SDL_Quit].

(** ** The program *)

(** The two warnings of the pre-loading loop. *)
Definition is_decode_warning (line : cerr_line) : bool :=
  match line with
  | Unable_to_load_image _ | Unable_to_create_texture_from _ => true
  | _ => false
  end.

(** The directory [main] hands to [initialize]: the one of the command
    line, or the answer to the prompt when the command line names none. *)
Definition chosen_directory (o : options) (input : string) : string :=
  if String.eqb (opt_directoryPath o) EmptyString then input else opt_directoryPath o.

(** ** Values of floats *)

(** The value of a positive finite float as an integer: the value times
    [2^SCALE], where [SCALE] is beyond the smallest exponent of the
    format. *)
Definition SCALE : Z := 200.

Definition scaled (f : Float32.float) : Z :=
  match f with
  | S754_finite false m e => Zpos m * 2 ^ (e + SCALE)
  | _ => 0
  end.

(** The window sizes up to which a frame is sure to stay inside the
    window. *)
Definition INSIDE_LIMIT : Z := 2 ^ 22.

(** The window sizes up to which a frame is sure to fill the window along
    one axis, but for a pixel. *)
Definition FILL_LIMIT : Z := 2 ^ 21.

(** ** Sample data *)

(** A paused viewer on three frames, the middle one failed to decode. *)
Definition three_frames : TimelapseViewer :=
  set_textures [Some {| texture_w := 4000; texture_h := 3000 |}; None;
                Some {| texture_w := 640; texture_h := 480 |}]
    (set_imagePaths ["f/a.jpg"; "f/b.jpg"; "f/c.jpg"] TimelapseViewer_default).

(** A directory with five images (one extension in capitals), a text file
    and a subdirectory that holds one more image. *)
Definition shots_directory : list (string * fs_node) :=
  [("0003.png", Regular_file); ("0001.jpg", Regular_file);
   ("notes.txt", Regular_file);
   ("raw", Directory [("0009.jpg", Regular_file)]);
   ("0002.JPG", Regular_file); ("0005.tiff", Regular_file);
   ("0004.bmp", Regular_file)].

Definition shots_fs (path : string) : option fs_node :=
  if String.eqb path "shots" then Some (Directory shots_directory) else None.

(** A decoder that fails on the listed paths, one that always fails, and a
    texture factory that never fails. *)
Definition decoder_failing_on (bad : list string) (path : string)
    : option SDL_Surface :=
  if existsb (String.eqb path) bad then None
  else Some {| surface_w := 4000; surface_h := 3000 |}.

Definition decoder_failing_always (path : string) : option SDL_Surface := None.

Definition texture_of_surface (surface : SDL_Surface) : option SDL_Texture :=
  Some {| texture_w := surface_w surface; texture_h := surface_h surface |}.

(** The three frames in an open window. *)
Definition three_frames_shown : TimelapseViewer :=
  set_window true (set_renderer true three_frames).

(** An SDL in which every stage of [initialize] succeeds, with a window of
    the default size. *)
Definition working_sdl : sdl_env :=
  {| SDL_Init := 0; IMG_Init := fun flags => flags; SDL_CreateWindow := true;
     SDL_CreateRenderer := true; SDL_GetWindowSize := (1280, 720) |}.

(** A [std::stoi] for the sample command lines. *)
Definition sample_stoi (value : string) : option Z :=
  if String.eqb value "0" then Some 0
  else if String.eqb value "60" then Some 60
  else None.

(** * Properties *)

(** ** Facts about the setters *)

Lemma set_currentIndex_same v : set_currentIndex (currentIndex v) v = v.
Proof. by destruct v. Qed.

Lemma set_currentIndex_twice i j v :
  set_currentIndex i (set_currentIndex j v) = set_currentIndex i v.
Proof. done. Qed.

(** ** Machine arithmetic *)

Lemma int_div_nonzero a b : b <> 0 -> Cxx.int_div a b = Some (Z.quot a b).
Proof.
  intros Hb. unfold Cxx.int_div. by destruct (Z.eqb_spec b 0).
Qed.

Lemma int_wrap_small z :
  Cxx.INT_MIN <= z <= Cxx.INT_MAX -> Cxx.int_wrap z = z.
Proof.
  unfold Cxx.INT_MIN, Cxx.INT_MAX, Cxx.int_wrap. intros.
  rewrite Z.mod_small; lia.
Qed.

Lemma at_index_in_range {A} (l : list A) i a :
  Cxx.at_index l i = Some a -> 0 <= i < Cxx.size l.
Proof.
  unfold Cxx.at_index, Cxx.size. destruct (Z.ltb_spec i 0) as [|Hi]; [done|].
  intros Hl. apply lookup_lt_Some in Hl. lia.
Qed.

Section IndexArithmetic.

Variables (N i : Z).
Hypothesis HN : 0 < N <= Cxx.VECTOR_MAX_SIZE.
Hypothesis Hi : 0 <= i < N.

Lemma next_index :
  Cxx.size_t_rem (Cxx.size_t_add i 1) N = Some ((i + 1) mod N).
Proof using HN Hi.
  unfold Cxx.size_t_rem, Cxx.size_t_add, Cxx.size_t_wrap, Cxx.VECTOR_MAX_SIZE in *.
  destruct (Z.eqb_spec N 0) as [|_]; [lia|].
  rewrite (Z.mod_small (i + 1)) by lia. done.
Qed.

Lemma previous_index :
  Cxx.size_t_rem (Cxx.size_t_sub (Cxx.size_t_add i N) 1) N
  = Some ((i + N - 1) mod N).
Proof using HN Hi.
  unfold Cxx.size_t_rem, Cxx.size_t_sub, Cxx.size_t_add, Cxx.size_t_wrap,
    Cxx.VECTOR_MAX_SIZE in *.
  destruct (Z.eqb_spec N 0) as [|_]; [lia|].
  rewrite (Z.mod_small (i + N)) by lia.
  rewrite (Z.mod_small (i + N - 1)) by lia. done.
Qed.

Lemma next_index_in_range : 0 <= (i + 1) mod N < N.
Proof using HN. apply Z.mod_pos_bound. lia. Qed.

Lemma previous_index_in_range : 0 <= (i + N - 1) mod N < N.
Proof using HN. apply Z.mod_pos_bound. lia. Qed.

End IndexArithmetic.

(** [N] steps forward, or [N] steps backward, are a full turn. *)
Lemma full_turn_forward N i : 0 <= i < N -> (i + N) mod N = i.
Proof.
  intros. replace (i + N) with (i + 1 * N) by lia.
  rewrite Z.mod_add by lia. apply Z.mod_small. lia.
Qed.

Lemma full_turn_backward N i : 0 <= i < N -> (i + N * (N - 1)) mod N = i.
Proof.
  intros. replace (i + N * (N - 1)) with (i + (N - 1) * N) by lia.
  rewrite Z.mod_add by lia. apply Z.mod_small. lia.
Qed.

(** ** Signs of floats *)

Lemma binary_round_aux_sign sx mx ex lx :
  has_sign sx (binary_round_aux Float32.prec Float32.emax sx mx ex lx).
Proof.
  unfold binary_round_aux.
  destruct (shr_fexp _ _ mx ex lx) as [mrs' e'].
  destruct (shr_fexp _ _ _ e' loc_Exact) as [mrs'' e''].
  destruct (shr_m mrs''); simpl; [done| |done].
  by destruct (Z.leb _ _).
Qed.

Lemma of_int_sign n : 0 <= n -> has_sign false (Float32.of_int n).
Proof.
  intros Hn. unfold Float32.of_int, binary_normalize.
  destruct n as [|m|m]; [done| |lia].
  unfold binary_round. destruct (shl_align _ _ _) as [mz ez].
  apply binary_round_aux_sign.
Qed.

Lemma div_sign a b :
  has_sign false a -> has_sign false b -> has_sign false (Float32.div a b).
Proof.
  unfold Float32.div, SFdiv.
  destruct a as [sa|sa| |sa ma ea], b as [sb|sb| |sb mb eb]; simpl;
    try done; try (by intros -> ->).
  intros -> ->. destruct (SFdiv_core_binary _ _ _ _ _ _) as [[mz ez] lz].
  apply binary_round_aux_sign.
Qed.

Lemma mul_sign a b :
  has_sign false a -> has_sign false b -> has_sign false (Float32.mul a b).
Proof.
  unfold Float32.mul, SFmul.
  destruct a as [sa|sa| |sa ma ea], b as [sb|sb| |sb mb eb]; simpl;
    try done; try (by intros -> ->).
  intros -> ->. apply binary_round_aux_sign.
Qed.

Lemma min_sign a b :
  has_sign false a -> has_sign false b -> has_sign false (Float32.min a b).
Proof. unfold Float32.min. by destruct (Float32.ltb b a). Qed.

Lemma to_int_nonneg f n :
  has_sign false f -> Float32.to_int f = Some n -> 0 <= n.
Proof.
  destruct f as [s|s| |s m e]; simpl; try done.
  - by intros _ [= <-].
  - intros ->. destruct (bool_decide _); [|done]. intros [= <-].
    unfold Float32.truncate. destruct e as [|p|p].
    + by apply Z.shiftl_nonneg.
    + by apply Z.shiftl_nonneg.
    + by apply Z.shiftr_nonneg.
Qed.

Lemma to_int_in_range f n :
  Float32.to_int f = Some n -> Cxx.INT_MIN <= n <= Cxx.INT_MAX.
Proof.
  destruct f as [s|s| |s m e]; simpl; try done.
  - intros [= <-]. unfold Cxx.INT_MIN, Cxx.INT_MAX. lia.
  - destruct (bool_decide_reflect
                (Cxx.INT_MIN <= Float32.truncate s m e <= Cxx.INT_MAX));
      [|done].
    by intros [= <-].
Qed.

(** ** Binary32 arithmetic in the normal range *)

Lemma digits2_pos_bounds (m : positive) :
  2 ^ (Zpos (digits2_pos m) - 1) <= Zpos m < 2 ^ Zpos (digits2_pos m).
Proof.
  induction m as [m IH|m IH|]; simpl digits2_pos.
  - rewrite Pos2Z.inj_succ.
    replace (Z.succ (Zpos (digits2_pos m)) - 1)
      with (Z.succ (Zpos (digits2_pos m) - 1)) by lia.
    rewrite !Z.pow_succ_r by lia. lia.
  - rewrite Pos2Z.inj_succ.
    replace (Z.succ (Zpos (digits2_pos m)) - 1)
      with (Z.succ (Zpos (digits2_pos m) - 1)) by lia.
    rewrite !Z.pow_succ_r by lia. lia.
  - simpl. lia.
Qed.

Lemma digits2_pos_unique (m : positive) (j : Z) :
  2 ^ (j - 1) <= Zpos m < 2 ^ j -> Zpos (digits2_pos m) = j.
Proof.
  intros [Hlo Hhi]. pose proof (digits2_pos_bounds m) as [Hl Hh].
  assert (0 < j).
  { destruct (Z.le_gt_cases j 0) as [Hj|]; [|done].
    assert (2 ^ j <= 2 ^ 0) by (apply Z.pow_le_mono_r; lia). simpl in *. lia. }
  assert (Zpos (digits2_pos m) - 1 < j).
  { apply (Z.pow_lt_mono_r_iff 2); lia. }
  assert (j - 1 < Zpos (digits2_pos m)).
  { apply (Z.pow_lt_mono_r_iff 2); lia. }
  lia.
Qed.

Lemma digits2_pos_between (q : positive) (lo hi : Z) :
  0 <= lo -> 2 ^ lo <= Zpos q < 2 ^ hi -> lo + 1 <= Zpos (digits2_pos q) <= hi.
Proof.
  intros Hlo [Hl Hh]. pose proof (digits2_pos_bounds q) as [Hq1 Hq2].
  assert (0 < hi).
  { destruct (Z.le_gt_cases hi 0) as [Hj|]; [|done].
    assert (2 ^ hi <= 2 ^ 0) by (apply Z.pow_le_mono_r; lia). simpl in *. lia. }
  split.
  - assert (lo < Zpos (digits2_pos q)); [|lia].
    apply (Z.pow_lt_mono_r_iff 2); lia.
  - assert (Zpos (digits2_pos q) - 1 < hi); [|lia].
    apply (Z.pow_lt_mono_r_iff 2); lia.
Qed.

Lemma Zdigits2_unique (m j : Z) :
  2 ^ (j - 1) <= m < 2 ^ j -> 0 < m -> Zdigits2 m = j.
Proof.
  intros Hb Hm. destruct m as [|p|p]; try lia. simpl.
  by apply digits2_pos_unique.
Qed.

Lemma Zdigits2_range n k :
  0 < k -> 0 < n < 2 ^ k -> 1 <= Zdigits2 n <= k.
Proof.
  intros Hk Hn. destruct n as [|p|p]; try lia. cbn [Zdigits2].
  pose proof (digits2_pos_bounds p) as [Hp _]. split; [lia|].
  assert (Zpos (digits2_pos p) - 1 < k); [|lia].
  apply (Z.pow_lt_mono_r_iff 2); lia.
Qed.

Lemma pow2_split (a b : Z) : 0 <= a -> 0 <= b -> 2 ^ (a + b) = 2 ^ a * 2 ^ b.
Proof. intros. by rewrite Z.pow_add_r. Qed.

(** Shifting a rounding record right by one bit halves its mantissa. *)
Lemma shr_1_m r : 0 <= shr_m r -> shr_m (shr_1 r) = shr_m r / 2.
Proof.
  destruct r as [m r s]. destruct m as [|[p|p|]|p]; cbn [shr_m shr_1]; intros Hm.
  - reflexivity.
  - apply Z.div_unique with 1; lia.
  - apply Z.div_unique with 0; lia.
  - reflexivity.
  - lia.
Qed.

Lemma iter_shr_1_m p : forall r,
  0 <= shr_m r ->
  shr_m (SpecFloat.iter_pos shr_1 p r) = shr_m r / 2 ^ Zpos p.
Proof.
  induction p as [p IH|p IH|]; intros r Hr; cbn [SpecFloat.iter_pos].
  - assert (0 <= shr_m (shr_1 r))
      by (rewrite shr_1_m by done; apply Z.div_pos; lia).
    assert (0 <= shr_m (SpecFloat.iter_pos shr_1 p (shr_1 r))).
    { rewrite IH by done. apply Z.div_pos; lia. }
    rewrite !IH by done. rewrite shr_1_m by done.
    rewrite !Z.div_div by lia.
    replace (Zpos p~1) with (1 + (Zpos p + Zpos p)) by lia.
    rewrite !Z.pow_add_r by lia. reflexivity.
  - assert (0 <= shr_m (SpecFloat.iter_pos shr_1 p r)).
    { rewrite IH by done. apply Z.div_pos; lia. }
    rewrite !IH by done. rewrite !Z.div_div by lia.
    replace (Zpos p~0) with (Zpos p + Zpos p) by lia.
    by rewrite !Z.pow_add_r by lia.
  - rewrite shr_1_m by done. done.
Qed.

Lemma fexp_normal e :
  -149 <= e - 24 -> fexp Float32.prec Float32.emax e = e - 24.
Proof. unfold fexp, emin, Float32.prec, Float32.emax. lia. Qed.

Lemma shr_m_of_loc m l : shr_m (shr_record_of_loc m l) = m.
Proof. by destruct l as [|[]]. Qed.

(** [shr_fexp] drops the [n] low bits that do not fit the format. *)
Lemma shr_fexp_spec m e l :
  0 <= m ->
  let n := Z.max 0 (fexp Float32.prec Float32.emax (Zdigits2 m + e) - e) in
  exists mrs,
    shr_fexp Float32.prec Float32.emax m e l = (mrs, e + n)
    /\ shr_m mrs = m / 2 ^ n.
Proof.
  intros Hm n. unfold shr_fexp, shr. fold Float32.prec Float32.emax.
  subst n.
  destruct (fexp Float32.prec Float32.emax (Zdigits2 m + e) - e)
    as [|p|p] eqn:Hn.
  - exists (shr_record_of_loc m l). rewrite Z.add_0_r.
    split; [done|]. rewrite shr_m_of_loc. by rewrite Z.div_1_r.
  - exists (SpecFloat.iter_pos shr_1 p (shr_record_of_loc m l)).
    replace (Z.max 0 (Zpos p)) with (Zpos p) by lia. split; [done|].
    rewrite iter_shr_1_m by (by rewrite shr_m_of_loc).
    by rewrite shr_m_of_loc.
  - exists (shr_record_of_loc m l).
    replace (Z.max 0 (Zneg p)) with 0 by lia. rewrite Z.add_0_r.
    split; [done|]. rewrite shr_m_of_loc. by rewrite Z.div_1_r.
Qed.

Lemma round_nearest_even_cases m l :
  round_nearest_even m l = m \/ round_nearest_even m l = m + 1.
Proof.
  destruct l as [|[]]; simpl; auto. destruct (Z.even m); auto.
Qed.

(** Rounding a mantissa of at least 24 digits whose magnitude [M] is in the
    normal range gives a normal float of magnitude [M] or [M + 1]. *)
Lemma binary_round_aux_normal sx (mx : positive) ex lx M :
  24 <= Zpos (digits2_pos mx) ->
  M = Zpos (digits2_pos mx) + ex ->
  -125 <= M <= 126 ->
  exists m e,
    binary_round_aux Float32.prec Float32.emax sx (Zpos mx) ex lx
    = S754_finite sx m e
    /\ 2 ^ 23 <= Zpos m < 2 ^ 24 /\ M <= e + 24 <= M + 1.
Proof.
  intros Hd HM Hrange. set (d := Zpos (digits2_pos mx)) in *.
  pose proof (digits2_pos_bounds mx) as Hmx. fold d in Hmx.
  unfold binary_round_aux.
  destruct (shr_fexp_spec (Zpos mx) ex lx) as (mrs1 & H1 & Hm1); [lia|].
  cbn [Zdigits2] in H1, Hm1. fold d in H1, Hm1.
  rewrite fexp_normal in H1, Hm1 by lia.
  replace (Z.max 0 (d + ex - 24 - ex)) with (d - 24) in H1, Hm1 by lia.
  rewrite H1.
  set (m1 := shr_m mrs1) in *.
  assert (Hb1 : 2 ^ 23 <= m1 < 2 ^ 24).
  { rewrite Hm1. split.
    - apply Z.div_le_lower_bound; [lia|].
      rewrite <- pow2_split by lia.
      replace (d - 24 + 23) with (d - 1) by lia. lia.
    - apply Z.div_lt_upper_bound; [lia|].
      rewrite <- pow2_split by lia.
      replace (d - 24 + 24) with d by lia. lia. }
  set (m2 := round_nearest_even m1 (loc_of_shr_record mrs1)).
  assert (Hb2 : 2 ^ 23 <= m2 <= 2 ^ 24).
  { destruct (round_nearest_even_cases m1 (loc_of_shr_record mrs1)) as [H|H];
      fold m2 in H; lia. }
  destruct (shr_fexp_spec m2 (ex + (d - 24)) loc_Exact) as (mrs2 & H2 & Hm2);
    [lia|].
  destruct (Z.eq_dec m2 (2 ^ 24)) as [Heq|Hne].
  - assert (Hd2 : Zdigits2 m2 = 25).
    { apply Zdigits2_unique; [|lia]. rewrite Heq. change (25 - 1) with 24.
      split; [lia|]. apply Z.pow_lt_mono_r; lia. }
    rewrite Hd2 in H2, Hm2. rewrite fexp_normal in H2, Hm2 by lia.
    replace (Z.max 0 (25 + (ex + (d - 24)) - 24 - (ex + (d - 24)))) with 1
      in H2, Hm2 by lia.
    rewrite H2. rewrite Hm2, Heq. change (2 ^ 24 / 2 ^ 1) with (Zpos 8388608).
    destruct (Z.leb_spec (ex + (d - 24) + 1) (Float32.emax - Float32.prec))
      as [_|Hbad]; [|unfold Float32.emax, Float32.prec in Hbad; lia].
    eexists _, _. split; [reflexivity|]. split; [done|]. lia.
  - assert (Hd2 : Zdigits2 m2 = 24).
    { apply Zdigits2_unique; [|lia]. change (24 - 1) with 23. lia. }
    rewrite Hd2 in H2, Hm2. rewrite fexp_normal in H2, Hm2 by lia.
    replace (Z.max 0 (24 + (ex + (d - 24)) - 24 - (ex + (d - 24)))) with 0
      in H2, Hm2 by lia.
    rewrite H2. rewrite Hm2. rewrite Z.div_1_r.
    destruct m2 as [|q|q] eqn:Hq; try lia.
    destruct (Z.leb_spec (ex + (d - 24) + 0) (Float32.emax - Float32.prec))
      as [_|Hbad]; [|unfold Float32.emax, Float32.prec in Hbad; lia].
    eexists _, _. split; [reflexivity|]. split; [lia|]. lia.
Qed.

Lemma iter_xO_pow2 (p k : positive) :
  Zpos (Pos.iter xO p k) = Zpos p * 2 ^ Zpos k.
Proof.
  induction k as [|k IH] using Pos.peano_ind.
  - simpl. lia.
  - rewrite Pos.iter_succ, Pos2Z.inj_xO, IH, Pos2Z.inj_succ.
    rewrite Z.pow_succ_r by lia. lia.
Qed.

(** A positive [int] converts to a normal float of the magnitude of the
    integer, or one more when rounding carries. *)
Lemma of_int_normal n :
  0 < n < 2 ^ 31 ->
  normal (Zdigits2 n) (Zdigits2 n + 1) (Float32.of_int n).
Proof.
  intros Hn. destruct n as [|p|p]; try lia.
  cbn [Zdigits2]. set (d := Zpos (digits2_pos p)).
  pose proof (digits2_pos_bounds p) as Hp. fold d in Hp.
  assert (Hd : 1 <= d <= 31).
  { split; [unfold d; lia|].
    assert (d - 1 < 31); [|lia]. apply (Z.pow_lt_mono_r_iff 2); lia. }
  unfold Float32.of_int, binary_normalize, binary_round.
  fold d. rewrite fexp_normal by lia. unfold shl_align.
  destruct (d + 0 - 24 - 0) as [|k|k] eqn:Hk.
  - destruct (binary_round_aux_normal false p 0 loc_Exact d)
      as (m & e & H & Hm & He); [fold d; lia..|].
    exists m, e. by rewrite H.
  - destruct (binary_round_aux_normal false p 0 loc_Exact d)
      as (m & e & H & Hm & He); [fold d; lia..|].
    exists m, e. by rewrite H.
  - assert (Hpk : Zpos (Pos.iter xO p k) = Zpos p * 2 ^ (24 - d)).
    { rewrite iter_xO_pow2. do 2 f_equal. lia. }
    assert (Hdk : Zpos (digits2_pos (Pos.iter xO p k)) = 24).
    { apply digits2_pos_unique. rewrite Hpk. change (24 - 1) with 23. split.
      - replace 23 with ((d - 1) + (24 - d)) by lia.
        rewrite pow2_split by lia. apply Z.mul_le_mono_nonneg_r; lia.
      - replace 24 with (d + (24 - d)) at 2 by lia.
        rewrite pow2_split by lia. apply Z.mul_lt_mono_pos_r; lia. }
    destruct (binary_round_aux_normal false (Pos.iter xO p k) (d + 0 - 24)
                loc_Exact d) as (m & e & H & Hm & He); [lia..|].
    exists m, e. by rewrite H.
Qed.

Lemma normal_digits (m : positive) :
  2 ^ 23 <= Zpos m < 2 ^ 24 -> Zpos (digits2_pos m) = 24.
Proof. intros. by apply digits2_pos_unique. Qed.

Lemma div_finite_normal (mx my : positive) (ex ey : Z) :
  2 ^ 23 <= Zpos mx < 2 ^ 24 -> 2 ^ 23 <= Zpos my < 2 ^ 24 ->
  -100 <= ex - ey <= 100 ->
  normal (ex - ey) (ex - ey + 2)
    (Float32.div (S754_finite false mx ex) (S754_finite false my ey)).
Proof.
  intros Hx Hy He. unfold Float32.div, SFdiv, SFdiv_core_binary.
  cbn [Zdigits2 xorb]. rewrite !normal_digits by done.
  rewrite fexp_normal by lia.
  replace (Z.min (24 + ex - (24 + ey) - 24) (ex - ey)) with (ex - ey - 24)
    by lia.
  replace (ex - ey - (ex - ey - 24)) with 24 by lia.
  rewrite Z.shiftl_mul_pow2 by lia.
  destruct (Z.div_eucl (Zpos mx * 2 ^ 24) (Zpos my)) as [q r] eqn:Hqr.
  assert (Hq : q = Zpos mx * 2 ^ 24 / Zpos my).
  { unfold Z.div. by rewrite Hqr. }
  assert (Hqb : 2 ^ 23 <= q < 2 ^ 25).
  { rewrite Hq. split.
    - apply Z.div_le_lower_bound; [lia|].
      change (2 ^ 24) with (2 * 2 ^ 23). nia.
    - apply Z.div_lt_upper_bound; [lia|].
      change (2 ^ 25) with (2 * 2 ^ 24) at 1. nia. }
  destruct q as [|qp|qp]; try lia.
  pose proof (digits2_pos_between qp 23 25 ltac:(lia) Hqb) as Hd.
  destruct (binary_round_aux_normal false qp (ex - ey - 24)
              (new_location (Zpos my) r)
              (Zpos (digits2_pos qp) + (ex - ey - 24)))
    as (m & e & H & Hm & Hme); [lia | done | lia |].
  exists m, e. rewrite H. split; [done|]. split; [done|]. lia.
Qed.

Lemma mul_finite_normal (mx my : positive) (ex ey : Z) :
  2 ^ 23 <= Zpos mx < 2 ^ 24 -> 2 ^ 23 <= Zpos my < 2 ^ 24 ->
  -100 <= ex + ey <= 50 ->
  normal (ex + ey + 47) (ex + ey + 49)
    (Float32.mul (S754_finite false mx ex) (S754_finite false my ey)).
Proof.
  intros Hx Hy He. unfold Float32.mul, SFmul. cbn [xorb].
  assert (Hb : 2 ^ 46 <= Zpos (mx * my) < 2 ^ 48).
  { rewrite Pos2Z.inj_mul. change (2 ^ 46) with (2 ^ 23 * 2 ^ 23).
    change (2 ^ 48) with (2 ^ 24 * 2 ^ 24). nia. }
  pose proof (digits2_pos_between (mx * my) 46 48 ltac:(lia) Hb) as Hd.
  destruct (binary_round_aux_normal false (mx * my) (ex + ey) loc_Exact
              (Zpos (digits2_pos (mx * my)) + (ex + ey)))
    as (m & e & H & Hm & Hme); [lia | done | lia |].
  exists m, e. rewrite H. split; [done|]. split; [done|]. lia.
Qed.

(** Quotient, product and minimum of normal floats, by magnitude. *)
Lemma div_normal a1 a2 b1 b2 f g :
  normal a1 a2 f -> normal b1 b2 g ->
  -100 <= a1 - b2 -> a2 - b1 <= 100 ->
  normal (a1 - b2) (a2 - b1 + 2) (Float32.div f g).
Proof.
  intros (mx & ex & -> & Hx & Hex) (my & ey & -> & Hy & Hey) Hlo Hhi.
  destruct (div_finite_normal mx my ex ey Hx Hy) as (m & e & H & Hm & He);
    [lia|].
  exists m, e. split; [done|]. split; [done|]. lia.
Qed.

Lemma mul_normal a1 a2 b1 b2 f g :
  normal a1 a2 f -> normal b1 b2 g ->
  -52 <= a1 + b1 -> a2 + b2 <= 98 ->
  normal (a1 + b1 - 1) (a2 + b2 + 1) (Float32.mul f g).
Proof.
  intros (mx & ex & -> & Hx & Hex) (my & ey & -> & Hy & Hey) Hlo Hhi.
  destruct (mul_finite_normal mx my ex ey Hx Hy) as (m & e & H & Hm & He);
    [lia|].
  exists m, e. split; [done|]. split; [done|]. lia.
Qed.

Lemma min_normal a1 a2 b1 b2 f g :
  normal a1 a2 f -> normal b1 b2 g ->
  normal (Z.min a1 b1) (Z.min a2 b2) (Float32.min f g).
Proof.
  intros (mx & ex & -> & Hx & Hex) (my & ey & -> & Hy & Hey).
  unfold Float32.min, Float32.ltb, SFltb, SFcompare.
  destruct (Z.compare_spec ey ex) as [Heq|Hlt|Hgt].
  - destruct (Pos.compare_cont Eq my mx).
    + exists mx, ex. split; [done|]. split; [done|]. lia.
    + exists my, ey. split; [done|]. split; [done|]. lia.
    + exists mx, ex. split; [done|]. split; [done|]. lia.
  - exists my, ey. split; [done|]. split; [done|]. lia.
  - exists mx, ex. split; [done|]. split; [done|]. lia.
Qed.

(** A normal float below [2^31] converts to [int]. *)
Lemma to_int_normal lo hi f :
  normal lo hi f -> hi <= 31 -> is_Some (Float32.to_int f).
Proof.
  intros (m & e & -> & Hm & He) Hhi. unfold Float32.to_int, Float32.truncate.
  assert (Hv : 0 <= match e with
                    | Zneg p => Z.shiftr (Zpos m) (Zpos p)
                    | _ => Z.shiftl (Zpos m) e
                    end < 2 ^ 31).
  { destruct e as [|p|p].
    - rewrite Z.shiftl_0_r. split; [lia|].
      apply Z.lt_trans with (2 ^ 24); [lia|]. by apply Z.pow_lt_mono_r.
    - rewrite Z.shiftl_mul_pow2 by lia. split; [lia|].
      apply Z.lt_le_trans with (2 ^ 24 * 2 ^ Zpos p).
      + apply Z.mul_lt_mono_pos_r; lia.
      + rewrite <- pow2_split by lia. apply Z.pow_le_mono_r; lia.
    - rewrite Z.shiftr_div_pow2 by lia. split; [apply Z.div_pos; lia|].
      apply Z.le_lt_trans with (Zpos m).
      + apply Z.div_le_upper_bound; [lia|].
        assert (1 <= 2 ^ Zpos p) by lia. nia.
      + apply Z.lt_trans with (2 ^ 24); [lia|]. by apply Z.pow_lt_mono_r. }
  rewrite bool_decide_eq_true_2; [by eexists|].
  unfold Cxx.INT_MIN, Cxx.INT_MAX. lia.
Qed.

(** The float of a window size: zero, or normal. *)
Lemma of_int_window n :
  0 <= n <= WINDOW_LIMIT ->
  Float32.of_int n = S754_zero false \/ normal 1 26 (Float32.of_int n).
Proof.
  unfold WINDOW_LIMIT.
  intros Hn. destruct (Z.eq_dec n 0) as [->|Hne]; [by left|]. right.
  assert (Hn' : 0 < n < 2 ^ 25).
  { split; [lia|]. apply Z.le_lt_trans with (2 ^ 24); [lia|].
    by apply Z.pow_lt_mono_r. }
  pose proof (Zdigits2_range n 25 ltac:(lia) Hn') as Hdig.
  destruct (of_int_normal n) as (m & e & H & Hm & He).
  { split; [lia|]. apply Z.lt_trans with (2 ^ 25); [lia|].
    by apply Z.pow_lt_mono_r. }
  exists m, e. split; [done|]. split; [done|]. lia.
Qed.

Lemma of_int_texture n :
  0 < n <= Cxx.INT_MAX ->
  exists d, 1 <= d <= 31 /\ normal d (d + 1) (Float32.of_int n).
Proof.
  unfold Cxx.INT_MAX. intros Hn.
  assert (Hn' : 0 < n < 2 ^ 31) by lia.
  exists (Zdigits2 n). split; [by apply Zdigits2_range|].
  by apply of_int_normal.
Qed.

(** The quotient window size / texture size: zero, or normal and below
    [2^(28 - d)] for a texture size of [d] digits. *)
Lemma scale_component ww tw d :
  0 <= ww <= WINDOW_LIMIT -> 1 <= d <= 31 ->
  normal d (d + 1) (Float32.of_int tw) ->
  let q := Float32.div (Float32.of_int ww) (Float32.of_int tw) in
  q = S754_zero false \/ normal (- d) (28 - d) q.
Proof.
  intros Hww Hd Htw q. subst q.
  destruct (of_int_window ww Hww) as [Hz|Hn].
  - left. rewrite Hz. destruct Htw as (m & e & -> & _). reflexivity.
  - right. pose proof (div_normal 1 26 d (d + 1) _ _ Hn Htw) as H.
    destruct H as (m & e & H & Hm & He); [lia..|].
    exists m, e. split; [done|]. split; [done|]. lia.
Qed.

Lemma min_zero_l g :
  g = S754_zero false \/ (exists lo hi, normal lo hi g) ->
  Float32.min (S754_zero false) g = S754_zero false.
Proof.
  intros [->|(lo & hi & m & e & -> & _)]; reflexivity.
Qed.

Lemma min_zero_r f :
  (exists lo hi, normal lo hi f) ->
  Float32.min f (S754_zero false) = S754_zero false.
Proof.
  intros (lo & hi & m & e & -> & _). reflexivity.
Qed.

Lemma to_int_mul_zero lo hi f :
  normal lo hi f ->
  Float32.to_int (Float32.mul f (S754_zero false)) = Some 0.
Proof. intros (m & e & -> & _). reflexivity. Qed.

(** In a window of at most [WINDOW_LIMIT] pixels each way, every texture
    whose sizes are positive [int]s has a destination rectangle: neither
    conversion to [int] is undefined. *)
Lemma render_rect_defined ww wh tw th :
  0 <= ww <= WINDOW_LIMIT -> 0 <= wh <= WINDOW_LIMIT ->
  0 < tw <= Cxx.INT_MAX -> 0 < th <= Cxx.INT_MAX ->
  is_Some (render_rect ww wh tw th).
Proof.
  intros Hww Hwh Htw Hth. unfold render_rect.
  destruct (of_int_texture tw Htw) as (dw & Hdw & Hnw).
  destruct (of_int_texture th Hth) as (dh & Hdh & Hnh).
  set (scale := Float32.min _ _).
  assert (Hs : scale = S754_zero false
               \/ normal (Z.min (- dw) (- dh))
                         (Z.min (28 - dw) (28 - dh)) scale).
  { subst scale.
    destruct (scale_component ww tw dw Hww Hdw Hnw) as [Hx|Hx];
      destruct (scale_component wh th dh Hwh Hdh Hnh) as [Hy|Hy].
    - left. rewrite Hx, Hy. reflexivity.
    - left. rewrite Hx. apply min_zero_l. right. by eexists _, _.
    - left. rewrite Hy. apply min_zero_r. by eexists _, _.
    - right. by apply min_normal. }
  assert (Hrw : is_Some (Float32.to_int
                           (Float32.mul (Float32.of_int tw) scale))).
  { destruct Hs as [->|Hs].
    - rewrite (to_int_mul_zero _ _ _ Hnw). by eexists.
    - eapply to_int_normal; [apply (mul_normal _ _ _ _ _ _ Hnw Hs); lia|].
      lia. }
  assert (Hrh : is_Some (Float32.to_int
                           (Float32.mul (Float32.of_int th) scale))).
  { destruct Hs as [->|Hs].
    - rewrite (to_int_mul_zero _ _ _ Hnh). by eexists.
    - eapply to_int_normal; [apply (mul_normal _ _ _ _ _ _ Hnh Hs); lia|].
      lia. }
  destruct Hrw as [rw ->], Hrh as [rh ->]. cbn [mbind option_bind].
  unfold Cxx.int_div. simpl. by eexists.
Qed.

Lemma sizes_ok_renderable v : sizes_ok v -> frames_renderable v = true.
Proof.
  intros (Hw & Hh & Hall). unfold frames_renderable.
  apply forallb_forall. intros t Hin.
  rewrite Forall_forall in Hall. apply list_elem_of_In in Hin.
  specialize (Hall t Hin). destruct t as [tex|]; [|done]. simpl in *.
  destruct Hall as [Htw Hth].
  by destruct (render_rect_defined _ _ _ _ Hw Hh Htw Hth) as [r ->].
Qed.

(** ** Drawing *)

(** The rectangle computed by [render_rect], spelled out. *)
Lemma render_rect_spec ww wh tw th r :
  0 <= ww <= Cxx.INT_MAX -> 0 <= wh <= Cxx.INT_MAX -> 0 < tw -> 0 < th ->
  render_rect ww wh tw th = Some r ->
  let scale :=
    Float32.min (Float32.div (Float32.of_int ww) (Float32.of_int tw))
                (Float32.div (Float32.of_int wh) (Float32.of_int th)) in
  Float32.to_int (Float32.mul (Float32.of_int tw) scale) = Some (w r)
  /\ Float32.to_int (Float32.mul (Float32.of_int th) scale) = Some (h r)
  /\ 0 <= w r <= Cxx.INT_MAX /\ 0 <= h r <= Cxx.INT_MAX
  /\ x r = Z.quot (ww - w r) 2 /\ y r = Z.quot (wh - h r) 2.
Proof.
  intros Hww Hwh Htw Hth H scale. unfold render_rect in H. cbv zeta in H.
  change (Float32.min _ _) with scale in H.
  assert (Hs : has_sign false scale).
  { apply min_sign; apply div_sign; apply of_int_sign; lia. }
  destruct (Float32.to_int (Float32.mul (Float32.of_int tw) scale))
    as [rw|] eqn:Hrw; [|done].
  destruct (Float32.to_int (Float32.mul (Float32.of_int th) scale))
    as [rh|] eqn:Hrh; [|done].
  cbn [mbind option_bind] in H.
  pose proof (to_int_in_range _ _ Hrw). pose proof (to_int_in_range _ _ Hrh).
  assert (0 <= rw).
  { eapply to_int_nonneg; [|exact Hrw]. apply mul_sign; [|done].
    apply of_int_sign. lia. }
  assert (0 <= rh).
  { eapply to_int_nonneg; [|exact Hrh]. apply mul_sign; [|done].
    apply of_int_sign. lia. }
  rewrite !int_div_nonzero in H by done. cbn [mbind option_bind] in H.
  rewrite !int_wrap_small in H by (unfold Cxx.INT_MIN, Cxx.INT_MAX in *; lia).
  inversion H. simpl. repeat split; lia.
Qed.

Lemma frames_renderable_lookup v k tex :
  frames_renderable v = true ->
  textures v !! k = Some (Some tex) ->
  is_Some (render_rect (windowWidth v) (windowHeight v)
                       (texture_w tex) (texture_h tex)).
Proof.
  unfold frames_renderable. intros Hall Hk.
  rewrite forallb_forall in Hall.
  specialize (Hall (Some tex)). simpl in Hall.
  destruct (render_rect _ _ _ _); [by eexists|].
  discriminate Hall. apply list_elem_of_In. by eapply list_elem_of_lookup_2.
Qed.

(** Drawing never changes the viewer, and it is defined on every index once
    the decoded frames are renderable. *)
Lemma renderCurrentFrame_viewer v v' out :
  renderCurrentFrame v = Some (v', out) -> v' = v.
Proof.
  unfold renderCurrentFrame. intros H.
  destruct (Cxx.size (textures v) <=? currentIndex v); [by inversion H|].
  destruct (Cxx.at_index _ _) as [[tex|]|]; simpl in H; [| by inversion H | done].
  destruct (render_rect _ _ _ _); simpl in H; [by inversion H | done].
Qed.

Lemma renderCurrentFrame_defined v i :
  frames_renderable v = true -> 0 <= i ->
  exists out, renderCurrentFrame (set_currentIndex i v)
              = Some (set_currentIndex i v, out).
Proof.
  intros Hall Hi. unfold renderCurrentFrame. simpl.
  destruct (Z.leb_spec (Cxx.size (textures v)) i) as [|Hlt]; [by eexists|].
  unfold Cxx.at_index. destruct (Z.ltb_spec i 0) as [|_]; [lia|].
  destruct (lookup_lt_is_Some_2 (textures v) (Z.to_nat i)) as [t Ht].
  { unfold Cxx.size in Hlt. lia. }
  rewrite Ht. simpl. destruct t as [tex|]; [|by eexists].
  destruct (frames_renderable_lookup v _ tex Hall Ht) as [r Hr].
  simpl in Hr. rewrite Hr. simpl. by eexists.
Qed.

Lemma renderCurrentFrame_sets_no_title v v' out title :
  renderCurrentFrame v = Some (v', out) ->
  SDL_SetWindowTitle title ∉ out.
Proof.
  unfold renderCurrentFrame. intros H.
  destruct (Cxx.size (textures v) <=? currentIndex v).
  { inversion H. apply not_elem_of_nil. }
  destruct (Cxx.at_index _ _) as [[tex|]|]; simpl in H;
    [| inversion H; apply not_elem_of_nil | done].
  destruct (render_rect _ _ _ _); simpl in H; [|done].
  inversion H. rewrite !not_elem_of_cons. repeat split; try done.
  apply not_elem_of_nil.
Qed.

(** Discharges [sizes_ok] on a concrete viewer. *)
Ltac sizes_ok_concrete :=
  unfold sizes_ok, WINDOW_LIMIT, Cxx.INT_MAX; simpl;
  repeat split; try lia;
  repeat (apply List.Forall_cons;
          [unfold texture_sized, Cxx.INT_MAX; simpl; first [done | lia]|]);
  try apply List.Forall_nil.

(** C3 (as the code has it).  For a decoded frame at the current index whose
    sizes are positive [int]s, and a window of at most [2^24] pixels each
    way, drawing clears the screen to opaque black, copies the frame to one
    rectangle and presents.  The rectangle is computed in single precision:
    the scale is the smaller of the two quotients window size / frame size,
    each rounded to a float; each side is the product of the frame size and
    the scale, rounded to a float and then cut toward zero; the rectangle is
    centred by integer division.  A 4000x3000 frame in an 800x800 window
    gets the rectangle 800x600 at (0, 100).  Because of the rounding a side
    can come out one pixel short of the exact product: a 2592x1944 frame in
    a 1280x720 window gets 959x720 at (160, 0).  Far beyond the limit on the
    window the conversion of a side to [int] can be undefined. *)
Theorem C3_draw_rectangle :
  (forall (v : TimelapseViewer) (tex : SDL_Texture),
     Cxx.at_index (textures v) (currentIndex v) = Some (Some tex) ->
     0 < texture_w tex <= Cxx.INT_MAX -> 0 < texture_h tex <= Cxx.INT_MAX ->
     0 <= windowWidth v <= WINDOW_LIMIT ->
     0 <= windowHeight v <= WINDOW_LIMIT ->
     let scale :=
       Float32.min
         (Float32.div (Float32.of_int (windowWidth v))
                      (Float32.of_int (texture_w tex)))
         (Float32.div (Float32.of_int (windowHeight v))
                      (Float32.of_int (texture_h tex))) in
     exists r : SDL_Rect,
       renderCurrentFrame v
       = Some (v, [SDL_SetRenderDrawColor 0 0 0 255; SDL_RenderClear;
                   SDL_RenderCopy tex r; SDL_RenderPresent])
       /\ Float32.to_int (Float32.mul (Float32.of_int (texture_w tex)) scale)
          = Some (w r)
       /\ Float32.to_int (Float32.mul (Float32.of_int (texture_h tex)) scale)
          = Some (h r)
       /\ 0 <= w r <= Cxx.INT_MAX /\ 0 <= h r <= Cxx.INT_MAX
       /\ x r = Z.quot (windowWidth v - w r) 2
       /\ y r = Z.quot (windowHeight v - h r) 2)
  /\ render_rect 800 800 4000 3000
     = Some {| x := 0; y := 100; w := 800; h := 600 |}
  /\ render_rect 1280 720 2592 1944
     = Some {| x := 160; y := 0; w := 959; h := 720 |}
  /\ render_rect Cxx.INT_MAX Cxx.INT_MAX 1 1 = None.
Proof.
  split; [|by vm_compute].
  intros v tex Htex Htw Hth Hww Hwh scale.
  destruct (render_rect_defined _ _ _ _ Hww Hwh Htw Hth) as [r Hr].
  exists r. split.
  - unfold renderCurrentFrame.
    pose proof (at_index_in_range _ _ _ Htex).
    destruct (Z.leb_spec (Cxx.size (textures v)) (currentIndex v)); [lia|].
    rewrite Htex. cbn [mbind option_bind]. by rewrite Hr.
  - apply render_rect_spec; try done;
      unfold WINDOW_LIMIT, Cxx.INT_MAX in *; lia.
Qed.

Lemma C3_draw_rectangle_witness :
  exists r : SDL_Rect,
    renderCurrentFrame (set_currentIndex 2 three_frames)
    = Some (set_currentIndex 2 three_frames,
            [SDL_SetRenderDrawColor 0 0 0 255; SDL_RenderClear;
             SDL_RenderCopy {| texture_w := 640; texture_h := 480 |} r;
             SDL_RenderPresent])
    /\ 0 <= w r <= Cxx.INT_MAX /\ 0 <= h r <= Cxx.INT_MAX
    /\ x r = Z.quot (1280 - w r) 2 /\ y r = Z.quot (720 - h r) 2.
Proof.
  destruct (proj1 C3_draw_rectangle (set_currentIndex 2 three_frames)
              {| texture_w := 640; texture_h := 480 |})
    as (r & Hr & _ & _ & Hw & Hh & Hx & Hy).
  - reflexivity.
  - unfold Cxx.INT_MAX. simpl. lia.
  - unfold Cxx.INT_MAX. simpl. lia.
  - unfold WINDOW_LIMIT. simpl. lia.
  - unfold WINDOW_LIMIT. simpl. lia.
  - by exists r.
Defined.

(** C3, as claimed (the sides being the exact products cut toward zero),
    fails: for a 2592x1944 frame in the default 1280x720 window the exact
    rectangle is 960x720, and the code draws 959x720. *)
Lemma C3_exact_size_is_missed :
  spec_draw_rect 1280 720 2592 1944 = {| x := 160; y := 0; w := 960; h := 720 |}
  /\ render_rect 1280 720 2592 1944
     = Some {| x := 160; y := 0; w := 959; h := 720 |}
  /\ render_rect 1280 720 2592 1944 <> Some (spec_draw_rect 1280 720 2592 1944).
Proof. by vm_compute. Qed.

(** C7.  When the frame at the current index is missing (the index is past
    the stored textures, or the stored texture is a null pointer), drawing
    is defined, makes no SDL call and leaves the viewer as it is. *)
Theorem C7_missing_frame_is_not_drawn (v : TimelapseViewer) :
  Cxx.size (textures v) <= currentIndex v
  \/ Cxx.at_index (textures v) (currentIndex v) = Some None ->
  renderCurrentFrame v = Some (v, []).
Proof.
  intros [Hout | Hnull]; unfold renderCurrentFrame.
  - destruct (Z.leb_spec (Cxx.size (textures v)) (currentIndex v)); [done|lia].
  - destruct (Cxx.size (textures v) <=? currentIndex v); [done|].
    by rewrite Hnull.
Qed.

Lemma C7_missing_frame_is_not_drawn_witness :
  renderCurrentFrame (set_currentIndex 1 three_frames)
  = Some (set_currentIndex 1 three_frames, [])
  /\ renderCurrentFrame (set_currentIndex 7 three_frames)
     = Some (set_currentIndex 7 three_frames, []).
Proof.
  split.
  - apply (C7_missing_frame_is_not_drawn (set_currentIndex 1 three_frames)).
    right. reflexivity.
  - apply (C7_missing_frame_is_not_drawn (set_currentIndex 7 three_frames)).
    left. unfold Cxx.size. simpl. lia.
Defined.

(** ** Manual stepping *)

Section PausedStepping.

Variable v : TimelapseViewer.
Hypothesis Hpaused : playing v = false.
Hypothesis Hseq : sequence_ok v.
Hypothesis Hdraw : frames_renderable v = true.

Lemma step_forward_paused i :
  0 <= i < frame_total v ->
  exists out,
    handle_event StepForward (set_currentIndex i v)
    = Some (set_currentIndex ((i + 1) mod frame_total v) v, out).
Proof using Hpaused Hseq Hdraw.
  intros Hi. unfold StepForward, handle_event.
  change (playing (set_currentIndex i v)) with (playing v).
  change (currentIndex (set_currentIndex i v)) with i.
  change (imagePaths (set_currentIndex i v)) with (imagePaths v).
  rewrite Hpaused. fold (frame_total v). rewrite next_index by done.
  cbn [negb mbind option_bind]. rewrite set_currentIndex_twice.
  apply renderCurrentFrame_defined; [done|].
  apply next_index_in_range, Hseq.
Qed.

Lemma step_backward_paused i :
  0 <= i < frame_total v ->
  exists out,
    handle_event StepBackward (set_currentIndex i v)
    = Some (set_currentIndex ((i + frame_total v - 1) mod frame_total v) v, out).
Proof using Hpaused Hseq Hdraw.
  intros Hi. unfold StepBackward, handle_event.
  change (playing (set_currentIndex i v)) with (playing v).
  change (currentIndex (set_currentIndex i v)) with i.
  change (imagePaths (set_currentIndex i v)) with (imagePaths v).
  rewrite Hpaused. fold (frame_total v). rewrite previous_index by done.
  cbn [negb mbind option_bind]. rewrite set_currentIndex_twice.
  apply renderCurrentFrame_defined; [done|].
  apply previous_index_in_range, Hseq.
Qed.

Lemma steps_forward_paused (k : nat) i :
  0 <= i < frame_total v ->
  exists out,
    poll_events (repeat StepForward k) (set_currentIndex i v)
    = Some (set_currentIndex ((i + Z.of_nat k) mod frame_total v) v, out).
Proof using Hpaused Hseq Hdraw.
  revert i. induction k as [|k IH]; intros i Hi.
  - exists []. simpl. by rewrite Z.add_0_r, Z.mod_small.
  - destruct (step_forward_paused i Hi) as [out1 H1].
    destruct (IH ((i + 1) mod frame_total v)) as [out2 H2].
    { apply next_index_in_range, Hseq. }
    exists (out1 ++ out2).
    change (repeat StepForward (S k))
      with (StepForward :: repeat StepForward k).
    cbn [poll_events]. rewrite H1. cbn [mbind option_bind].
    rewrite H2. cbn [mbind option_bind]. do 2 f_equal.
    rewrite Zplus_mod_idemp_l.
    by replace (i + 1 + Z.of_nat k) with (i + Z.of_nat (S k)) by lia.
Qed.

Lemma steps_backward_paused (k : nat) i :
  0 <= i < frame_total v ->
  exists out,
    poll_events (repeat StepBackward k) (set_currentIndex i v)
    = Some (set_currentIndex
              ((i + Z.of_nat k * (frame_total v - 1)) mod frame_total v) v,
            out).
Proof using Hpaused Hseq Hdraw.
  revert i. induction k as [|k IH]; intros i Hi.
  - exists []. simpl. by rewrite Z.add_0_r, Z.mod_small.
  - destruct (step_backward_paused i Hi) as [out1 H1].
    destruct (IH ((i + frame_total v - 1) mod frame_total v)) as [out2 H2].
    { apply previous_index_in_range, Hseq. }
    exists (out1 ++ out2).
    change (repeat StepBackward (S k))
      with (StepBackward :: repeat StepBackward k).
    cbn [poll_events]. rewrite H1. cbn [mbind option_bind].
    rewrite H2. cbn [mbind option_bind]. do 2 f_equal.
    replace ((i + frame_total v - 1) mod frame_total v)
      with ((i + (frame_total v - 1)) mod frame_total v) by (f_equal; lia).
    rewrite Zplus_mod_idemp_l.
    by replace (i + (frame_total v - 1) + Z.of_nat k * (frame_total v - 1))
      with (i + Z.of_nat (S k) * (frame_total v - 1)) by lia.
Qed.

End PausedStepping.

(** C4.  In the paused state, on a frame sequence of [N >= 1] frames whose
    sizes are in range, [N] presses of the right arrow bring the
    viewer back to the state it started from, whatever the start index in
    [0 .. N-1]; and so do [N] presses of the left arrow. *)
Theorem C4_step_wrap_around (v : TimelapseViewer) :
  playing v = false ->
  sequence_ok v ->
  index_in_range v ->
  sizes_ok v ->
  (exists out,
     poll_events (repeat StepForward (length (imagePaths v))) v = Some (v, out))
  /\ (exists out,
     poll_events (repeat StepBackward (length (imagePaths v))) v = Some (v, out)).
Proof.
  intros Hp Hseq Hi Hsz.
  pose proof (sizes_ok_renderable v Hsz) as Hdraw. split.
  - destruct (steps_forward_paused v Hp Hseq Hdraw (length (imagePaths v))
                (currentIndex v) Hi) as [out H].
    exists out. rewrite set_currentIndex_same in H. rewrite H.
    fold (Cxx.size (imagePaths v)). fold (frame_total v).
    by rewrite full_turn_forward, set_currentIndex_same.
  - destruct (steps_backward_paused v Hp Hseq Hdraw (length (imagePaths v))
                (currentIndex v) Hi) as [out H].
    exists out. rewrite set_currentIndex_same in H. rewrite H.
    fold (Cxx.size (imagePaths v)). fold (frame_total v).
    by rewrite full_turn_backward, set_currentIndex_same.
Qed.

Lemma C4_step_wrap_around_witness :
  (exists out,
     poll_events [StepForward; StepForward; StepForward]
       (set_currentIndex 1 three_frames)
     = Some (set_currentIndex 1 three_frames, out))
  /\ (exists out,
     poll_events [StepBackward; StepBackward; StepBackward]
       (set_currentIndex 1 three_frames)
     = Some (set_currentIndex 1 three_frames, out)).
Proof.
  apply (C4_step_wrap_around (set_currentIndex 1 three_frames)).
  - reflexivity.
  - unfold sequence_ok, frame_total, Cxx.VECTOR_MAX_SIZE, Cxx.size. simpl. lia.
  - unfold index_in_range, frame_total, Cxx.size. simpl. lia.
  - sizes_ok_concrete.
Defined.

(** C5.  While playing, a press of the right or of the left arrow changes
    nothing: the viewer (index and [playing] flag included) is the same and
    nothing is drawn. *)
Theorem C5_steps_ignored_while_playing (v : TimelapseViewer) (e : SDL_Event) :
  playing v = true ->
  e = StepForward \/ e = StepBackward ->
  handle_event e v = Some (v, [])
  /\ forall v' out, handle_event e v = Some (v', out) ->
       currentIndex v' = currentIndex v /\ playing v' = playing v.
Proof.
  intros Hp He.
  assert (H : handle_event e v = Some (v, [])).
  { destruct He as [-> | ->]; simpl; by rewrite Hp. }
  split; [done|]. intros v' out H'. rewrite H in H'. by inversion H'.
Qed.

Lemma C5_steps_ignored_while_playing_witness :
  handle_event StepForward (set_playing true three_frames)
  = Some (set_playing true three_frames, []).
Proof.
  apply (C5_steps_ignored_while_playing (set_playing true three_frames)
           StepForward); [reflexivity | by left].
Defined.

(** ** The clock-driven update *)

Lemma update_frame_spec (currentTime : Z) (s : run_state) :
  targetFPS (viewer s) <> 0 ->
  sequence_ok (viewer s) ->
  index_in_range (viewer s) ->
  frames_renderable (viewer s) = true ->
  exists drawn,
    update_frame currentTime s
    = Some (updated currentTime s,
            (if frame_due currentTime s then drawn else [])
            ++ (if window_closes currentTime s
                then [SDL_SetWindowTitle (reported_title currentTime s)]
                else []))
    /\ (frame_due currentTime s = true ->
        renderCurrentFrame (viewer (updated currentTime s))
        = Some (viewer (updated currentTime s), drawn)).
Proof.
  intros HF Hseq Hi Hdraw.
  unfold update_frame, updated, reported_title, frame_due, window_closes,
    msPerFrame.
  cbv zeta. rewrite (int_div_nonzero 1000) by done.
  cbn [mbind option_bind].
  destruct (Z.quot 1000 (targetFPS (viewer s))
            <=? milliseconds (currentTime - lastFrameTime s)) eqn:Hdue.
  - fold (frame_total (viewer s)). rewrite next_index by done.
    cbn [mbind option_bind].
    destruct (renderCurrentFrame_defined (viewer s)
                ((currentIndex (viewer s) + 1) mod frame_total (viewer s)))
      as [drawn Hr]; [done | by apply next_index_in_range, Hseq |].
    exists drawn. rewrite Hr. cbn [mbind option_bind fpsTimer frameCount].
    destruct (Z.leb_spec 1 (seconds (currentTime - fpsTimer s))) as [Hd|Hd].
    + rewrite int_div_nonzero by lia.
      cbn [mbind option_bind]. split; [done|]. intros _. exact Hr.
    + split; [by rewrite app_nil_r|]. intros _. exact Hr.
  - exists []. cbn [mbind option_bind].
    destruct (Z.leb_spec 1 (seconds (currentTime - fpsTimer s))) as [Hd|Hd].
    + rewrite int_div_nonzero by lia.
      cbn [mbind option_bind]. split; [|done]. by destruct s.
    + split; [|done]. by destruct s.
Qed.

Lemma loop_iteration_no_event (currentTime : Z) (s : run_state) :
  playing (viewer s) = true ->
  loop_iteration [] currentTime s = update_frame currentTime s.
Proof.
  intros Hp. unfold loop_iteration. cbn [poll_events mbind option_bind].
  rewrite Hp. destruct s as [v l c t]. cbn [viewer lastFrameTime frameCount fpsTimer].
  destruct (update_frame _ _) as [[s2 out2]|]; by cbn [mbind option_bind].
Qed.

(** C2.  A turn of the loop in the playing state, with no input event, at
    clock reading [currentTime]: when the milliseconds elapsed since the last
    frame reach [1000 / targetFPS] (integer division), the index becomes
    [(index + 1) mod N] and the time of the last frame becomes [currentTime]
    itself; otherwise both stay.  At 240 frames per second the interval is
    4 ms, and with the clock read at 0, 3, 5 and 9 ms after the loop is
    entered, the frame changes at 5 and at 9 only: two frames in all. *)
Theorem C2_frame_pacing :
  (forall (s : run_state) (currentTime : Z),
     playing (viewer s) = true ->
     targetFPS (viewer s) <> 0 ->
     sequence_ok (viewer s) ->
     index_in_range (viewer s) ->
     sizes_ok (viewer s) ->
     let v := viewer s in
     let elapsed := milliseconds (currentTime - lastFrameTime s) in
     exists s' out,
       loop_iteration [] currentTime s = Some (s', out)
       /\ (Z.quot 1000 (targetFPS v) <= elapsed ->
           currentIndex (viewer s') = (currentIndex v + 1) mod frame_total v
           /\ lastFrameTime s' = currentTime)
       /\ (elapsed < Z.quot 1000 (targetFPS v) ->
           currentIndex (viewer s') = currentIndex v
           /\ lastFrameTime s' = lastFrameTime s))
  /\ (let s0 := run_entry 0 0 (set_playing true three_frames) in
      let turns := [([], ms 0); ([], ms 3); ([], ms 5); ([], ms 9)] in
      targetFPS (viewer s0) = 240
      /\ Cxx.int_div 1000 (targetFPS (viewer s0)) = Some 4
      /\ observe (run_loop (take 1 turns) s0) = Some (0, ms 0, 0)
      /\ observe (run_loop (take 2 turns) s0) = Some (0, ms 0, 0)
      /\ observe (run_loop (take 3 turns) s0) = Some (1, ms 5, 1)
      /\ observe (run_loop (take 4 turns) s0) = Some (2, ms 9, 2)).
Proof.
  split.
  - intros s currentTime Hp HF Hseq Hi Hsz v elapsed.
    pose proof (sizes_ok_renderable _ Hsz) as Hdraw.
    destruct (update_frame_spec currentTime s HF Hseq Hi Hdraw)
      as [drawn [Hu _]].
    rewrite loop_iteration_no_event by done.
    eexists _, _. split; [exact Hu|].
    unfold updated, frame_due, msPerFrame. fold v. fold elapsed.
    split; intros Hcmp.
    + destruct (Z.leb_spec (Z.quot 1000 (targetFPS v)) elapsed); [done|lia].
    + destruct (Z.leb_spec (Z.quot 1000 (targetFPS v)) elapsed); [lia|done].
  - vm_compute. repeat split.
Qed.

Lemma C2_frame_pacing_witness :
  let s := {| viewer := set_playing true three_frames;
              lastFrameTime := ms 5; frameCount := 1; fpsTimer := 0 |} in
  exists s' out,
    loop_iteration [] (ms 9) s = Some (s', out)
    /\ currentIndex (viewer s') = 1
    /\ lastFrameTime s' = ms 9.
Proof.
  intros s.
  destruct (proj1 C2_frame_pacing s (ms 9)) as [s' [out [H [Hdue _]]]].
  - reflexivity.
  - vm_compute. discriminate.
  - unfold sequence_ok, frame_total, Cxx.VECTOR_MAX_SIZE, Cxx.size. simpl. lia.
  - unfold index_in_range, frame_total, Cxx.size. simpl. lia.
  - sizes_ok_concrete.
  - exists s', out. split; [exact H|]. apply Hdue. vm_compute. discriminate.
Defined.

(** ** The measured frame rate *)

(** C6 (as the code has it).  A turn of the loop in the playing state closes
    the measurement window exactly when at least one whole second has passed
    since the window was opened.  It then sets one window title, which shows
    the frames counted in the window divided by the whole seconds the window
    lasted (integer division, the divisor being at least 1), zeroes the
    counter and opens the next window at the current time.  When less than
    one whole second has passed (zero elapsed time included) no title is set
    at all, nothing is divided, and counter and window stay.  A window that
    closes after exactly one second with 30 frames counted shows 30. *)
Theorem C6_measured_fps :
  (forall (s : run_state) (currentTime : Z),
     targetFPS (viewer s) <> 0 ->
     sequence_ok (viewer s) ->
     index_in_range (viewer s) ->
     sizes_ok (viewer s) ->
     let duration := seconds (currentTime - fpsTimer s) in
     let counted :=
       if frame_due currentTime s then Cxx.int_wrap (frameCount s + 1)
       else frameCount s in
     exists s' out,
       update_frame currentTime s = Some (s', out)
       /\ (1 <= duration ->
           (exists drawn,
              out = drawn ++ [SDL_SetWindowTitle
                                (window_title (Z.quot counted duration))]
              /\ forall title, SDL_SetWindowTitle title ∉ drawn)
           /\ frameCount s' = 0 /\ fpsTimer s' = currentTime)
       /\ (duration < 1 ->
           (forall title, SDL_SetWindowTitle title ∉ out)
           /\ frameCount s' = counted /\ fpsTimer s' = fpsTimer s))
  /\ (let s := {| viewer := set_playing true three_frames;
                 lastFrameTime := 999 * 1000000; frameCount := 30;
                 fpsTimer := 0 |} in
      update_frame 1000000000 s
      = Some ({| viewer := set_playing true three_frames;
                 lastFrameTime := 999 * 1000000; frameCount := 0;
                 fpsTimer := 1000000000 |},
              [SDL_SetWindowTitle "High-Speed Timelapse Viewer - 30 FPS"])).
Proof.
  split; [|by vm_compute].
  intros s currentTime HF Hseq Hi Hsz duration counted.
  pose proof (sizes_ok_renderable _ Hsz) as Hdraw.
  destruct (update_frame_spec currentTime s HF Hseq Hi Hdraw)
    as [drawn [Hu Hr]].
  eexists _, _. split; [exact Hu|].
  assert (Hdrawn : forall title,
            SDL_SetWindowTitle title
            ∉ (if frame_due currentTime s then drawn else [])).
  { intros title. destruct (frame_due currentTime s).
    - eapply renderCurrentFrame_sets_no_title. by apply Hr.
    - apply not_elem_of_nil. }
  unfold updated, window_closes, reported_title. fold duration. fold counted.
  cbn [frameCount fpsTimer].
  split; intros Hd.
  - destruct (Z.leb_spec 1 duration); [|lia].
    split; [|done]. eexists. split; [reflexivity|exact Hdrawn].
  - destruct (Z.leb_spec 1 duration); [lia|].
    split; [|done]. intros title. rewrite app_nil_r. apply Hdrawn.
Qed.

Lemma C6_measured_fps_witness :
  exists s' out,
    update_frame 2500000000
      {| viewer := set_playing true three_frames;
         lastFrameTime := 2499000000; frameCount := 30; fpsTimer := 0 |}
    = Some (s', out)
    /\ (exists drawn,
          out = drawn ++ [SDL_SetWindowTitle (window_title 15)]
          /\ forall title, SDL_SetWindowTitle title ∉ drawn)
    /\ frameCount s' = 0 /\ fpsTimer s' = 2500000000.
Proof.
  destruct (proj1 C6_measured_fps
              {| viewer := set_playing true three_frames;
                 lastFrameTime := 2499000000; frameCount := 30; fpsTimer := 0 |}
              2500000000) as [s' [out [H [Hclose _]]]].
  - vm_compute. discriminate.
  - unfold sequence_ok, frame_total, Cxx.VECTOR_MAX_SIZE, Cxx.size. simpl. lia.
  - unfold index_in_range, frame_total, Cxx.size. simpl. lia.
  - sizes_ok_concrete.
  - exists s', out. split; [exact H|]. apply Hclose. vm_compute. discriminate.
Defined.

(** C6, as claimed, fails: a window with zero elapsed time reports nothing.
    Here the clock has not moved since the window was opened: the update is
    defined, leaves the state as it is and makes no call, so no title (and in
    particular no title showing 0) is set. *)
Lemma C6_zero_window_reports_nothing :
  let s := {| viewer := set_playing true three_frames;
              lastFrameTime := 7000000000; frameCount := 0;
              fpsTimer := 7000000000 |} in
  update_frame 7000000000 s = Some (s, [])
  /\ update_frame 7000000000 s
     <> Some (s, [SDL_SetWindowTitle (window_title 0)]).
Proof. by vm_compute. Qed.

(** ** Loading *)

Lemma sort_insert_Permutation s l : sort_insert s l ≡ₚ s :: l.
Proof.
  induction l as [|t l IH]; simpl; [done|].
  destruct (String.leb s t); [done|].
  rewrite IH. apply Permutation_swap.
Qed.

Lemma sort_Permutation l : sort l ≡ₚ l.
Proof.
  induction l as [|s l IH]; simpl; [done|].
  by rewrite sort_insert_Permutation, IH.
Qed.

Lemma sort_length l : length (sort l) = length l.
Proof. by rewrite sort_Permutation. Qed.

Lemma sort_nil_inv l : sort l = [] -> l = [].
Proof.
  intros H. apply length_zero_iff_nil. rewrite <- sort_length, H. done.
Qed.

Lemma scan_directory_spec directoryPath entries paths :
  scan_directory directoryPath entries paths
  = paths ++ map (fun entry => Path.append directoryPath (fst entry))
                 (List.filter (is_candidate directoryPath) entries).
Proof.
  unfold scan_directory. revert paths.
  induction entries as [|entry rest IH]; intros paths; simpl.
  - by rewrite app_nil_r.
  - rewrite IH. unfold scan_entry, is_candidate.
    destruct (is_regular_file (snd entry)); simpl; [|done].
    destruct (is_image_extension _); simpl; [|done].
    by rewrite <- app_assoc.
Qed.

Section LoadingFacts.

Variable fs_status : string -> option fs_node.
Variable IMG_Load : string -> option SDL_Surface.
Variable SDL_CreateTextureFromSurface : SDL_Surface -> option SDL_Texture.

Local Abbreviation decode_ := (decode IMG_Load SDL_CreateTextureFromSurface).
Local Abbreviation decode_warning_ :=
  (decode_warning IMG_Load SDL_CreateTextureFromSurface).
Local Abbreviation decodes_ := (decodes IMG_Load SDL_CreateTextureFromSurface).
Local Abbreviation sources_ := (sources fs_status).

Lemma load_image_spec i path texs err :
  texs !! i = Some None ->
  load_image IMG_Load SDL_CreateTextureFromSurface i path (texs, err)
  = (<[i := decode_ path]> texs, err ++ decode_warning_ path).
Proof using Type.
  intros Hi. unfold load_image, decode, decode_warning.
  destruct (IMG_Load path) as [surface|]; simpl.
  - destruct (SDL_CreateTextureFromSurface surface); [|done].
    by rewrite app_nil_r.
  - by rewrite list_insert_id.
Qed.

Lemma load_images_spec paths : forall i texs err,
  length texs = (i + length paths)%nat ->
  (forall k, (i <= k < length texs)%nat -> texs !! k = Some None) ->
  load_images IMG_Load SDL_CreateTextureFromSurface i paths (texs, err)
  = (take i texs ++ map decode_ paths,
     err ++ concat (map decode_warning_ paths)).
Proof using Type.
  induction paths as [|path rest IH]; intros i texs err Hlen Hnull.
  - simpl in *. rewrite !app_nil_r. by rewrite take_ge by lia.
  - cbn [load_images]. simpl in Hlen.
    rewrite load_image_spec by (apply Hnull; lia).
    rewrite IH.
    + f_equal; [|by rewrite <- app_assoc].
      rewrite (take_S_r _ _ (decode_ path)).
      * rewrite take_insert_ge by lia. by rewrite <- app_assoc.
      * apply list_lookup_insert_eq. lia.
    + rewrite length_insert. lia.
    + intros k Hk. rewrite length_insert in Hk.
      rewrite list_lookup_insert_ne by lia. apply Hnull. lia.
Qed.

(** The outcome of loading into a viewer whose vectors are still empty. *)
Lemma loadImagesFromDirectory_fresh directoryPath v :
  imagePaths v = [] -> textures v = [] ->
  loadImagesFromDirectory fs_status IMG_Load SDL_CreateTextureFromSurface
    directoryPath v
  = match fs_status directoryPath with
    | Some (Directory entries) =>
        match sources_ directoryPath with
        | [] => (false, v, [No_images_found_in_directory directoryPath])
        | _ :: _ =>
            (true,
             set_textures (map decode_ (sources_ directoryPath))
               (set_imagePaths (sources_ directoryPath) v),
             concat (map decode_warning_ (sources_ directoryPath)))
        end
    | _ => (false, v, [Invalid_directory_path directoryPath])
    end.
Proof using Type.
  intros Hp Ht. unfold loadImagesFromDirectory, sources.
  destruct (fs_status directoryPath) as [[|entries|]|]; try done.
  rewrite Hp.
  destruct (scan_directory directoryPath entries []) as [|p found] eqn:Hscan.
  { simpl. destruct v; simpl in *; by subst. }
  destruct (sort (p :: found)) as [|q sorted] eqn:Hsort.
  { by apply sort_nil_inv in Hsort. }
  cbn [textures set_imagePaths]. rewrite Ht.
  rewrite load_images_spec.
  - done.
  - by rewrite length_resize.
  - intros k Hk. rewrite length_resize in Hk.
    rewrite lookup_resize_new; [done | simpl; lia | lia].
Qed.

Lemma decode_warning_length l :
  length (concat (map decode_warning_ l))
  = length (List.filter (fun p => negb (decodes_ p)) l).
Proof using Type.
  induction l as [|p l IH]; [done|]. cbn [map concat List.filter].
  rewrite length_app, IH. unfold decodes at 2. unfold decode, decode_warning.
  destruct (IMG_Load p) as [surface|]; cbn [mbind option_bind]; [|done].
  by destruct (SDL_CreateTextureFromSurface surface).
Qed.

Lemma decoded_frames_length l :
  length (List.filter (fun t : option SDL_Texture =>
                         match t with Some _ => true | None => false end)
                      (map decode_ l))
  = length (List.filter decodes_ l).
Proof using Type.
  induction l as [|p l IH]; [done|]. cbn [map List.filter].
  unfold decodes at 1. destruct (decode_ p); simpl; by rewrite IH.
Qed.

End LoadingFacts.

(** C1 (as the code has it).  Loading into a fresh viewer fails exactly when
    there is no source at all (the path is not a directory, or the scan
    finds no image file); whether sources decode plays no part in it.  On
    success every source keeps its slot: the texture sequence is as long as
    the source list (so never empty), the slot of a source that fails to
    decode holds a null pointer, and exactly one warning is written for each
    such source. *)
Theorem C1_load_outcome
    (fs_status : string -> option fs_node)
    (IMG_Load : string -> option SDL_Surface)
    (SDL_CreateTextureFromSurface : SDL_Surface -> option SDL_Texture)
    (directoryPath : string) (v : TimelapseViewer) :
  imagePaths v = [] -> textures v = [] ->
  let srcs := sources fs_status directoryPath in
  let decode := decode IMG_Load SDL_CreateTextureFromSurface in
  let decodes := decodes IMG_Load SDL_CreateTextureFromSurface in
  let '(ok, v', err) :=
    loadImagesFromDirectory fs_status IMG_Load SDL_CreateTextureFromSurface
      directoryPath v in
  (ok = false <-> srcs = [])
  /\ (ok = true ->
      imagePaths v' = srcs
      /\ textures v' = map decode srcs
      /\ length (textures v') = length srcs
      /\ (0 < length (textures v'))%nat
      /\ length err = length (List.filter (fun p => negb (decodes p)) srcs)
      /\ length (List.filter (fun t : option SDL_Texture =>
                                match t with Some _ => true | None => false end)
                             (textures v'))
         = length (List.filter decodes srcs)).
Proof.
  intros Hp Ht srcs dec decs.
  rewrite loadImagesFromDirectory_fresh by done.
  subst srcs. unfold sources.
  destruct (fs_status directoryPath) as [[|entries|]|];
    try (split; [done | discriminate]).
  destruct (sort (scan_directory directoryPath entries [])) as [|q sorted];
    [split; [done | discriminate]|].
  split; [split; discriminate|]. intros _.
  cbn [imagePaths textures set_textures set_imagePaths].
  repeat split.
  - by rewrite length_map.
  - rewrite length_map. simpl. lia.
  - apply decode_warning_length.
  - apply decoded_frames_length.
Qed.

Lemma C1_load_outcome_witness :
  let '(ok, v', err) :=
    loadImagesFromDirectory shots_fs
      (decoder_failing_on ["shots/0002.JPG"; "shots/0004.bmp"])
      texture_of_surface "shots" TimelapseViewer_default in
  ok = true /\ length (imagePaths v') = 5%nat
  /\ length (textures v') = 5%nat /\ length err = 2%nat
  /\ length (List.filter (fun t : option SDL_Texture =>
                            match t with Some _ => true | None => false end)
                         (textures v')) = 3%nat.
Proof.
  pose proof (C1_load_outcome shots_fs
                (decoder_failing_on ["shots/0002.JPG"; "shots/0004.bmp"])
                texture_of_surface "shots" TimelapseViewer_default
                eq_refl eq_refl) as H.
  cbv zeta in H.
  destruct (loadImagesFromDirectory _ _ _ _ _) as [[ok v'] err].
  destruct H as [Hfail Hok].
  assert (ok = true) as ->.
  { destruct ok; [done|]. by pose proof (proj1 Hfail eq_refl). }
  destruct (Hok eq_refl) as (Hpaths & Htex & Hlen & _ & Herr & Hgood).
  rewrite Hpaths, Hlen, Herr, Hgood. by vm_compute.
Defined.

(** C1, as claimed, fails on two counts.  When all five sources fail to
    decode, loading still succeeds, with five null slots; and when two of
    five fail, the sequence has five slots, not three. *)
Lemma C1_decode_failures_never_fail_the_load :
  (let '(ok, v', err) :=
     loadImagesFromDirectory shots_fs decoder_failing_always
       texture_of_surface "shots" TimelapseViewer_default in
   ok = true /\ textures v' = [None; None; None; None; None]
   /\ length err = 5%nat)
  /\ (let '(ok, v', err) :=
        loadImagesFromDirectory shots_fs
          (decoder_failing_on ["shots/0002.JPG"; "shots/0004.bmp"])
          texture_of_surface "shots" TimelapseViewer_default in
      ok = true /\ length (textures v') = 5%nat
      /\ length (textures v') <> 3%nat).
Proof. by vm_compute. Qed.

(** ** The index invariant *)

Lemma same_setup_refl v : same_setup v v.
Proof. by repeat split. Qed.

Lemma same_setup_trans v1 v2 v3 :
  same_setup v1 v2 -> same_setup v2 v3 -> same_setup v1 v3.
Proof.
  unfold same_setup. intros (?&?&?&?&?&?&?&?) (?&?&?&?&?&?&?&?).
  repeat split; congruence.
Qed.

Lemma sizes_ok_same_setup v v' : sizes_ok v -> same_setup v v' -> sizes_ok v'.
Proof.
  unfold sizes_ok, same_setup. intros Hs (_&_&_&Ht&_&_&Hw&Hh).
  by rewrite Ht, Hw, Hh.
Qed.

Lemma ready_same_setup v v' :
  ready v -> same_setup v v' -> index_in_range v' -> ready v'.
Proof.
  intros (Hseq & _ & HF & Hsz) Hs Hi'.
  pose proof Hs as (_ & _ & Hp & _ & HF' & _).
  split; [|split; [done|split]].
  - unfold sequence_ok, frame_total in *. by rewrite Hp.
  - by rewrite HF'.
  - by eapply sizes_ok_same_setup.
Qed.

Lemma handle_event_ready (e : SDL_Event) (v : TimelapseViewer) :
  ready v ->
  exists v' out,
    handle_event e v = Some (v', out) /\ same_setup v v' /\ index_in_range v'.
Proof.
  intros (Hseq & Hi & HF & Hsz).
  pose proof (sizes_ok_renderable v Hsz) as Hdraw.
  destruct e as [|[| | | |]|];
    try (eexists _, _; split; [reflexivity|];
         split; [by repeat split | exact Hi]).
  - destruct (playing v) eqn:Hp.
    { exists v, []. simpl. rewrite Hp.
      split; [done|]. split; [apply same_setup_refl | exact Hi]. }
    destruct (step_forward_paused v Hp Hseq Hdraw (currentIndex v) Hi)
      as [out H].
    rewrite set_currentIndex_same in H. eexists _, _. split; [exact H|].
    split; [by repeat split|]. by apply next_index_in_range, Hseq.
  - destruct (playing v) eqn:Hp.
    { exists v, []. simpl. rewrite Hp.
      split; [done|]. split; [apply same_setup_refl | exact Hi]. }
    destruct (step_backward_paused v Hp Hseq Hdraw (currentIndex v) Hi)
      as [out H].
    rewrite set_currentIndex_same in H. eexists _, _. split; [exact H|].
    split; [by repeat split|]. by apply previous_index_in_range, Hseq.
Qed.

Lemma update_frame_ready (currentTime : Z) (s : run_state) :
  ready (viewer s) ->
  exists s' out,
    update_frame currentTime s = Some (s', out)
    /\ same_setup (viewer s) (viewer s') /\ index_in_range (viewer s').
Proof.
  intros (Hseq & Hi & HF & Hsz).
  pose proof (sizes_ok_renderable _ Hsz) as Hdraw.
  destruct (update_frame_spec currentTime s HF Hseq Hi Hdraw)
    as [drawn [Hu _]].
  eexists _, _. split; [exact Hu|]. unfold updated. cbn [viewer].
  destruct (frame_due currentTime s).
  - split; [by repeat split|]. by apply next_index_in_range, Hseq.
  - split; [apply same_setup_refl | done].
Qed.

Lemma poll_events_ready (events : list SDL_Event) (v : TimelapseViewer) :
  ready v ->
  exists v' out,
    poll_events events v = Some (v', out) /\ same_setup v v'
    /\ index_in_range v'.
Proof.
  revert v. induction events as [|e rest IH]; intros v Hv.
  - exists v, []. split; [done|]. split; [apply same_setup_refl | apply Hv].
  - destruct (handle_event_ready e v Hv) as (v1 & out1 & H1 & Hs1 & Hi1).
    destruct (IH v1 (ready_same_setup _ _ Hv Hs1 Hi1))
      as (v2 & out2 & H2 & Hs2 & Hi2).
    exists v2, (out1 ++ out2). cbn [poll_events]. rewrite H1.
    cbn [mbind option_bind]. rewrite H2. cbn [mbind option_bind].
    split; [done|]. split; [by eapply same_setup_trans | done].
Qed.

Lemma loop_iteration_ready events (currentTime : Z) (s : run_state) :
  ready (viewer s) ->
  exists s' out,
    loop_iteration events currentTime s = Some (s', out)
    /\ same_setup (viewer s) (viewer s') /\ index_in_range (viewer s').
Proof.
  intros Hv. unfold loop_iteration.
  destruct (poll_events_ready events (viewer s) Hv)
    as (v1 & out1 & H1 & Hs1 & Hi1).
  rewrite H1. cbn [mbind option_bind].
  destruct (playing v1); [|by eexists _, _].
  set (s1 := {| viewer := v1; lastFrameTime := lastFrameTime s;
                frameCount := frameCount s; fpsTimer := fpsTimer s |}).
  destruct (update_frame_ready currentTime s1)
    as (s2 & out2 & H2 & Hs2 & Hi2).
  { by apply (ready_same_setup (viewer s)). }
  rewrite H2. cbn [mbind option_bind]. eexists _, _. split; [done|].
  split; [by eapply same_setup_trans | done].
Qed.

Lemma run_loop_ready turns (s : run_state) :
  ready (viewer s) ->
  exists s' out,
    run_loop turns s = Some (s', out)
    /\ same_setup (viewer s) (viewer s') /\ index_in_range (viewer s').
Proof.
  revert s. induction turns as [|[events currentTime] rest IH]; intros s Hv.
  - exists s, []. split; [done|]. split; [apply same_setup_refl | apply Hv].
  - cbn [run_loop]. destruct (running (viewer s)).
    2:{ exists s, []. split; [done|].
        split; [apply same_setup_refl | apply Hv]. }
    destruct (loop_iteration_ready events currentTime s Hv)
      as (s1 & out1 & H1 & Hs1 & Hi1).
    destruct (IH s1 (ready_same_setup _ _ Hv Hs1 Hi1))
      as (s2 & out2 & H2 & Hs2 & Hi2).
    rewrite H1. cbn [mbind option_bind]. rewrite H2.
    cbn [mbind option_bind]. eexists _, _. split; [done|].
    split; [by eapply same_setup_trans | done].
Qed.

(** A successful [initialize] of a fresh viewer leaves the index and the
    [playing] flag as the default member initialisers set them, stores the
    requested frame rate and yields at least one source. *)
Lemma initialize_success fs_status IMG_Load SDL_CreateTextureFromSurface
    env directoryPath fullscreenMode fps v v' err :
  imagePaths v = [] -> textures v = [] ->
  initialize fs_status IMG_Load SDL_CreateTextureFromSurface env
    directoryPath fullscreenMode fps v = (true, v', err) ->
  currentIndex v' = currentIndex v /\ playing v' = playing v
  /\ running v' = running v /\ targetFPS v' = fps /\ imagePaths v' <> [].
Proof.
  intros Hp Ht. unfold initialize.
  destruct (SDL_Init env <? 0); [discriminate|].
  destruct (Z.land _ _ =? 0); [discriminate|].
  cbn [window renderer]. destruct (SDL_CreateWindow env); [|discriminate].
  destruct (SDL_CreateRenderer env); [|discriminate]. cbn [negb].
  rewrite loadImagesFromDirectory_fresh by done.
  destruct (fs_status directoryPath) as [[|entries|]|]; try discriminate.
  destruct (sources fs_status directoryPath) as [|q sorted]; [discriminate|].
  intros H. inversion H. by subst.
Qed.

(** The index after one event, against the index before it. *)
Lemma handle_event_index (e : SDL_Event) (v v' : TimelapseViewer) out :
  sequence_ok v -> index_in_range v ->
  handle_event e v = Some (v', out) ->
  currentIndex v' = currentIndex v
  \/ currentIndex v' = (currentIndex v + 1) mod frame_total v
  \/ currentIndex v' = (currentIndex v + frame_total v - 1) mod frame_total v.
Proof.
  intros Hseq Hi.
  destruct e as [|[| | | |]|]; simpl;
    try (intros H; inversion H; by left).
  - destruct (playing v); simpl; [intros H; inversion H; by left|].
    fold (frame_total v). rewrite next_index by done.
    cbn [mbind option_bind]. intros H.
    apply renderCurrentFrame_viewer in H. subst v'. right. by left.
  - destruct (playing v); simpl; [intros H; inversion H; by left|].
    fold (frame_total v). rewrite previous_index by done.
    cbn [mbind option_bind]. intros H.
    apply renderCurrentFrame_viewer in H. subst v'. right. by right.
Qed.

(** C8.  A successfully initialised viewer starts paused at index 0, inside
    [0 .. N-1] (there is at least one frame).  From a state with the index in
    that range, every event (space, right arrow, left arrow, escape, quit,
    any other), the clock-driven update, and any number of turns of the loop
    are defined and leave the index in [0 .. N-1], with [N] unchanged; an
    event either keeps the index or replaces it by [(index + 1) mod N] or
    [(index + N - 1) mod N]. *)
Theorem C8_index_stays_in_range :
  (forall fs_status IMG_Load SDL_CreateTextureFromSurface env directoryPath
          fullscreenMode fps v' err,
     initialize fs_status IMG_Load SDL_CreateTextureFromSurface env
       directoryPath fullscreenMode fps TimelapseViewer_default
     = (true, v', err) ->
     playing v' = false /\ currentIndex v' = 0 /\ 0 < frame_total v'
     /\ index_in_range v')
  /\ (forall (v : TimelapseViewer) (e : SDL_Event),
        ready v ->
        exists v' out,
          handle_event e v = Some (v', out)
          /\ frame_total v' = frame_total v /\ index_in_range v'
          /\ (currentIndex v' = currentIndex v
              \/ currentIndex v' = (currentIndex v + 1) mod frame_total v
              \/ currentIndex v'
                 = (currentIndex v + frame_total v - 1) mod frame_total v))
  /\ (forall (s : run_state) (currentTime : Z),
        ready (viewer s) ->
        exists s' out,
          update_frame currentTime s = Some (s', out)
          /\ frame_total (viewer s') = frame_total (viewer s)
          /\ index_in_range (viewer s')
          /\ currentIndex (viewer s')
             = if frame_due currentTime s
               then (currentIndex (viewer s) + 1) mod frame_total (viewer s)
               else currentIndex (viewer s))
  /\ (forall (s : run_state) (turns : list (list SDL_Event * Z)),
        ready (viewer s) ->
        exists s' out,
          run_loop turns s = Some (s', out)
          /\ frame_total (viewer s') = frame_total (viewer s)
          /\ index_in_range (viewer s')).
Proof.
  repeat apply conj.
  - intros * Hinit.
    apply initialize_success in Hinit as (Hi & Hp & _ & _ & Hne); [|done..].
    simpl in Hi, Hp.
    assert (0 < frame_total v').
    { unfold frame_total, Cxx.size. destruct (imagePaths v'); [done|].
      simpl. lia. }
    unfold index_in_range. rewrite Hi. repeat split; (done || lia).
  - intros v e Hv.
    destruct (handle_event_ready e v Hv) as (v' & out & H & Hs & Hi).
    exists v', out. split; [done|]. split.
    { unfold frame_total. by rewrite (proj1 (proj2 (proj2 Hs))). }
    split; [done|]. eapply handle_event_index; [apply Hv..|exact H].
  - intros s currentTime Hv.
    destruct Hv as (Hseq & Hi & HF & Hsz).
    pose proof (sizes_ok_renderable _ Hsz) as Hdraw.
    destruct (update_frame_spec currentTime s HF Hseq Hi Hdraw)
      as [drawn [Hu _]].
    eexists _, _. split; [exact Hu|]. unfold updated. cbn [viewer].
    destruct (frame_due currentTime s); [|done].
    repeat split; try done; by apply next_index_in_range, Hseq.
  - intros s turns Hv.
    destruct (run_loop_ready turns s Hv) as (s' & out & H & Hs & Hi).
    exists s', out. split; [done|]. split; [|done].
    unfold frame_total. by rewrite (proj1 (proj2 (proj2 Hs))).
Qed.

Lemma C8_index_stays_in_range_witness :
  exists s' out,
    run_loop [([ToggleOnOff], ms 1); ([], ms 9); ([ToggleOnOff; StepBackward], ms 20);
              ([StepBackward; StepBackward], ms 31)]
      (run_entry 0 0 three_frames) = Some (s', out)
    /\ frame_total (viewer s') = frame_total three_frames
    /\ index_in_range (viewer s').
Proof.
  apply (proj2 (proj2 (proj2 C8_index_stays_in_range))
           (run_entry 0 0 three_frames)).
  repeat apply conj; try sizes_ok_concrete;
    unfold frame_total, Cxx.VECTOR_MAX_SIZE, Cxx.size; simpl; lia.
Defined.

(** ** The frame interval *)

Lemma loadImagesFromDirectory_targetFPS fs_status IMG_Load
    SDL_CreateTextureFromSurface directoryPath v :
  targetFPS (snd (fst (loadImagesFromDirectory fs_status IMG_Load
                         SDL_CreateTextureFromSurface directoryPath v)))
  = targetFPS v.
Proof.
  unfold loadImagesFromDirectory.
  destruct (fs_status directoryPath) as [[|entries|]|]; try done.
  destruct (scan_directory directoryPath entries (imagePaths v)); [done|].
  by destruct (load_images _ _ _ _ _).
Qed.

(** [initialize] stores the frame rate it is given, whatever it is and
    whether or not it succeeds. *)
Lemma initialize_targetFPS fs_status IMG_Load SDL_CreateTextureFromSurface
    env directoryPath fullscreenMode fps v :
  targetFPS (snd (fst (initialize fs_status IMG_Load
                         SDL_CreateTextureFromSurface env directoryPath
                         fullscreenMode fps v)))
  = fps.
Proof.
  unfold initialize.
  destruct (SDL_Init env <? 0); [done|].
  destruct (Z.land _ _ =? 0); [done|].
  cbn [window renderer]. destruct (SDL_CreateWindow env); [|done].
  destruct (SDL_CreateRenderer env); [|done]. cbn [negb].
  by rewrite loadImagesFromDirectory_targetFPS.
Qed.

(** C9.  For a target frame rate [F >= 1] the interval [1000 / F] of the
    clock-driven update is defined (the divisor is not zero) and lies in
    [0 .. 1000], and it is the interval the update goes by: with
    [targetFPS = F >= 1] the update is defined, shows the next frame when at
    least [1000 / F] milliseconds have passed since the last one and leaves
    the frame alone otherwise.  For [F > 1000] the interval is 0, and then
    every update made at or after the time of the last frame shows the next
    frame.  Nothing in the code enforces [F >= 1]: the number given after
    [--fps] reaches [targetFPS] as it is, and with [targetFPS = 0] the
    update (the division) is undefined. *)
Theorem C9_frame_interval :
  (forall F : Z,
     1 <= F ->
     Cxx.int_div 1000 F = Some (1000 / F)
     /\ 0 <= 1000 / F <= 1000
     /\ (1000 < F -> 1000 / F = 0))
  /\ (forall (s : run_state) (currentTime : Z),
        1 <= targetFPS (viewer s) ->
        sequence_ok (viewer s) -> index_in_range (viewer s) ->
        sizes_ok (viewer s) ->
        let intervalMs := 1000 / targetFPS (viewer s) in
        let elapsed := milliseconds (currentTime - lastFrameTime s) in
        exists s' out,
          update_frame currentTime s = Some (s', out)
          /\ (intervalMs <= elapsed ->
              currentIndex (viewer s')
              = (currentIndex (viewer s) + 1) mod frame_total (viewer s)
              /\ lastFrameTime s' = currentTime)
          /\ (elapsed < intervalMs ->
              currentIndex (viewer s') = currentIndex (viewer s)
              /\ lastFrameTime s' = lastFrameTime s))
  /\ (forall (s : run_state) (currentTime : Z),
        1000 < targetFPS (viewer s) ->
        sequence_ok (viewer s) -> index_in_range (viewer s) ->
        sizes_ok (viewer s) ->
        lastFrameTime s <= currentTime ->
        exists s' out,
          update_frame currentTime s = Some (s', out)
          /\ currentIndex (viewer s')
             = (currentIndex (viewer s) + 1) mod frame_total (viewer s)
          /\ lastFrameTime s' = currentTime)
  /\ (forall stoi value n o,
        stoi value = Some n ->
        parse_arguments stoi ["--fps"; value] o
        = Parsed {| opt_directoryPath := opt_directoryPath o;
                    opt_fullscreen := opt_fullscreen o; opt_fps := n |})
  /\ (forall fs_status IMG_Load SDL_CreateTextureFromSurface env
             directoryPath fullscreenMode fps v,
        targetFPS (snd (fst (initialize fs_status IMG_Load
                               SDL_CreateTextureFromSurface env
                               directoryPath fullscreenMode fps v)))
        = fps)
  /\ (forall (s : run_state) (currentTime : Z),
        targetFPS (viewer s) = 0 -> update_frame currentTime s = None).
Proof.
  repeat apply conj.
  - intros F HF. rewrite int_div_nonzero by lia.
    rewrite Z.quot_div_nonneg by lia. split; [done|]. split.
    + split; [apply Z.div_pos; lia|].
      apply Z.div_le_upper_bound; [lia|nia].
    + intros. apply Z.div_small. lia.
  - intros s currentTime HF Hseq Hi Hsz intervalMs elapsed.
    pose proof (sizes_ok_renderable _ Hsz) as Hdraw.
    destruct (update_frame_spec currentTime s) as [drawn [Hu _]];
      [lia | done..|].
    eexists _, _. split; [exact Hu|].
    assert (Hdue : frame_due currentTime s = (intervalMs <=? elapsed)).
    { unfold frame_due, msPerFrame, intervalMs, elapsed.
      by rewrite Z.quot_div_nonneg by lia. }
    unfold updated. cbn [viewer lastFrameTime]. rewrite Hdue. split.
    + intros Hle. apply Z.leb_le in Hle. by rewrite Hle.
    + intros Hlt. apply Z.leb_gt in Hlt. by rewrite Hlt.
  - intros s currentTime HF Hseq Hi Hsz Hclock.
    pose proof (sizes_ok_renderable _ Hsz) as Hdraw.
    destruct (update_frame_spec currentTime s) as [drawn [Hu _]];
      [lia | done..|].
    eexists _, _. split; [exact Hu|].
    assert (Hdue : frame_due currentTime s = true).
    { unfold frame_due, msPerFrame. rewrite Z.quot_small by lia.
      apply Z.leb_le. unfold milliseconds. apply Z.quot_pos; lia. }
    unfold updated. by rewrite Hdue.
  - intros stoi value n o Hn. simpl. by rewrite Hn.
  - intros. apply initialize_targetFPS.
  - intros s currentTime HF. unfold update_frame, Cxx.int_div.
    cbv zeta. by rewrite HF.
Qed.

Lemma C9_frame_interval_witness :
  (Cxx.int_div 1000 240 = Some (1000 / 240)
   /\ 0 <= 1000 / 240 <= 1000
   /\ (1000 < 240 -> 1000 / 240 = 0))
  /\ (exists s' out,
        update_frame (ms 9)
          {| viewer := set_playing true three_frames; lastFrameTime := ms 5;
             frameCount := 1; fpsTimer := 0 |} = Some (s', out)
        /\ currentIndex (viewer s') = 1 /\ lastFrameTime s' = ms 9)
  /\ (exists s' out,
        update_frame (ms 8)
          {| viewer := set_playing true three_frames; lastFrameTime := ms 5;
             frameCount := 1; fpsTimer := 0 |} = Some (s', out)
        /\ currentIndex (viewer s') = 0 /\ lastFrameTime s' = ms 5).
Proof.
  split; [apply (proj1 C9_frame_interval 240); lia|]. split.
  - destruct (proj1 (proj2 C9_frame_interval)
                {| viewer := set_playing true three_frames;
                   lastFrameTime := ms 5; frameCount := 1; fpsTimer := 0 |}
                (ms 9)) as (s' & out & H & Hdue & _).
    + simpl. lia.
    + unfold sequence_ok, frame_total, Cxx.VECTOR_MAX_SIZE, Cxx.size.
      simpl. lia.
    + unfold index_in_range, frame_total, Cxx.size. simpl. lia.
    + sizes_ok_concrete.
    + exists s', out. split; [exact H|]. apply Hdue. by vm_compute.
  - destruct (proj1 (proj2 C9_frame_interval)
                {| viewer := set_playing true three_frames;
                   lastFrameTime := ms 5; frameCount := 1; fpsTimer := 0 |}
                (ms 8)) as (s' & out & H & _ & Hnot).
    + simpl. lia.
    + unfold sequence_ok, frame_total, Cxx.VECTOR_MAX_SIZE, Cxx.size.
      simpl. lia.
    + unfold index_in_range, frame_total, Cxx.size. simpl. lia.
    + sizes_ok_concrete.
    + exists s', out. split; [exact H|]. apply Hnot. by vm_compute.
Defined.

(** ** Paths and extensions *)

Lemma string_app_nil_l (b : string) : EmptyString +:+ b = b.
Proof. reflexivity. Qed.

Lemma string_app_cons c (a b : string) :
  String c a +:+ b = String c (a +:+ b).
Proof. reflexivity. Qed.

Lemma string_length_app (a b : string) :
  String.length (a +:+ b) = (String.length a + String.length b)%nat.
Proof.
  induction a as [|c a IH]; [done|].
  rewrite string_app_cons. simpl. by rewrite IH.
Qed.

Lemma suffix_from_last_app c (a b : string) :
  Path.suffix_from_last c (a +:+ b)
  = match Path.suffix_from_last c b with
    | Some t => Some t
    | None => (fun t => t +:+ b) <$> Path.suffix_from_last c a
    end.
Proof.
  induction a as [|ch a IH].
  - rewrite string_app_nil_l.
    destruct (Path.suffix_from_last c b); reflexivity.
  - rewrite string_app_cons. cbn [Path.suffix_from_last]. rewrite IH.
    destruct (Path.suffix_from_last c b); [done|].
    destruct (Path.suffix_from_last c a); simpl; [done|].
    by destruct (Ascii.eqb ch c).
Qed.

Lemma suffix_from_last_last_char (p : string) ch :
  Path.last_char p = Some ch ->
  Path.suffix_from_last ch p = Some (String ch EmptyString).
Proof.
  induction p as [|a p IH]; [done|]. simpl.
  destruct p as [|b p].
  - intros [= ->]. simpl. by rewrite Ascii.eqb_refl.
  - intros H. by rewrite (IH H).
Qed.

(** The file name of [directoryPath / name] is [name], for a [name] without
    separator. *)
Lemma filename_append (directoryPath name : string) :
  Path.suffix_from_last Path.separator name = None ->
  Path.filename (Path.append directoryPath name) = name.
Proof.
  intros Hname. unfold Path.filename, Path.append.
  destruct (Path.last_char directoryPath) as [ch|] eqn:Hlast.
  - destruct (Ascii.eqb_spec ch Path.separator) as [->|_].
    + rewrite suffix_from_last_app, Hname.
      by rewrite (suffix_from_last_last_char _ _ Hlast).
    + rewrite suffix_from_last_app. simpl. rewrite Hname. done.
  - by rewrite Hname.
Qed.

(** The extension of [directoryPath / (stem.ext)] is [.ext]: what follows
    the last period of the file name, the period included. *)
Lemma extension_append (directoryPath stem ext : string) :
  let name := stem +:+ String Path.dot ext in
  Path.suffix_from_last Path.separator name = None ->
  Path.suffix_from_last Path.dot ext = None ->
  stem <> EmptyString -> name <> ".." ->
  Path.extension (Path.append directoryPath name) = String Path.dot ext.
Proof.
  intros name Hsep Hdot Hstem Hdots. unfold Path.extension.
  rewrite filename_append by done.
  assert (Hlen : (String.length name
                  = String.length stem + S (String.length ext))%nat).
  { unfold name. by rewrite string_length_app. }
  destruct (String.eqb_spec name ".") as [H1|_].
  { rewrite H1 in Hlen. destruct stem; [done|]. simpl in Hlen. lia. }
  destruct (String.eqb_spec name "..") as [|_]; [done|]. cbn [orb].
  unfold name at 1. rewrite suffix_from_last_app.
  cbn [Path.suffix_from_last]. rewrite Hdot, Ascii.eqb_refl.
  change (String.length (String Path.dot ext)) with (S (String.length ext)).
  destruct (Nat.eqb_spec (S (String.length ext)) (String.length name))
    as [Heq|_]; [|done].
  rewrite Hlen in Heq. destruct stem; [done|]. simpl in Heq. lia.
Qed.

Lemma is_image_extension_spec (extension : string) :
  is_image_extension extension = true
  <-> extension ∈ [".jpg"; ".jpeg"; ".png"; ".bmp"; ".tif"; ".tiff"].
Proof.
  unfold is_image_extension. rewrite !elem_of_cons, elem_of_nil.
  rewrite !orb_true_iff, !String.eqb_eq. tauto.
Qed.

(** C10.  After the scan of a directory, the candidate list holds exactly
    the paths [directoryPath / name] of the entries [name] of that directory
    that are regular files and whose extension, lower-cased, is one of
    [.jpg .jpeg .png .bmp .tif .tiff].  What a subdirectory holds has no
    effect on the list (no file below a subdirectory is ever a candidate).
    The extension tested is the final one: for a file [stem.ext] it is
    [.ext], the part from the last period of the file name on. *)
Theorem C10_directory_scan :
  (forall fs_status IMG_Load SDL_CreateTextureFromSurface directoryPath
          entries v,
     fs_status directoryPath = Some (Directory entries) ->
     imagePaths v = [] ->
     forall path,
       path ∈ imagePaths
                (snd (fst (loadImagesFromDirectory fs_status IMG_Load
                             SDL_CreateTextureFromSurface directoryPath v)))
       <-> exists name,
             (name, Regular_file) ∈ entries
             /\ path = Path.append directoryPath name
             /\ Path.lowercase (Path.extension path)
                ∈ [".jpg"; ".jpeg"; ".png"; ".bmp"; ".tif"; ".tiff"])
  /\ (forall directoryPath entries entries' paths,
        Forall2 (fun e e' =>
                   fst e = fst e'
                   /\ is_regular_file (snd e) = is_regular_file (snd e'))
                entries entries' ->
        scan_directory directoryPath entries paths
        = scan_directory directoryPath entries' paths)
  /\ (forall directoryPath stem ext,
        Path.suffix_from_last Path.separator (stem +:+ String Path.dot ext)
        = None ->
        Path.suffix_from_last Path.dot ext = None ->
        stem <> EmptyString -> stem +:+ String Path.dot ext <> ".." ->
        Path.extension (Path.append directoryPath (stem +:+ String Path.dot ext))
        = String Path.dot ext).
Proof.
  repeat apply conj.
  - intros fs_status IMG_Load Create directoryPath entries v Hfs Hp path.
    assert (Hpaths :
      imagePaths (snd (fst (loadImagesFromDirectory fs_status IMG_Load Create
                              directoryPath v)))
      ≡ₚ map (fun entry => Path.append directoryPath (fst entry))
             (List.filter (is_candidate directoryPath) entries)).
    { unfold loadImagesFromDirectory. rewrite Hfs, Hp.
      rewrite scan_directory_spec. cbn [app].
      destruct (map _ _) as [|p found] eqn:Hfound; [done|].
      destruct (load_images _ _ _ _ _). cbn [fst snd imagePaths set_textures
        set_imagePaths]. apply sort_Permutation. }
    rewrite Hpaths. rewrite list_elem_of_In, in_map_iff. split.
    + intros ([name node] & <- & Hin). apply filter_In in Hin as [Hin Hc].
      unfold is_candidate in Hc. apply andb_true_iff in Hc as [Hreg Hext].
      simpl in *. destruct node; try discriminate.
      exists name. split; [by apply list_elem_of_In|]. split; [done|].
      by apply is_image_extension_spec.
    + intros (name & Hin & -> & Hext). exists (name, Regular_file).
      split; [done|]. apply filter_In. split; [by apply list_elem_of_In|].
      unfold is_candidate. simpl. by apply is_image_extension_spec.
  - intros directoryPath entries entries' paths Hall. revert paths.
    unfold scan_directory.
    induction Hall as [|[n1 k1] [n2 k2] l l' [Hn Hk] _ IH]; intros paths;
      [done|].
    simpl in *. subst n2. rewrite IH. f_equal.
    unfold scan_entry. simpl. by rewrite Hk.
  - intros. by apply extension_append.
Qed.

Lemma C10_directory_scan_witness :
  "shots/0002.JPG"
  ∈ imagePaths
      (snd (fst (loadImagesFromDirectory shots_fs decoder_failing_always
                   texture_of_surface "shots" TimelapseViewer_default)))
  /\ ("shots/raw/0009.jpg"
      ∈ imagePaths
          (snd (fst (loadImagesFromDirectory shots_fs decoder_failing_always
                       texture_of_surface "shots" TimelapseViewer_default)))
      -> exists name,
           (name, Regular_file) ∈ shots_directory
           /\ "shots/raw/0009.jpg" = Path.append "shots" name).
Proof.
  pose proof (proj1 C10_directory_scan shots_fs decoder_failing_always
                texture_of_surface "shots" shots_directory
                TimelapseViewer_default eq_refl eq_refl) as H.
  split.
  - apply H. exists "0002.JPG". split.
    + unfold shots_directory. rewrite !elem_of_cons. tauto.
    + split; [reflexivity|]. apply is_image_extension_spec. reflexivity.
  - intros Hin. apply H in Hin as (name & Hname & Hpath & _). by exists name.
Defined.

(** * Further properties *)

(** ** The loop, whatever the state *)

Lemma renderCurrentFrame_calls v v' out :
  renderCurrentFrame v = Some (v', out) ->
  out = []
  \/ exists tex r,
       textures v !! Z.to_nat (currentIndex v) = Some (Some tex)
       /\ render_rect (windowWidth v) (windowHeight v)
                      (texture_w tex) (texture_h tex) = Some r
       /\ out = frame_calls tex r.
Proof.
  unfold renderCurrentFrame.
  destruct (Cxx.size (textures v) <=? currentIndex v).
  { intros [= _ <-]. by left. }
  unfold Cxx.at_index. destruct (currentIndex v <? 0); [done|].
  destruct (textures v !! Z.to_nat (currentIndex v)) as [[tex|]|] eqn:Hl;
    cbn [mbind option_bind]; [| intros [= _ <-]; by left | done].
  destruct (render_rect _ _ _ _) as [r|] eqn:Hr; [|done].
  cbn [mbind option_bind]. intros [= _ <-]. right. by exists tex, r.
Qed.

Lemma screen_trace_app v out1 out2 :
  screen_trace v out1 -> screen_trace v out2 -> screen_trace v (out1 ++ out2).
Proof.
  induction 1 as [|tex r out Hin Hr _ IH|title out _ IH|out _ IH]; intros H2.
  - done.
  - rewrite <- app_assoc. by apply trace_frame, IH.
  - apply trace_title, IH, H2.
  - apply trace_delay, IH, H2.
Qed.

Lemma screen_trace_same_setup v v' out :
  same_setup v v' -> screen_trace v' out -> screen_trace v out.
Proof.
  intros (_ & _ & _ & Ht & _ & _ & Hw & Hh).
  induction 1 as [|tex r out Hin Hr _ IH|title out _ IH|out _ IH].
  - constructor.
  - apply trace_frame; [by rewrite <- Ht | by rewrite <- Hw, <- Hh | done].
  - by apply trace_title.
  - by apply trace_delay.
Qed.

Lemma renderCurrentFrame_trace v v' out :
  renderCurrentFrame v = Some (v', out) -> screen_trace v out.
Proof.
  intros H. destruct (renderCurrentFrame_calls _ _ _ H)
    as [->|(tex & r & Hl & Hr & ->)]; [constructor|].
  rewrite <- (app_nil_r (frame_calls tex r)).
  apply trace_frame; [|done|constructor].
  by eapply list_elem_of_lookup_2.
Qed.

(** The flags an event leaves behind, and what it keeps. *)
Lemma handle_event_any (e : SDL_Event) (v v' : TimelapseViewer) out :
  handle_event e v = Some (v', out) ->
  same_setup v v'
  /\ running v' = running v && negb (is_quit e)
  /\ playing v' = xorb (playing v) (is_toggle e)
  /\ screen_trace v out.
Proof.
  assert (Hstep : forall i,
    renderCurrentFrame (set_currentIndex i v) = Some (v', out) ->
    same_setup v v' /\ running v' = running v && true
    /\ playing v' = xorb (playing v) false /\ screen_trace v out).
  { intros i H. pose proof (renderCurrentFrame_viewer _ _ _ H) as ->.
    apply renderCurrentFrame_trace in H.
    split; [by repeat split|]. cbn [running playing set_currentIndex].
    rewrite andb_true_r, xorb_false_r. split; [done|]. split; [done|].
    eapply screen_trace_same_setup; [|exact H]. by repeat split. }
  assert (Hkeep : same_setup v v /\ running v = running v && true
    /\ playing v = xorb (playing v) false /\ screen_trace v []).
  { rewrite andb_true_r, xorb_false_r.
    split; [apply same_setup_refl|]. repeat split. constructor. }
  destruct e as [|[| | | |]|]; cbn [handle_event is_quit is_toggle negb].
  - intros [= <- <-]. cbn [running playing set_running].
    rewrite andb_false_r, xorb_false_r.
    split; [by repeat split|]. repeat split. constructor.
  - intros [= <- <-]. cbn [running playing set_running].
    rewrite andb_false_r, xorb_false_r.
    split; [by repeat split|]. repeat split. constructor.
  - intros [= <- <-]. cbn [running playing set_playing].
    rewrite andb_true_r, xorb_true_r.
    split; [by repeat split|]. repeat split. constructor.
  - destruct (playing v) eqn:Hp; cbn [negb].
    + intros [= <- <-]. rewrite Hp. exact Hkeep.
    + destruct (Cxx.size_t_rem _ _) as [i|]; [|done].
      cbn [mbind option_bind]. apply Hstep.
  - destruct (playing v) eqn:Hp; cbn [negb].
    + intros [= <- <-]. rewrite Hp. exact Hkeep.
    + destruct (Cxx.size_t_rem _ _) as [i|]; [|done].
      cbn [mbind option_bind]. apply Hstep.
  - intros [= <- <-]. done.
  - intros [= <- <-]. done.
Qed.

Lemma poll_events_any (events : list SDL_Event) (v v' : TimelapseViewer) out :
  poll_events events v = Some (v', out) ->
  same_setup v v'
  /\ running v' = running v && negb (existsb is_quit events)
  /\ playing v'
     = xorb (playing v) (Nat.odd (length (List.filter is_toggle events)))
  /\ screen_trace v out.
Proof.
  revert v out. induction events as [|e rest IH]; intros v out.
  - intros [= <- <-]. cbn. rewrite andb_true_r, xorb_false_r.
    split; [apply same_setup_refl|]. repeat split. constructor.
  - cbn [poll_events].
    destruct (handle_event e v) as [[v1 out1]|] eqn:H1; [|done].
    cbn [mbind option_bind].
    destruct (poll_events rest v1) as [[v2 out2]|] eqn:H2; [|done].
    cbn [mbind option_bind]. intros [= <- <-].
    destruct (handle_event_any _ _ _ _ H1) as (Hs1 & Hr1 & Hp1 & Ht1).
    destruct (IH _ _ H2) as (Hs2 & Hr2 & Hp2 & Ht2).
    split; [by eapply same_setup_trans|]. split; [|split].
    + rewrite Hr2, Hr1. cbn [existsb]. rewrite negb_orb. by rewrite andb_assoc.
    + rewrite Hp2, Hp1. cbn [List.filter].
      destruct (is_toggle e); cbn [length].
      * rewrite Nat.odd_succ, <- Nat.negb_odd.
        by destruct (playing v), (Nat.odd _).
      * by rewrite xorb_false_r.
    + apply screen_trace_app; [done|]. by eapply screen_trace_same_setup.
Qed.

Lemma update_frame_any (currentTime : Z) (s s' : run_state) out :
  update_frame currentTime s = Some (s', out) ->
  same_setup (viewer s) (viewer s')
  /\ running (viewer s') = running (viewer s)
  /\ playing (viewer s') = playing (viewer s)
  /\ screen_trace (viewer s) out.
Proof.
  unfold update_frame.
  destruct (Cxx.int_div 1000 _) as [interval|]; [|done].
  cbn [mbind option_bind].
  set (first := if interval <=? _ then _ else _).
  assert (Hfirst : forall s1 out1, first = Some (s1, out1) ->
    same_setup (viewer s) (viewer s1)
    /\ running (viewer s1) = running (viewer s)
    /\ playing (viewer s1) = playing (viewer s)
    /\ screen_trace (viewer s) out1).
  { subst first. intros s1 out1.
    destruct (interval <=? _).
    - destruct (Cxx.size_t_rem _ _) as [i|]; [|done].
      cbn [mbind option_bind].
      destruct (renderCurrentFrame _) as [[v1 o]|] eqn:Hr; [|done].
      cbn [mbind option_bind]. intros [= <- <-]. cbn [viewer].
      pose proof (renderCurrentFrame_viewer _ _ _ Hr) as ->.
      apply renderCurrentFrame_trace in Hr.
      split; [by repeat split|]. split; [done|]. split; [done|].
      eapply screen_trace_same_setup; [|exact Hr]. by repeat split.
    - intros [= <- <-]. split; [apply same_setup_refl|].
      repeat split. constructor. }
  destruct first as [[s1 out1]|]; [|done]. cbn [mbind option_bind].
  destruct (Hfirst _ _ eq_refl) as (Hs & Hr & Hp & Ht).
  destruct (1 <=? _).
  - destruct (Cxx.int_div _ _) as [fps|]; [|done]. cbn [mbind option_bind].
    intros [= <- <-]. cbn [viewer]. repeat split; try done; try apply Hs.
    apply screen_trace_app; [done|]. apply trace_title. constructor.
  - intros [= <- <-]. by repeat split; try apply Hs.
Qed.

Lemma loop_iteration_any events (currentTime : Z) (s s' : run_state) out :
  loop_iteration events currentTime s = Some (s', out) ->
  same_setup (viewer s) (viewer s')
  /\ running (viewer s')
     = running (viewer s) && negb (existsb is_quit events)
  /\ screen_trace (viewer s) out.
Proof.
  unfold loop_iteration.
  destruct (poll_events events (viewer s)) as [[v1 out1]|] eqn:H1; [|done].
  cbn [mbind option_bind].
  destruct (poll_events_any _ _ _ _ H1) as (Hs1 & Hr1 & _ & Ht1).
  destruct (playing v1).
  - destruct (update_frame _ _) as [[s2 out2]|] eqn:H2; [|done].
    cbn [mbind option_bind]. intros [= <- <-].
    destruct (update_frame_any _ _ _ _ H2) as (Hs2 & Hr2 & _ & Ht2).
    cbn [viewer] in *. split; [by eapply same_setup_trans|].
    split; [by rewrite Hr2|].
    apply screen_trace_app; [done|]. by eapply screen_trace_same_setup.
  - intros [= <- <-]. cbn [viewer]. split; [done|]. split; [done|].
    apply screen_trace_app; [done|]. apply trace_delay. constructor.
Qed.

Lemma run_loop_any turns (s s' : run_state) out :
  run_loop turns s = Some (s', out) ->
  same_setup (viewer s) (viewer s') /\ screen_trace (viewer s) out
  /\ (running (viewer s) = false -> s' = s /\ out = []).
Proof.
  revert s out. induction turns as [|[events currentTime] rest IH]; intros s out.
  - intros [= <- <-]. split; [apply same_setup_refl|]. split; [constructor|done].
  - cbn [run_loop]. destruct (running (viewer s)) eqn:Hrun.
    2:{ intros [= <- <-]. split; [apply same_setup_refl|].
        split; [constructor|done]. }
    destruct (loop_iteration _ _ _) as [[s1 out1]|] eqn:H1; [|done].
    cbn [mbind option_bind].
    destruct (run_loop rest s1) as [[s2 out2]|] eqn:H2; [|done].
    cbn [mbind option_bind]. intros [= <- <-].
    destruct (loop_iteration_any _ _ _ _ _ H1) as (Hs1 & _ & Ht1).
    destruct (IH _ _ H2) as (Hs2 & Ht2 & _).
    split; [by eapply same_setup_trans|]. split; [|done].
    apply screen_trace_app; [done|]. by eapply screen_trace_same_setup.
Qed.

Lemma run_loop_stopped turns (s : run_state) :
  running (viewer s) = false -> run_loop turns s = Some (s, []).
Proof. intros H. destruct turns as [|[events t] rest]; [done|]. cbn. by rewrite H. Qed.

(** X1.  Whether the viewer goes on running and whether it plays after a
    batch of events depend on nothing but the batch: it keeps running iff
    the batch holds no quit event and no Escape, and the [playing] flag is
    flipped once for each press of the space bar.  The arrow keys change
    neither flag. *)
Theorem events_set_the_flags (events : list SDL_Event) (v v' : TimelapseViewer)
    (out : list sdl_call) :
  poll_events events v = Some (v', out) ->
  running v' = running v && negb (existsb is_quit events)
  /\ playing v'
     = xorb (playing v) (Nat.odd (length (List.filter is_toggle events))).
Proof.
  intros H. by destruct (poll_events_any _ _ _ _ H) as (_ & Hr & Hp & _).
Qed.

Lemma events_set_the_flags_witness :
  exists v' out,
    poll_events [ToggleOnOff; StepForward; ToggleOnOff; StepBackward;
                 SDL_QUIT; ToggleOnOff] three_frames = Some (v', out)
    /\ running v' = false /\ playing v' = true.
Proof.
  destruct (poll_events [ToggleOnOff; StepForward; ToggleOnOff; StepBackward;
                         SDL_QUIT; ToggleOnOff] three_frames)
    as [[v' out]|] eqn:H; [|vm_compute in H; discriminate].
  exists v', out. split; [done|].
  exact (events_set_the_flags _ _ _ _ H).
Defined.

(** X2.  Quitting is final.  A turn of the loop in which a quit event or
    Escape is queued is the last one: the turns after it are not run, no
    further event is polled and nothing more is drawn; and a viewer that is
    not running runs no turn at all. *)
Theorem quit_ends_the_loop (events : list SDL_Event) (currentTime : Z)
    (rest : list (list SDL_Event * Z)) (s : run_state) :
  existsb is_quit events = true ->
  run_loop ((events, currentTime) :: rest) s
  = run_loop [(events, currentTime)] s
  /\ (forall s' out,
        run_loop [(events, currentTime)] s = Some (s', out) ->
        running (viewer s') = false
        /\ forall turns, run_loop turns s' = Some (s', [])).
Proof.
  intros Hq. cbn [run_loop]. destruct (running (viewer s)) eqn:Hrun.
  2:{ split; [done|]. intros s' out [= <- <-]. split; [done|].
      intros turns. by apply run_loop_stopped. }
  destruct (loop_iteration events currentTime s) as [[s1 out1]|] eqn:H1;
    cbn [mbind option_bind]; [|done].
  destruct (loop_iteration_any _ _ _ _ _ H1) as (_ & Hr & _).
  rewrite Hq, andb_false_r in Hr.
  rewrite (run_loop_stopped rest s1 Hr). cbn [mbind option_bind].
  split; [done|]. intros s' out [= <- <-]. split; [done|].
  intros turns. by apply run_loop_stopped.
Qed.

Lemma quit_ends_the_loop_witness :
  run_loop [([StepForward; SDL_KEYDOWN SDLK_ESCAPE; StepForward], ms 5);
            ([StepForward], ms 20); ([ToggleOnOff], ms 30)]
    (run_entry 0 0 three_frames)
  = run_loop [([StepForward; SDL_KEYDOWN SDLK_ESCAPE; StepForward], ms 5)]
      (run_entry 0 0 three_frames).
Proof.
  exact (proj1 (quit_ends_the_loop
                  [StepForward; SDL_KEYDOWN SDLK_ESCAPE; StepForward] (ms 5)
                  [([StepForward], ms 20); ([ToggleOnOff], ms 30)]
                  (run_entry 0 0 three_frames) eq_refl)).
Defined.

Lemma run_loop_idle_paused (times : list Z) (s : run_state) :
  running (viewer s) = true ->
  playing (viewer s) = false ->
  run_loop (idle_turns times) s
  = Some (s, repeat (SDL_Delay 10) (length times)).
Proof.
  intros Hrun Hp. induction times as [|t times IH]; [done|].
  cbn [idle_turns map run_loop]. rewrite Hrun.
  unfold loop_iteration. cbn [poll_events mbind option_bind].
  rewrite Hp. cbn [mbind option_bind].
  replace {| viewer := viewer s; lastFrameTime := lastFrameTime s;
             frameCount := frameCount s; fpsTimer := fpsTimer s |}
    with s by by destruct s.
  fold (idle_turns times). rewrite IH. done.
Qed.

(** X3.  A paused viewer that receives no event does nothing but sleep:
    each turn of the loop is one [SDL_Delay(10)], no frame is drawn (not
    even the current one), no title is set, and the viewer, the time of the
    last frame, the frame counter and the start of the measurement window
    all stay as they are, however long the pause lasts. *)
Theorem paused_idle_turns_only_sleep (times : list Z) (s : run_state) :
  running (viewer s) = true ->
  playing (viewer s) = false ->
  run_loop (idle_turns times) s
  = Some (s, repeat (SDL_Delay 10) (length times)).
Proof. apply run_loop_idle_paused. Qed.

Lemma paused_idle_turns_only_sleep_witness :
  run_loop (idle_turns [ms 10; ms 20; ms 5000]) (run_entry 0 0 three_frames)
  = Some (run_entry 0 0 three_frames,
          [SDL_Delay 10; SDL_Delay 10; SDL_Delay 10]).
Proof.
  exact (paused_idle_turns_only_sleep [ms 10; ms 20; ms 5000]
           (run_entry 0 0 three_frames) eq_refl eq_refl).
Defined.

(** X4.  Whatever [run] puts on the screen is made of whole frames, window
    titles and sleeps of ten milliseconds: every texture it copies is one
    of the decoded textures of the viewer (never a null frame), copied to
    the rectangle computed for it in the window, after a clearing to black
    and before a presentation.  And [run] changes nothing of the viewer but
    its index and its two flags. *)
Theorem run_draws_whole_frames (now1 now2 : Z)
    (turns : list (list SDL_Event * Z)) (v : TimelapseViewer)
    (s' : run_state) (out : list sdl_call) (err : list cerr_line) :
  run now1 now2 turns v = (Some (s', out), err) ->
  screen_trace v out /\ same_setup v (viewer s').
Proof.
  unfold run. destruct (_ || _).
  - intros [= <- <- _]. split; [constructor|apply same_setup_refl].
  - intros [= H _]. by destruct (run_loop_any _ _ _ _ H) as (Hs & Ht & _).
Qed.

Lemma run_draws_whole_frames_witness :
  exists s' out,
    run 0 0 [([ToggleOnOff], ms 1); ([], ms 1009); ([ToggleOnOff; StepBackward], ms 1020)]
      three_frames_shown = (Some (s', out), [])
    /\ screen_trace three_frames_shown out
    /\ same_setup three_frames_shown (viewer s').
Proof.
  destruct (run 0 0 [([ToggleOnOff], ms 1); ([], ms 1009);
                     ([ToggleOnOff; StepBackward], ms 1020)] three_frames_shown)
    as [[[s' out]|] err] eqn:H; [|vm_compute in H; discriminate].
  assert (err = []) as -> by (vm_compute in H; by inversion H).
  exists s', out. split; [done|].
  exact (run_draws_whole_frames _ _ _ _ _ _ _ H).
Defined.

(** ** Stepping by hand *)

Ltac sequence_ok_concrete :=
  unfold sequence_ok, frame_total, Cxx.VECTOR_MAX_SIZE, Cxx.size; simpl; lia.

Ltac index_in_range_concrete :=
  unfold index_in_range, frame_total, Cxx.size; simpl; lia.

Lemma arrows_paused (v : TimelapseViewer) (events : list SDL_Event) :
  playing v = false -> sequence_ok v -> frames_renderable v = true ->
  Forall (fun e => e = StepForward \/ e = StepBackward) events ->
  forall i, 0 <= i < frame_total v ->
  exists out,
    poll_events events (set_currentIndex i v)
    = Some (set_currentIndex ((i + net_steps events) mod frame_total v) v, out).
Proof.
  intros Hp Hseq Hdraw. induction 1 as [|e rest He _ IH]; intros i Hi.
  - exists []. cbn [poll_events net_steps]. by rewrite Z.add_0_r, Z.mod_small.
  - destruct He as [-> | ->].
    + destruct (step_forward_paused v Hp Hseq Hdraw i Hi) as [out1 H1].
      destruct (IH ((i + 1) mod frame_total v)) as [out2 H2].
      { apply next_index_in_range, Hseq. }
      exists (out1 ++ out2). cbn [poll_events]. rewrite H1.
      cbn [mbind option_bind]. rewrite H2. cbn [mbind option_bind].
      do 2 f_equal. rewrite Zplus_mod_idemp_l. cbn [StepForward net_steps].
      by replace (i + 1 + net_steps rest) with (i + (net_steps rest + 1)) by lia.
    + destruct (step_backward_paused v Hp Hseq Hdraw i Hi) as [out1 H1].
      destruct (IH ((i + frame_total v - 1) mod frame_total v)) as [out2 H2].
      { apply previous_index_in_range, Hseq. }
      exists (out1 ++ out2). cbn [poll_events]. rewrite H1.
      cbn [mbind option_bind]. rewrite H2. cbn [mbind option_bind].
      do 2 f_equal. rewrite Zplus_mod_idemp_l. cbn [StepBackward net_steps].
      replace (i + frame_total v - 1 + net_steps rest)
        with (i + (net_steps rest - 1) + 1 * frame_total v) by lia.
      by rewrite Z_mod_plus_full.
Qed.

(** X5.  In the paused state the arrow keys add up: after any batch of
    right and left arrows the index is the start index plus the number of
    right arrows minus the number of left arrows, modulo the number of
    frames, and nothing else of the viewer has changed.  So a batch with as
    many left as right arrows, in any order, brings the viewer back to
    where it was. *)
Theorem arrow_keys_add_up (v : TimelapseViewer) (events : list SDL_Event) :
  playing v = false ->
  sequence_ok v ->
  index_in_range v ->
  sizes_ok v ->
  Forall (fun e => e = StepForward \/ e = StepBackward) events ->
  (exists out,
     poll_events events v
     = Some (set_currentIndex
               ((currentIndex v + net_steps events) mod frame_total v) v, out))
  /\ (net_steps events = 0 ->
      exists out, poll_events events v = Some (v, out)).
Proof.
  intros Hp Hseq Hi Hsz Hev.
  pose proof (sizes_ok_renderable v Hsz) as Hdraw.
  destruct (arrows_paused v events Hp Hseq Hdraw Hev (currentIndex v) Hi)
    as [out H].
  rewrite set_currentIndex_same in H. split; [by exists out|].
  intros H0. exists out. rewrite H, H0, Z.add_0_r, Z.mod_small by done.
  by rewrite set_currentIndex_same.
Qed.

Lemma arrow_keys_add_up_witness :
  exists out,
    poll_events [StepForward; StepForward; StepBackward; StepForward;
                 StepBackward; StepBackward]
      (set_currentIndex 2 three_frames)
    = Some (set_currentIndex 2 three_frames, out).
Proof.
  apply (proj2 (arrow_keys_add_up (set_currentIndex 2 three_frames)
                  [StepForward; StepForward; StepBackward; StepForward;
                   StepBackward; StepBackward]
                  eq_refl ltac:(sequence_ok_concrete)
                  ltac:(index_in_range_concrete) ltac:(sizes_ok_concrete)
                  ltac:(repeat (apply List.Forall_cons;
                                  [first [by left | by right]|]);
                        apply List.Forall_nil))).
  reflexivity.
Defined.

(** ** initialize *)

Lemma imgFlags_either (r : Z) :
  Z.land r (Z.lor IMG_INIT_JPG IMG_INIT_PNG) <> 0
  <-> Z.testbit r 0 = true \/ Z.testbit r 1 = true.
Proof.
  change (Z.lor IMG_INIT_JPG IMG_INIT_PNG) with (Z.ones 2).
  split.
  - intros H. destruct (Z.testbit r 0) eqn:H0; [by left|].
    destruct (Z.testbit r 1) eqn:H1; [by right|]. exfalso. apply H.
    apply Z.bits_inj'. intros n Hn. rewrite Z.land_spec, Z.bits_0.
    destruct (Z.eq_dec n 0) as [->|]; [by rewrite H0|].
    destruct (Z.eq_dec n 1) as [->|]; [by rewrite H1|].
    rewrite Z.ones_spec_high by lia. apply andb_false_r.
  - intros H E.
    assert (Hb : forall n, 0 <= n < 2 -> Z.testbit r n = false).
    { intros n Hn. apply (f_equal (fun z => Z.testbit z n)) in E.
      rewrite Z.land_spec, Z.bits_0, Z.ones_spec_low, andb_true_r in E by lia.
      done. }
    destruct H as [H|H]; rewrite Hb in H by lia; done.
Qed.

(** X6.  [initialize] of a newly constructed viewer succeeds exactly when
    SDL starts, SDL_image reports at least one of the JPEG and PNG decoders
    (it need not report both), the window and the renderer are created, and
    the directory yields at least one source.  On success the viewer holds
    the window and the renderer, the sorted sources with one texture slot
    each, the index at 0, the paused state, the frame rate and the
    fullscreen flag it was asked for and the size SDL reports for the window,
    and the only lines on [std::cerr] are the warnings of the sources that
    do not decode.  On failure exactly one line is written and the viewer
    holds no source and no texture. *)
Theorem initialize_outcome
    (fs_status : string -> option fs_node)
    (IMG_Load : string -> option SDL_Surface)
    (SDL_CreateTextureFromSurface : SDL_Surface -> option SDL_Texture)
    (env : sdl_env) (directoryPath : string) (fullscreenMode : bool) (fps : Z) :
  let srcs := sources fs_status directoryPath in
  let '(ok, v', err) :=
    initialize fs_status IMG_Load SDL_CreateTextureFromSurface env
      directoryPath fullscreenMode fps TimelapseViewer_default in
  (ok = true
   <-> 0 <= SDL_Init env
       /\ (Z.testbit (IMG_Init env (Z.lor IMG_INIT_JPG IMG_INIT_PNG)) 0 = true
           \/ Z.testbit (IMG_Init env (Z.lor IMG_INIT_JPG IMG_INIT_PNG)) 1 = true)
       /\ SDL_CreateWindow env = true /\ SDL_CreateRenderer env = true
       /\ srcs <> [])
  /\ (ok = true ->
      v' = initialized env fullscreenMode fps srcs
             (map (decode IMG_Load SDL_CreateTextureFromSurface) srcs)
      /\ err = concat (map (decode_warning IMG_Load SDL_CreateTextureFromSurface)
                           srcs))
  /\ (ok = false ->
      (exists line, err = [line]) /\ imagePaths v' = [] /\ textures v' = []
      /\ targetFPS v' = fps /\ fullscreen v' = fullscreenMode).
Proof.
  intros srcs. unfold initialize.
  pose proof (imgFlags_either (IMG_Init env (Z.lor IMG_INIT_JPG IMG_INIT_PNG)))
    as Hflags.
  destruct (SDL_Init env <? 0) eqn:E1.
  { apply Z.ltb_lt in E1. split; [|split]; try done.
    - split; [done|]. intros (? & _). lia.
    - intros _. split; [by eexists|done]. }
  apply Z.ltb_ge in E1.
  destruct (Z.land _ _ =? 0) eqn:E2.
  { apply Z.eqb_eq in E2. split; [|split]; try done.
    - split; [done|]. intros (_ & H & _). by apply Hflags in H.
    - intros _. split; [by eexists|done]. }
  apply Z.eqb_neq, Hflags in E2.
  cbn [window renderer]. destruct (SDL_CreateWindow env) eqn:E3; cbn [negb].
  2:{ split; [|split]; try done.
      - split; [done|]. by intros (_ & _ & ? & _).
      - intros _. split; [by eexists|done]. }
  destruct (SDL_CreateRenderer env) eqn:E4; cbn [negb].
  2:{ split; [|split]; try done.
      - split; [done|]. by intros (_ & _ & _ & ? & _).
      - intros _. split; [by eexists|done]. }
  rewrite loadImagesFromDirectory_fresh by done. subst srcs.
  unfold sources at 1 2 3 4 5.
  destruct (fs_status directoryPath) as [[|entries|]|] eqn:Efs;
    try (split; [|split]; try done;
         [ split; [done|]; by intros (_ & _ & _ & _ & ?)
         | intros _; split; [by eexists|done] ]).
  fold (sources fs_status directoryPath).
  assert (Hs : sources fs_status directoryPath
               = sort (scan_directory directoryPath entries []))
    by (unfold sources; by rewrite Efs).
  rewrite <- Hs.
  destruct (sources fs_status directoryPath) as [|q sorted] eqn:Esrc.
  - split; [|split]; try done.
    + split; [done|]. by intros (_ & _ & _ & _ & ?).
    + intros _. split; [by eexists|done].
  - split; [|split]; try done.
Qed.

Lemma initialize_outcome_witness :
  let r :=
    initialize shots_fs (decoder_failing_on ["shots/0002.JPG"])
      texture_of_surface working_sdl "shots" true 60 TimelapseViewer_default in
  snd (fst r)
  = initialized working_sdl true 60 (sources shots_fs "shots")
      (map (decode (decoder_failing_on ["shots/0002.JPG"]) texture_of_surface)
           (sources shots_fs "shots"))
  /\ snd r = [Unable_to_load_image "shots/0002.JPG"].
Proof.
  cbv zeta.
  pose proof (initialize_outcome shots_fs
                (decoder_failing_on ["shots/0002.JPG"]) texture_of_surface
                working_sdl "shots" true 60) as H.
  cbv zeta in H.
  destruct (initialize shots_fs (decoder_failing_on ["shots/0002.JPG"])
              texture_of_surface working_sdl "shots" true 60
              TimelapseViewer_default) as [[ok v'] err] eqn:E.
  assert (ok = true) as -> by (vm_compute in E; by inversion E).
  destruct H as (_ & H & _). destruct (H eq_refl) as [-> ->].
  split; [reflexivity|]. vm_compute. reflexivity.
Defined.

(** What a successful [initialize] of a newly constructed viewer leaves. *)
Lemma initialize_default_success fs_status IMG_Load
    SDL_CreateTextureFromSurface env directoryPath fullscreenMode fps v' err :
  initialize fs_status IMG_Load SDL_CreateTextureFromSurface env
    directoryPath fullscreenMode fps TimelapseViewer_default = (true, v', err) ->
  sources fs_status directoryPath <> []
  /\ v' = initialized env fullscreenMode fps (sources fs_status directoryPath)
            (map (decode IMG_Load SDL_CreateTextureFromSurface)
                 (sources fs_status directoryPath))
  /\ err = concat (map (decode_warning IMG_Load SDL_CreateTextureFromSurface)
                       (sources fs_status directoryPath)).
Proof.
  unfold initialize.
  destruct (SDL_Init env <? 0); [discriminate|].
  destruct (Z.land _ _ =? 0); [discriminate|].
  cbn [window renderer]. destruct (SDL_CreateWindow env); [|discriminate].
  destruct (SDL_CreateRenderer env); [|discriminate]. cbn [negb].
  rewrite loadImagesFromDirectory_fresh by done.
  destruct (fs_status directoryPath) as [[|entries|]|]; try discriminate.
  destruct (sources fs_status directoryPath) as [|q sorted]; [discriminate|].
  intros [= <- <-]. done.
Qed.

Lemma initialized_ready env fullscreenMode fps paths texs :
  paths <> [] -> Cxx.size paths <= Cxx.VECTOR_MAX_SIZE -> fps <> 0 ->
  0 <= fst (SDL_GetWindowSize env) <= WINDOW_LIMIT ->
  0 <= snd (SDL_GetWindowSize env) <= WINDOW_LIMIT ->
  Forall texture_sized texs ->
  ready (initialized env fullscreenMode fps paths texs).
Proof.
  intros Hne Hmax Hfps Hw Hh Ht.
  assert (0 < Cxx.size paths).
  { unfold Cxx.size. destruct paths; [done|]. cbn [length]. lia. }
  repeat split; try done; unfold frame_total; cbn; lia.
Qed.

(** X7.  A viewer that [initialize] has set up plays whatever comes: when
    the frame rate asked for is not zero, SDL reports a window of at most
    2^24 pixels each way and every image that decodes has sizes that are
    positive [int]s, [run] never refuses to start, and along any record of
    events and clock readings it is defined (no division by zero, no access
    out of range, no undefined conversion), keeps the index within the
    frames, changes nothing of the viewer but the index and the two flags,
    and puts only whole frames of decoded textures, titles and sleeps on the
    screen. *)
Theorem initialized_viewer_runs
    (fs_status : string -> option fs_node)
    (IMG_Load : string -> option SDL_Surface)
    (SDL_CreateTextureFromSurface : SDL_Surface -> option SDL_Texture)
    (env : sdl_env) (directoryPath : string) (fullscreenMode : bool) (fps : Z)
    (v' : TimelapseViewer) (err : list cerr_line)
    (now1 now2 : Z) (turns : list (list SDL_Event * Z)) :
  initialize fs_status IMG_Load SDL_CreateTextureFromSurface env
    directoryPath fullscreenMode fps TimelapseViewer_default = (true, v', err) ->
  fps <> 0 ->
  frame_total v' <= Cxx.VECTOR_MAX_SIZE ->
  0 <= fst (SDL_GetWindowSize env) <= WINDOW_LIMIT ->
  0 <= snd (SDL_GetWindowSize env) <= WINDOW_LIMIT ->
  (forall path tex,
     decode IMG_Load SDL_CreateTextureFromSurface path = Some tex ->
     0 < texture_w tex <= Cxx.INT_MAX /\ 0 < texture_h tex <= Cxx.INT_MAX) ->
  exists s' out,
    run now1 now2 turns v' = (Some (s', out), [])
    /\ index_in_range (viewer s')
    /\ same_setup v' (viewer s')
    /\ screen_trace v' out.
Proof.
  intros Hinit Hfps Hmax Hw Hh Hdec.
  destruct (initialize_default_success _ _ _ _ _ _ _ _ _ Hinit)
    as (Hne & -> & _).
  set (srcs := sources fs_status directoryPath) in *.
  set (v := initialized _ _ _ _ _) in *.
  assert (Hready : ready v).
  { apply initialized_ready; try done.
    apply Forall_forall. intros t Ht.
    apply list_elem_of_fmap in Ht as (path & -> & _).
    destruct (decode _ _ path) as [tex|] eqn:E; [|done]. by apply (Hdec path). }
  unfold run. change (imagePaths v) with srcs.
  rewrite bool_decide_eq_false_2 by done. cbn [window renderer v initialized negb orb].
  destruct (run_loop_ready turns (run_entry now1 now2 v) Hready)
    as (s' & out & Hrun & Hs & Hi).
  exists s', out. rewrite Hrun. split; [done|]. split; [done|]. split; [done|].
  by destruct (run_loop_any _ _ _ _ Hrun) as (_ & Ht & _).
Qed.

Lemma initialized_viewer_runs_witness :
  let v' :=
    snd (fst (initialize shots_fs (decoder_failing_on ["shots/0002.JPG"])
                texture_of_surface working_sdl "shots" false 240
                TimelapseViewer_default)) in
  exists s' out,
    run 0 0 [([StepBackward], ms 5); ([ToggleOnOff], ms 20); ([], ms 30);
             ([SDL_QUIT], ms 1040)] v' = (Some (s', out), [])
    /\ index_in_range (viewer s')
    /\ same_setup v' (viewer s')
    /\ screen_trace v' out.
Proof.
  cbv zeta.
  set (r := initialize shots_fs (decoder_failing_on ["shots/0002.JPG"])
              texture_of_surface working_sdl "shots" false 240
              TimelapseViewer_default).
  assert (H : r = (true, snd (fst r), snd r)) by (vm_compute; reflexivity).
  apply (initialized_viewer_runs _ _ _ _ _ _ _ _ _ 0 0
           [([StepBackward], ms 5); ([ToggleOnOff], ms 20); ([], ms 30);
            ([SDL_QUIT], ms 1040)] H).
  - lia.
  - vm_compute. discriminate.
  - unfold WINDOW_LIMIT. simpl. lia.
  - unfold WINDOW_LIMIT. simpl. lia.
  - intros path tex. unfold decode, decoder_failing_on.
    destruct (existsb _ _); [done|]. intros [= <-].
    unfold Cxx.INT_MAX. simpl. lia.
Defined.

(** X8.  After a successful [initialize] the window shows no frame until a
    key is pressed: the viewer starts paused, and as long as no event comes
    [run] only sleeps, ten milliseconds a turn; it never draws the first
    frame on its own. *)
Theorem no_frame_before_the_first_key
    (fs_status : string -> option fs_node)
    (IMG_Load : string -> option SDL_Surface)
    (SDL_CreateTextureFromSurface : SDL_Surface -> option SDL_Texture)
    (env : sdl_env) (directoryPath : string) (fullscreenMode : bool) (fps : Z)
    (v' : TimelapseViewer) (err : list cerr_line)
    (now1 now2 : Z) (times : list Z) :
  initialize fs_status IMG_Load SDL_CreateTextureFromSurface env
    directoryPath fullscreenMode fps TimelapseViewer_default = (true, v', err) ->
  run now1 now2 (idle_turns times) v'
  = (Some (run_entry now1 now2 v', repeat (SDL_Delay 10) (length times)), []).
Proof.
  intros Hinit.
  destruct (initialize_default_success _ _ _ _ _ _ _ _ _ Hinit)
    as (Hne & -> & _).
  unfold run. cbn [imagePaths window renderer initialized negb].
  rewrite bool_decide_eq_false_2 by done. cbn [orb]. f_equal.
  by apply run_loop_idle_paused.
Qed.

Lemma no_frame_before_the_first_key_witness :
  let v' :=
    snd (fst (initialize shots_fs (decoder_failing_on ["shots/0002.JPG"])
                texture_of_surface working_sdl "shots" false 240
                TimelapseViewer_default)) in
  run 0 0 (idle_turns [ms 10; ms 20; ms 30]) v'
  = (Some (run_entry 0 0 v', [SDL_Delay 10; SDL_Delay 10; SDL_Delay 10]), []).
Proof.
  cbv zeta.
  set (r := initialize shots_fs (decoder_failing_on ["shots/0002.JPG"])
              texture_of_surface working_sdl "shots" false 240
              TimelapseViewer_default).
  assert (H : r = (true, snd (fst r), snd r)) by (vm_compute; reflexivity).
  exact (no_frame_before_the_first_key _ _ _ _ _ _ _ _ _ 0 0
           [ms 10; ms 20; ms 30] H).
Defined.

(** ** The order of the frames *)

Lemma string_compare_trans (a : string) : forall b c,
  String.compare a b <> Gt -> String.compare b c <> Gt ->
  String.compare a c <> Gt.
Proof.
  induction a as [|c1 a IH]; intros [|c2 b] [|c3 c]; cbn [String.compare];
    try done.
  unfold Ascii.compare.
  destruct (N.compare_spec (N_of_ascii c1) (N_of_ascii c2)) as [E12|L12|G12];
    destruct (N.compare_spec (N_of_ascii c2) (N_of_ascii c3)) as [E23|L23|G23];
    destruct (N.compare_spec (N_of_ascii c1) (N_of_ascii c3)) as [E13|L13|G13];
    try done; try lia.
  apply IH.
Qed.

#[local] Instance path_le_trans : Transitive path_le.
Proof.
  intros a b c. unfold path_le, String.leb. intros Hab Hbc.
  pose proof (string_compare_trans a b c) as H.
  destruct (String.compare a b); destruct (String.compare b c);
    destruct (String.compare a c); try done; by exfalso; apply H.
Qed.

#[local] Instance path_le_antisym : AntiSymm eq path_le.
Proof. intros a b. apply String.leb_antisym. Qed.

Lemma sort_insert_sorted s l :
  StronglySorted path_le l -> StronglySorted path_le (sort_insert s l).
Proof.
  induction 1 as [|t l Hl IH Ht]; cbn [sort_insert].
  - by repeat constructor.
  - destruct (String.leb s t) eqn:E.
    + apply SSorted_cons; [by apply SSorted_cons|].
      apply List.Forall_cons; [done|].
      eapply Forall_impl; [exact Ht|]. intros u Hu. by transitivity t.
    + apply SSorted_cons; [done|].
      rewrite sort_insert_Permutation. apply List.Forall_cons; [|done].
      destruct (String.leb_total s t) as [H|H]; [congruence|done].
Qed.

Lemma sort_sorted l : StronglySorted path_le (sort l).
Proof.
  induction l as [|s l IH]; [constructor|]. by apply sort_insert_sorted.
Qed.

Lemma candidates_Permutation directoryPath (entries entries' : list (string * fs_node)) :
  entries ≡ₚ entries' ->
  map (fun entry => Path.append directoryPath (fst entry))
      (List.filter (is_candidate directoryPath) entries)
  ≡ₚ map (fun entry => Path.append directoryPath (fst entry))
         (List.filter (is_candidate directoryPath) entries').
Proof.
  intros H. apply Permutation_map.
  induction H as [|e l l' _ IH|e1 e2 l|l1 l2 l3 _ IH1 _ IH2]; cbn [List.filter].
  - done.
  - destruct (is_candidate directoryPath e); [by constructor|done].
  - destruct (is_candidate directoryPath e1), (is_candidate directoryPath e2);
      try done. constructor.
  - by etransitivity.
Qed.

(** X9.  The frames are played in the byte order of their paths.  After a
    successful load into a fresh viewer the paths are the candidates of the
    scan, each as often as the scan found it, arranged so that every path is
    at most every later one in the order of [std::string]; that
    arrangement is the only one there is, so it does not depend on how
    [std::sort] goes about it, and it is the same in whatever order the
    directory lists its entries. *)
Theorem frames_in_path_order
    (fs_status : string -> option fs_node)
    (IMG_Load : string -> option SDL_Surface)
    (SDL_CreateTextureFromSurface : SDL_Surface -> option SDL_Texture)
    (directoryPath : string) (entries : list (string * fs_node))
    (v : TimelapseViewer) :
  fs_status directoryPath = Some (Directory entries) ->
  imagePaths v = [] ->
  let candidates :=
    map (fun entry => Path.append directoryPath (fst entry))
        (List.filter (is_candidate directoryPath) entries) in
  let paths :=
    imagePaths (snd (fst (loadImagesFromDirectory fs_status IMG_Load
                            SDL_CreateTextureFromSurface directoryPath v))) in
  paths ≡ₚ candidates
  /\ (forall i j p q,
        (i < j)%nat -> paths !! i = Some p -> paths !! j = Some q ->
        path_le p q)
  /\ (forall l, l ≡ₚ candidates -> StronglySorted path_le l -> l = paths)
  /\ (forall entries',
        entries' ≡ₚ entries ->
        sort (scan_directory directoryPath entries' []) = paths).
Proof.
  intros Hfs Hp candidates paths.
  assert (Hpaths : paths = sort candidates).
  { subst paths candidates. unfold loadImagesFromDirectory.
    rewrite Hfs, Hp, scan_directory_spec. cbn [app].
    destruct (map _ _) as [|c cs] eqn:E; [done|].
    by destruct (load_images _ _ _ _ _). }
  rewrite Hpaths. split; [apply sort_Permutation|]. split.
  - intros i j p q Hij Hi Hj.
    pose proof (sort_sorted candidates) as Hs.
    rewrite <- (take_drop j (sort candidates)) in Hs.
    apply (StronglySorted_app_1_elem_of _ _ _ p q Hs).
    + apply list_elem_of_lookup. exists i. rewrite lookup_take_lt; done.
    + apply list_elem_of_lookup. exists 0%nat. rewrite lookup_drop.
      by rewrite Nat.add_0_r.
  - assert (Hunique : forall l,
      l ≡ₚ candidates -> StronglySorted path_le l -> l = sort candidates).
    { intros l Hl Hs. apply (StronglySorted_unique path_le); try done.
      - apply sort_sorted.
      - by rewrite Hl, sort_Permutation. }
    split; [exact Hunique|].
    intros entries' He. apply Hunique; [|apply sort_sorted].
    rewrite sort_Permutation, scan_directory_spec. cbn [app].
    by apply candidates_Permutation.
Qed.

Lemma frames_in_path_order_witness :
  let paths :=
    imagePaths (snd (fst (loadImagesFromDirectory shots_fs decoder_failing_always
                            texture_of_surface "shots" TimelapseViewer_default))) in
  paths = ["shots/0001.jpg"; "shots/0002.JPG"; "shots/0003.png";
           "shots/0004.bmp"; "shots/0005.tiff"]
  /\ path_le "shots/0002.JPG" "shots/0004.bmp".
Proof.
  split; [reflexivity|].
  apply (proj1 (proj2 (frames_in_path_order shots_fs decoder_failing_always
                         texture_of_surface "shots" shots_directory
                         TimelapseViewer_default eq_refl eq_refl))
           1%nat 3%nat); [lia|reflexivity|reflexivity].
Defined.

(** ** The command line *)

Lemma string_eqb_false (a b : string) : a <> b -> String.eqb a b = false.
Proof. intros H. by apply String.eqb_neq. Qed.

(** X10.  [std::stoi] is only ever called on the argument that follows
    [--fps].  When no argument is [--fps], parsing cannot throw, its outcome
    is the same whatever [std::stoi] would do, and the frame rate stays what
    it was (240 from the start of [main]). *)
Theorem frame_rate_only_from_fps_option (stoi stoi' : string -> option Z)
    (args : list string) (o : options) :
  "--fps" ∉ args ->
  parse_arguments stoi args o = parse_arguments stoi' args o
  /\ parse_arguments stoi args o <> Stoi_threw
  /\ forall o', parse_arguments stoi args o = Parsed o' -> opt_fps o' = opt_fps o.
Proof.
  assert (Hle : (length args <= length args)%nat) by lia. revert Hle.
  generalize (length args) at 2. intros n. revert args o.
  induction n as [|n IH]; intros args o Hle Hno;
    (destruct args as [|arg rest]; [by repeat split; [|intros o' [= <-]]|]);
    cbn [length] in Hle; [lia|].
  apply not_elem_of_cons in Hno as [Harg Hrest].
  cbn [parse_arguments].
  destruct (String.eqb arg "-d" || String.eqb arg "--directory").
  { destruct rest as [|value rest']; [by repeat split; [|intros o' [= <-]]|].
    apply not_elem_of_cons in Hrest as [_ Hrest'].
    exact (IH rest' _ ltac:(cbn [length] in Hle; lia) Hrest'). }
  destruct (String.eqb arg "-f" || String.eqb arg "--fullscreen").
  { exact (IH rest _ ltac:(lia) Hrest). }
  rewrite (string_eqb_false arg "--fps") by done.
  destruct (String.eqb arg "-h" || String.eqb arg "--help"); [done|].
  destruct (String.eqb (opt_directoryPath o) EmptyString);
    exact (IH rest _ ltac:(lia) Hrest).
Qed.

Lemma frame_rate_only_from_fps_option_witness :
  parse_arguments (fun _ => None) ["-f"; "shots"; "--directory"; "more"] options_default
  = parse_arguments (fun _ => Some 7) ["-f"; "shots"; "--directory"; "more"]
      options_default
  /\ parse_arguments (fun _ => None) ["-f"; "shots"; "--directory"; "more"]
       options_default <> Stoi_threw.
Proof.
  pose proof (frame_rate_only_from_fps_option (fun _ => None) (fun _ => Some 7)
                ["-f"; "shots"; "--directory"; "more"] options_default) as H.
  destruct H as (H1 & H2 & _); [|by split].
  rewrite !not_elem_of_cons. repeat split; try discriminate.
  apply not_elem_of_nil.
Defined.

(** X11.  What parsing keeps.  The fullscreen flag is only ever set, never
    cleared; and a directory that is already chosen is not displaced by a
    positional argument: unless a [-d] or [--directory] follows, the
    directory stays what it is, so of several positional arguments only the
    first counts and the others are dropped without a word. *)
Theorem parsing_keeps_directory_and_fullscreen (stoi : string -> option Z)
    (args : list string) (o o' : options) :
  parse_arguments stoi args o = Parsed o' ->
  (opt_fullscreen o = true -> opt_fullscreen o' = true)
  /\ (opt_directoryPath o <> EmptyString -> "-d" ∉ args -> "--directory" ∉ args ->
      opt_directoryPath o' = opt_directoryPath o).
Proof.
  assert (Hle : (length args <= length args)%nat) by lia. revert Hle.
  generalize (length args) at 2. intros n. revert args o.
  induction n as [|n IH]; intros args o Hle;
    (destruct args as [|arg rest]; [by intros [= <-]|]);
    cbn [length] in Hle; [lia|].
  cbn [parse_arguments].
  destruct (String.eqb arg "-d" || String.eqb arg "--directory") eqn:Ed.
  { destruct rest as [|value rest']; [by intros [= <-]|].
    intros H. destruct (IH rest' _ ltac:(cbn [length] in Hle; lia) H) as [Hf _].
    split; [exact Hf|]. intros _ Hd Hdir. exfalso.
    apply not_elem_of_cons in Hd as [Hd _].
    apply not_elem_of_cons in Hdir as [Hdir _].
    apply orb_true_iff in Ed as [E|E]; by apply String.eqb_eq in E. }
  destruct (String.eqb arg "-f" || String.eqb arg "--fullscreen").
  { intros H. destruct (IH rest _ ltac:(lia) H) as [Hf Hd].
    split; [by intros _; apply Hf|]. intros Hne Hd1 Hd2.
    apply not_elem_of_cons in Hd1 as [_ Hd1].
    apply not_elem_of_cons in Hd2 as [_ Hd2]. by apply Hd. }
  destruct (String.eqb arg "--fps").
  { destruct rest as [|value rest']; [by intros [= <-]|].
    destruct (stoi value) as [fps|]; [|done].
    intros H. destruct (IH rest' _ ltac:(cbn [length] in Hle; lia) H) as [Hf Hd].
    split; [exact Hf|]. intros Hne Hd1 Hd2.
    apply not_elem_of_cons in Hd1 as [_ Hd1].
    apply not_elem_of_cons in Hd2 as [_ Hd2].
    apply not_elem_of_cons in Hd1 as [_ Hd1].
    apply not_elem_of_cons in Hd2 as [_ Hd2]. by apply Hd. }
  destruct (String.eqb arg "-h" || String.eqb arg "--help"); [done|].
  destruct (String.eqb (opt_directoryPath o) EmptyString) eqn:Ee.
  - intros H. destruct (IH rest _ ltac:(lia) H) as [Hf Hd].
    split; [exact Hf|]. intros Hne. by apply String.eqb_eq in Ee.
  - intros H. destruct (IH rest _ ltac:(lia) H) as [Hf Hd].
    split; [exact Hf|]. intros Hne Hd1 Hd2.
    apply not_elem_of_cons in Hd1 as [_ Hd1].
    apply not_elem_of_cons in Hd2 as [_ Hd2]. by apply Hd.
Qed.

Lemma parsing_keeps_directory_and_fullscreen_witness :
  exists o',
    parse_arguments (fun _ => Some 60) ["shots"; "--fps"; "60"; "other"; "-f"; "third"]
      options_default = Parsed o'
    /\ opt_directoryPath o' = "shots" /\ opt_fullscreen o' = true
    /\ opt_fps o' = 60.
Proof.
  eexists. split; [reflexivity|]. split; [|done].
  (* after the first positional argument the directory is chosen *)
  apply (proj2 (parsing_keeps_directory_and_fullscreen (fun _ => Some 60)
                  ["--fps"; "60"; "other"; "-f"; "third"]
                  {| opt_directoryPath := "shots"; opt_fullscreen := false;
                     opt_fps := 240 |} _ eq_refl)).
  - discriminate.
  - rewrite !not_elem_of_cons. repeat split; try discriminate.
    apply not_elem_of_nil.
  - rewrite !not_elem_of_cons. repeat split; try discriminate.
    apply not_elem_of_nil.
Defined.

(** ** cleanup *)

Lemma free_textures_spec texs :
  free_textures texs
  = (replicate (length texs) None, map SDL_DestroyTexture (omap id texs)).
Proof.
  induction texs as [|[tex|] texs IH]; [done|..]; cbn [free_textures];
    rewrite IH; reflexivity.
Qed.

Lemma cleanup_spec v :
  cleanup v
  = (set_window false
       (set_renderer false
          (set_textures (replicate (length (textures v)) None) v)),
     releases v).
Proof.
  unfold cleanup, releases, held_textures. rewrite free_textures_spec.
  cbn [renderer window set_textures set_renderer].
  destruct v as [win ren paths texs i run play fps full ww wh].
  cbn [renderer window textures].
  by destruct ren, win.
Qed.

Lemma omap_replicate_None {A} (n : nat) :
  omap id (replicate n (@None A)) = [].
Proof. induction n; [done|]. by cbn. Qed.

(** X12.  [cleanup] gives back everything the viewer holds, each thing once:
    it destroys every texture that is not null, in the order of the slots,
    then the renderer if there is one, then the window if there is one, and
    then quits SDL_image and SDL (also when they were never started).
    Afterwards the window, the renderer and every texture slot are null; the
    slots and the paths themselves stay, and so do the index, the flags and
    the sizes. *)
Theorem cleanup_releases_everything_once (v : TimelapseViewer) :
  let '(v', out) := cleanup v in
  out = map SDL_DestroyTexture (held_textures v)
        ++ (if renderer v then [SDL_DestroyRenderer] else [])
        ++ (if window v then [SDL_DestroyWindow] else [])
        ++ [IMG_Quit; SDL_Quit]
  /\ window v' = false /\ renderer v' = false
  /\ textures v' = replicate (length (textures v)) None
  /\ held_textures v' = []
  /\ imagePaths v' = imagePaths v /\ currentIndex v' = currentIndex v
  /\ running v' = running v /\ playing v' = playing v
  /\ targetFPS v' = targetFPS v
  /\ windowWidth v' = windowWidth v /\ windowHeight v' = windowHeight v.
Proof.
  rewrite cleanup_spec. split; [done|]. unfold held_textures.
  cbn [window renderer textures imagePaths currentIndex running playing
       targetFPS windowWidth windowHeight set_window set_renderer set_textures].
  by rewrite omap_replicate_None.
Qed.

(** X13.  Nothing is destroyed twice, and a viewer that was cleaned up is
    inert.  A second [cleanup] (the destructor after an explicit call, say)
    changes nothing and destroys nothing: it only quits the two libraries
    again.  After [cleanup], [run] refuses to start, and
    [renderCurrentFrame] draws nothing, whatever the index. *)
Theorem cleanup_twice_destroys_nothing (v : TimelapseViewer) :
  let v' := fst (cleanup v) in
  cleanup v' = (v', [IMG_Quit; SDL_Quit])
  /\ (forall now1 now2 turns,
        run now1 now2 turns v' = (Some (run_entry now1 now2 v', []), [Cannot_run]))
  /\ (forall i,
        0 <= i ->
        renderCurrentFrame (set_currentIndex i v')
        = Some (set_currentIndex i v', [])).
Proof.
  cbv zeta. rewrite (cleanup_spec v). cbn [fst].
  set (v' := set_window false _). split; [|split].
  - rewrite (cleanup_spec v'). unfold releases, held_textures. subst v'.
    cbn [window renderer textures set_window set_renderer set_textures].
    rewrite omap_replicate_None, length_replicate. reflexivity.
  - intros now1 now2 turns. unfold run. subst v'.
    cbn [window set_window negb]. by rewrite orb_true_r.
  - intros i Hi. unfold renderCurrentFrame.
    change (textures (set_currentIndex i v'))
      with (replicate (length (textures v)) (@None SDL_Texture)).
    change (currentIndex (set_currentIndex i v')) with i.
    destruct (_ <=? i) eqn:E; [done|]. unfold Cxx.at_index.
    destruct (i <? 0) eqn:E0.
    + apply Z.ltb_lt in E0. lia.
    + apply Z.leb_gt in E. unfold Cxx.size in E. rewrite length_replicate in E.
      rewrite lookup_replicate_2 by lia. done.
Qed.

Lemma cleanup_twice_destroys_nothing_witness :
  let v' := fst (cleanup three_frames_shown) in
  snd (cleanup three_frames_shown)
  = [SDL_DestroyTexture {| texture_w := 4000; texture_h := 3000 |};
     SDL_DestroyTexture {| texture_w := 640; texture_h := 480 |};
     SDL_DestroyRenderer; SDL_DestroyWindow; IMG_Quit; SDL_Quit]
  /\ cleanup v' = (v', [IMG_Quit; SDL_Quit])
  /\ renderCurrentFrame (set_currentIndex 2 v') = Some (set_currentIndex 2 v', []).
Proof.
  split; [reflexivity|]. split.
  - exact (proj1 (cleanup_twice_destroys_nothing three_frames_shown)).
  - apply (proj2 (proj2 (cleanup_twice_destroys_nothing three_frames_shown))).
    lia.
Defined.

(** ** main *)

Lemma initialize_default_failure fs_status IMG_Load
    SDL_CreateTextureFromSurface env directoryPath fullscreenMode fps v' err :
  initialize fs_status IMG_Load SDL_CreateTextureFromSurface env
    directoryPath fullscreenMode fps TimelapseViewer_default = (false, v', err) ->
  (exists line, err = [line] /\ is_decode_warning line = false
                /\ line <> Cannot_run)
  /\ textures v' = [].
Proof.
  unfold initialize.
  destruct (SDL_Init env <? 0); [intros [= <- <-]; split; [by eexists|done]|].
  destruct (Z.land _ _ =? 0); [intros [= <- <-]; split; [by eexists|done]|].
  cbn [window renderer].
  destruct (SDL_CreateWindow env); cbn [negb];
    [|intros [= <- <-]; split; [by eexists|done]].
  destruct (SDL_CreateRenderer env); cbn [negb];
    [|intros [= <- <-]; split; [by eexists|done]].
  rewrite loadImagesFromDirectory_fresh by done.
  destruct (fs_status directoryPath) as [[|entries|]|];
    try (intros [= <- <-]; split; [by eexists|done]).
  destruct (sources fs_status directoryPath) as [|q sorted];
    [intros [= <- <-]; split; [by eexists|done]|discriminate].
Qed.

Lemma decode_warnings_only IMG_Load SDL_CreateTextureFromSurface paths :
  Forall (fun line => is_decode_warning line = true)
    (concat (map (decode_warning IMG_Load SDL_CreateTextureFromSurface) paths)).
Proof.
  induction paths as [|p paths IH]; [constructor|]. cbn [map concat].
  apply Forall_app. split; [|done]. unfold decode_warning.
  destruct (IMG_Load p) as [surface|]; [|by repeat constructor].
  destruct (SDL_CreateTextureFromSurface surface); by repeat constructor.
Qed.

Lemma omap_id_map {A B} (f : A -> option B) (l : list A) :
  omap id (map f l) = omap f l.
Proof.
  induction l as [|a l IH]; [done|]. simpl.
  change (list_omap (option B) B id (map f l)) with (omap id (map f l)).
  by rewrite IH.
Qed.

Lemma releases_same_setup v v' :
  same_setup v v' -> releases v' = releases v.
Proof.
  intros (Hw & Hr & _ & Ht & _). unfold releases, held_textures.
  by rewrite Hw, Hr, Ht.
Qed.

Lemma run_initialized now1 now2 turns env fullscreenMode fps paths texs :
  paths <> [] ->
  run now1 now2 turns (initialized env fullscreenMode fps paths texs)
  = (run_loop turns
       (run_entry now1 now2 (initialized env fullscreenMode fps paths texs)),
     []).
Proof.
  intros Hne. unfold run. cbn [imagePaths window renderer initialized negb].
  by rewrite bool_decide_eq_false_2.
Qed.


(** With a frame rate of zero, a paused viewer that is running meets the
    division by zero in the first turn that leaves it playing; the turns
    before it, if they are defined at all, only sleep. *)
Lemma run_loop_zero_frame_rate before : forall s events currentTime rest,
  targetFPS (viewer s) = 0 ->
  running (viewer s) = true -> playing (viewer s) = false ->
  Forall (fun turn => existsb is_quit (fst turn) = false) before ->
  Forall (fun turn => Nat.odd (length (List.filter is_toggle (fst turn)))
                      = false) before ->
  Nat.odd (length (List.filter is_toggle events)) = true ->
  run_loop (before ++ (events, currentTime) :: rest) s = None.
Proof.
  induction before as [|[ev t0] before IH];
    intros s events currentTime rest Hfps Hrun Hp Hq Ht Hodd.
  - cbn [app run_loop]. rewrite Hrun. unfold loop_iteration.
    destruct (poll_events events (viewer s)) as [[v1 out1]|] eqn:Hpoll;
      [|done].
    cbn [mbind option_bind].
    destruct (poll_events_any _ _ _ _ Hpoll) as (Hs & _ & Hp1 & _).
    rewrite Hp1, Hp, Hodd. cbn [xorb]. unfold update_frame. cbn [viewer].
    destruct Hs as (_ & _ & _ & _ & -> & _). by rewrite Hfps.
  - apply Forall_cons in Hq as [Hq0 Hq]. apply Forall_cons in Ht as [Ht0 Ht].
    cbn [fst] in Hq0, Ht0.
    cbn [app run_loop]. rewrite Hrun. unfold loop_iteration.
    destruct (poll_events ev (viewer s)) as [[v1 out1]|] eqn:Hpoll; [|done].
    cbn [mbind option_bind].
    destruct (poll_events_any _ _ _ _ Hpoll) as (Hs & Hr1 & Hp1 & _).
    rewrite Hp in Hp1. rewrite Ht0 in Hp1. cbn [xorb] in Hp1.
    rewrite Hrun, Hq0 in Hr1. cbn [negb andb] in Hr1.
    rewrite Hp1. cbn [mbind option_bind].
    rewrite IH; [done|..]; cbn [viewer]; try done.
    destruct Hs as (_ & _ & _ & _ & -> & _). done.
Qed.

Section MainFacts.

Variable stoi : string -> option Z.
Variable fs_status : string -> option fs_node.
Variable IMG_Load : string -> option SDL_Surface.
Variable SDL_CreateTextureFromSurface : SDL_Surface -> option SDL_Texture.
Variable env : sdl_env.

Local Abbreviation main_ :=
  (main stoi fs_status IMG_Load SDL_CreateTextureFromSurface env).
Local Abbreviation initialize_ :=
  (initialize fs_status IMG_Load SDL_CreateTextureFromSurface env).

(** [main], case by case. *)
Lemma main_cases args input now1 now2 turns :
  match parse_arguments stoi args options_default with
  | Usage_shown => main_ args input now1 now2 turns = Returned 0 [] [] []
  | Stoi_threw => main_ args input now1 now2 turns = Uncaught_exception
  | Parsed o =>
      let '(ok, v, err) :=
        initialize_ (chosen_directory o input) (opt_fullscreen o) (opt_fps o)
          TimelapseViewer_default in
      if ok then
        Forall (fun line => is_decode_warning line = true) err
        /\ match run_loop turns (run_entry now1 now2 v) with
           | None => main_ args input now1 now2 turns = Undefined_behaviour
           | Some (s, screen) =>
               same_setup v (viewer s)
               /\ main_ args input now1 now2 turns
                  = if running (viewer s) then Still_running screen
                    else Returned 0 (map Viewer_says err) screen (releases v)
           end
      else
        exists line,
          err = [line] /\ is_decode_warning line = false
          /\ line <> Cannot_run
          /\ main_ args input now1 now2 turns
             = Returned 1 [Viewer_says line; Failed_to_initialize_viewer] []
                 (releases v)
  end.
Proof.
  unfold main. destruct (parse_arguments stoi args options_default) as [o| |];
    [|done..].
  fold (chosen_directory o input).
  destruct (initialize_ _ _ _ _) as [[[|] v] err] eqn:Hinit; cbn [negb].
  - destruct (initialize_default_success _ _ _ _ _ _ _ _ _ Hinit)
      as (Hne & -> & ->).
    split; [apply decode_warnings_only|].
    rewrite run_initialized by done.
    destruct (run_loop _ _) as [[s screen]|] eqn:Hrun; [|done].
    destruct (run_loop_any _ _ _ _ Hrun) as (Hs & _). split; [exact Hs|].
    cbn [run_returned]. destruct (running (viewer s)); cbn [negb]; [done|].
    rewrite app_nil_r. unfold destructor. rewrite cleanup_spec. cbn [snd].
    by rewrite (releases_same_setup _ _ Hs).
  - destruct (initialize_default_failure _ _ _ _ _ _ _ _ _ Hinit)
      as ((line & -> & Hw & Hc) & Ht).
    exists line. split; [done|]. split; [done|]. split; [done|].
    unfold destructor. by rewrite cleanup_spec.
Qed.


(** X15.  [main] gives back what [initialize] took.  Whenever [main]
    returns after the viewer was constructed, with either status and
    whatever the loop did in between, the destructor has destroyed exactly
    the textures, the renderer and the window that [initialize] left in the
    viewer, each once and in that order, and quit the two libraries.  After
    a successful start these are the textures of the sources that decoded,
    the renderer and the window. *)
Theorem main_gives_back_what_it_took (args : list string) (input : string)
    (now1 now2 : Z) (turns : list (list SDL_Event * Z)) (o : options)
    (status : Z) (cerr : list main_cerr_line) (screen : list sdl_call)
    (teardown : list teardown_call) :
  parse_arguments stoi args options_default = Parsed o ->
  main_ args input now1 now2 turns = Returned status cerr screen teardown ->
  let directoryPath := chosen_directory o input in
  teardown
  = releases (snd (fst (initialize_ directoryPath (opt_fullscreen o)
                          (opt_fps o) TimelapseViewer_default)))
  /\ (status = 0 ->
      teardown
      = map SDL_DestroyTexture
          (omap (decode IMG_Load SDL_CreateTextureFromSurface)
                (sources fs_status directoryPath))
        ++ [SDL_DestroyRenderer; SDL_DestroyWindow; IMG_Quit; SDL_Quit]).
Proof.
  intros Hparse. pose proof (main_cases args input now1 now2 turns) as Hc.
  rewrite Hparse in Hc. cbv zeta.
  destruct (initialize_ _ _ _ _) as [[[|] v] err] eqn:Hinit; cbn [fst snd].
  - destruct Hc as [_ Hc].
    destruct (run_loop _ _) as [[s scr]|]; [|by rewrite Hc].
    destruct Hc as [_ ->]. destruct (running (viewer s)); [done|].
    intros [= <- <- <- <-]. split; [done|]. intros _.
    destruct (initialize_default_success _ _ _ _ _ _ _ _ _ Hinit)
      as (_ & -> & _).
    unfold releases, held_textures. cbn [textures renderer window initialized].
    by rewrite omap_id_map.
  - destruct Hc as (line & _ & _ & _ & ->). by intros [= <- <- <- <-].
Qed.

(** X16.  A frame rate of zero is taken without a word and breaks the first
    turn that plays.  When the command line sets the frame rate to 0 and
    the viewer starts, the first turn of the loop in which the space bar is
    pressed an odd number of times divides by zero, however many turns have
    gone before it without a quit event and with an even number of presses
    (zero, say) each: the behaviour of the program is undefined from there
    on, whatever follows. *)
Theorem zero_frame_rate_breaks_playback (args : list string) (input : string)
    (now1 now2 : Z) (before : list (list SDL_Event * Z))
    (events : list SDL_Event) (currentTime : Z)
    (rest : list (list SDL_Event * Z)) (o : options) :
  parse_arguments stoi args options_default = Parsed o ->
  opt_fps o = 0 ->
  fst (fst (initialize_ (chosen_directory o input) (opt_fullscreen o)
              (opt_fps o) TimelapseViewer_default)) = true ->
  Forall (fun turn => existsb is_quit (fst turn) = false) before ->
  Forall (fun turn => Nat.odd (length (List.filter is_toggle (fst turn)))
                      = false) before ->
  Nat.odd (length (List.filter is_toggle events)) = true ->
  main_ args input now1 now2 (before ++ (events, currentTime) :: rest)
  = Undefined_behaviour.
Proof.
  intros Hparse Hfps Hok Hq Ht Hodd.
  pose proof (main_cases args input now1 now2
                (before ++ (events, currentTime) :: rest)) as Hc.
  rewrite Hparse in Hc.
  destruct (initialize_ _ _ _ _) as [[ok v] err] eqn:Hinit.
  cbn [fst] in Hok. subst ok. destruct Hc as [_ Hc].
  destruct (initialize_default_success _ _ _ _ _ _ _ _ _ Hinit)
    as (_ & Hv & _).
  rewrite run_loop_zero_frame_rate in Hc; try done;
    cbn [viewer run_entry]; rewrite Hv; cbn [targetFPS running playing
                                             initialized]; done.
Qed.

End MainFacts.


Lemma main_gives_back_what_it_took_witness :
  let teardown :=
    [SDL_DestroyTexture {| texture_w := 4000; texture_h := 3000 |};
     SDL_DestroyTexture {| texture_w := 4000; texture_h := 3000 |};
     SDL_DestroyTexture {| texture_w := 4000; texture_h := 3000 |};
     SDL_DestroyTexture {| texture_w := 4000; texture_h := 3000 |};
     SDL_DestroyRenderer; SDL_DestroyWindow; IMG_Quit; SDL_Quit] in
  main sample_stoi shots_fs (decoder_failing_on ["shots/0002.JPG"])
    texture_of_surface working_sdl ["-f"; "shots"] EmptyString 0 0
    [([StepBackward], ms 5); ([SDL_QUIT], ms 20)]
  = Returned 0 [Viewer_says (Unable_to_load_image "shots/0002.JPG")]
      (frame_calls {| texture_w := 4000; texture_h := 3000 |}
                   {| x := 160; y := 0; w := 960; h := 720 |}
       ++ [SDL_Delay 10; SDL_Delay 10])
      teardown
  /\ teardown
     = map SDL_DestroyTexture
         (omap (decode (decoder_failing_on ["shots/0002.JPG"]) texture_of_surface)
               (sources shots_fs "shots"))
       ++ [SDL_DestroyRenderer; SDL_DestroyWindow; IMG_Quit; SDL_Quit].
Proof.
  cbv zeta. split; [vm_compute; reflexivity|].
  exact (proj2 (main_gives_back_what_it_took sample_stoi shots_fs
                  (decoder_failing_on ["shots/0002.JPG"])
                  texture_of_surface working_sdl ["-f"; "shots"] EmptyString 0 0
                  [([StepBackward], ms 5); ([SDL_QUIT], ms 20)]
                  {| opt_directoryPath := "shots"; opt_fullscreen := true;
                     opt_fps := 240 |}
                  0 [Viewer_says (Unable_to_load_image "shots/0002.JPG")]
                  (frame_calls {| texture_w := 4000; texture_h := 3000 |}
                               {| x := 160; y := 0; w := 960; h := 720 |}
                   ++ [SDL_Delay 10; SDL_Delay 10])
                  _ eq_refl ltac:(vm_compute; reflexivity)) eq_refl).
Defined.

Lemma zero_frame_rate_breaks_playback_witness :
  main sample_stoi shots_fs (decoder_failing_on ["shots/0002.JPG"])
    texture_of_surface working_sdl ["--fps"; "0"; "shots"] EmptyString 0 0
    ([([], ms 5); ([StepBackward], ms 15); ([ToggleOnOff; ToggleOnOff], ms 25)]
     ++ ([StepForward; ToggleOnOff], ms 35) :: [([SDL_QUIT], ms 45)])
  = Undefined_behaviour.
Proof.
  apply (zero_frame_rate_breaks_playback sample_stoi shots_fs
           (decoder_failing_on ["shots/0002.JPG"]) texture_of_surface
           working_sdl ["--fps"; "0"; "shots"] EmptyString 0 0
           [([], ms 5); ([StepBackward], ms 15);
            ([ToggleOnOff; ToggleOnOff], ms 25)]
           [StepForward; ToggleOnOff] (ms 35) [([SDL_QUIT], ms 45)]
           {| opt_directoryPath := "shots"; opt_fullscreen := false;
              opt_fps := 0 |});
    try reflexivity;
    repeat (apply List.Forall_cons; [reflexivity|]); apply List.Forall_nil.
Defined.

(** ** Pauses and the measured rate *)

Lemma run_loop_app turns1 : forall turns2 s s1 out1,
  run_loop turns1 s = Some (s1, out1) ->
  running (viewer s1) = true ->
  run_loop (turns1 ++ turns2) s
  = '(s2, out2) ← run_loop turns2 s1; Some (s2, out1 ++ out2).
Proof.
  induction turns1 as [|[events t] turns1 IH]; intros turns2 s s1 out1 H Hrun.
  - injection H as <- <-. cbn [app]. by destruct (run_loop turns2 s) as [[]|].
  - cbn [app run_loop] in *. destruct (running (viewer s)) eqn:Hr.
    2:{ injection H as <- <-. congruence. }
    destruct (loop_iteration events t s) as [[sa outa]|]; [|done].
    cbn [mbind option_bind] in *.
    destruct (run_loop turns1 sa) as [[sb outb]|] eqn:Hb; [|done].
    cbn [mbind option_bind] in H. injection H as <- <-.
    rewrite (IH turns2 sa sb outb Hb Hrun).
    destruct (run_loop turns2 sb) as [[sc outc]|]; cbn [mbind option_bind];
      [|done].
    by rewrite app_assoc.
Qed.

(** X17.  A pause does not restart the measurement of the frame rate.  While
    the viewer is paused the counter and the start of the measurement
    window stay as they are, so when playback is resumed at least a second
    after that start, the very turn that resumes sets a title: the frames
    counted before the pause (and the one of this turn, if one is due)
    divided by the whole seconds since the start of the window, the pause
    included. *)
Theorem pause_counts_in_measured_rate (times : list Z) (currentTime : Z)
    (s : run_state) :
  running (viewer s) = true ->
  playing (viewer s) = false ->
  targetFPS (viewer s) <> 0 ->
  sequence_ok (viewer s) ->
  index_in_range (viewer s) ->
  sizes_ok (viewer s) ->
  1 <= seconds (currentTime - fpsTimer s) ->
  let counted :=
    if msPerFrame (viewer s) <=? milliseconds (currentTime - lastFrameTime s)
    then Cxx.int_wrap (frameCount s + 1) else frameCount s in
  exists s' drawn,
    run_loop (idle_turns times ++ [([ToggleOnOff], currentTime)]) s
    = Some (s', repeat (SDL_Delay 10) (length times) ++ drawn
                ++ [SDL_SetWindowTitle
                      (window_title
                         (Z.quot counted (seconds (currentTime - fpsTimer s))))])
    /\ (forall title, SDL_SetWindowTitle title ∉ drawn)
    /\ playing (viewer s') = true
    /\ frameCount s' = 0 /\ fpsTimer s' = currentTime.
Proof.
  intros Hrun Hp HF Hseq Hi Hsz Hsec counted.
  rewrite (run_loop_app _ _ _ _ _ (run_loop_idle_paused times s Hrun Hp) Hrun).
  cbn [run_loop]. rewrite Hrun. unfold loop_iteration.
  cbn [poll_events handle_event ToggleOnOff mbind option_bind].
  rewrite Hp. cbn [negb playing set_playing app].
  set (s1 := {| viewer := set_playing true (viewer s);
                lastFrameTime := lastFrameTime s;
                frameCount := frameCount s; fpsTimer := fpsTimer s |}).
  destruct (update_frame_spec currentTime s1) as (drawn & Hu & Hd); try done.
  { change (frames_renderable (viewer s1)) with (frames_renderable (viewer s)).
    by apply sizes_ok_renderable. }
  rewrite Hu. cbn [mbind option_bind].
  assert (Hw : window_closes currentTime s1 = true).
  { unfold window_closes. cbn [fpsTimer s1]. by apply Z.leb_le. }
  rewrite Hw. unfold reported_title, updated. rewrite Hw.
  cbn [viewer frameCount fpsTimer s1].
  change (frame_due currentTime s1)
    with (msPerFrame (viewer s) <=? milliseconds (currentTime - lastFrameTime s)).
  fold counted.
  rewrite app_nil_r.
  eexists _, (if msPerFrame (viewer s) <=? _ then drawn else []).
  split; [reflexivity|]. split; [|split; [|done]].
  - intros title. destruct (msPerFrame (viewer s) <=? _) eqn:Hdue.
    + eapply renderCurrentFrame_sets_no_title. apply Hd.
      unfold frame_due. exact Hdue.
    + apply not_elem_of_nil.
  - by destruct (msPerFrame (viewer s) <=? _).
Qed.

Lemma pause_counts_in_measured_rate_witness :
  let s := {| viewer := three_frames; lastFrameTime := ms 900;
              frameCount := 200; fpsTimer := 0 |} in
  exists s' drawn,
    run_loop (idle_turns [ms 1000; ms 60000] ++ [([ToggleOnOff], ms 100000)]) s
    = Some (s', [SDL_Delay 10; SDL_Delay 10] ++ drawn
                ++ [SDL_SetWindowTitle "High-Speed Timelapse Viewer - 2 FPS"])
    /\ frameCount s' = 0 /\ fpsTimer s' = ms 100000.
Proof.
  cbv zeta.
  destruct (pause_counts_in_measured_rate [ms 1000; ms 60000] (ms 100000)
              {| viewer := three_frames; lastFrameTime := ms 900;
                 frameCount := 200; fpsTimer := 0 |})
    as (s' & drawn & H & _ & _ & Hc & Ht);
    [reflexivity | reflexivity | discriminate | sequence_ok_concrete
    | index_in_range_concrete | sizes_ok_concrete | vm_compute; discriminate |].
  exists s', drawn. split; [exact H|]. by split.
Defined.

(** ** The frame interval, below zero *)

(** X18.  A negative frame rate is taken as it is and means no pacing at all:
    the interval [1000 / targetFPS] is then zero or negative, and every
    update whose clock reading is not before the time of the last frame
    advances the index by one frame. *)
Theorem negative_frame_rate_is_unthrottled (s : run_state) (currentTime : Z) :
  targetFPS (viewer s) < 0 ->
  sequence_ok (viewer s) ->
  index_in_range (viewer s) ->
  sizes_ok (viewer s) ->
  lastFrameTime s <= currentTime ->
  msPerFrame (viewer s) <= 0
  /\ exists s' out,
       update_frame currentTime s = Some (s', out)
       /\ currentIndex (viewer s')
          = (currentIndex (viewer s) + 1) mod frame_total (viewer s)
       /\ lastFrameTime s' = currentTime.
Proof.
  intros HF Hseq Hi Hsz Ht.
  assert (Hms : msPerFrame (viewer s) <= 0).
  { unfold msPerFrame. rewrite <- (Z.opp_involutive (targetFPS (viewer s))).
    rewrite Z.quot_opp_r by lia.
    pose proof (Z.quot_pos 1000 (- targetFPS (viewer s))). lia. }
  split; [done|].
  destruct (update_frame_spec currentTime s) as (drawn & Hu & _); try done.
  { lia. } { by apply sizes_ok_renderable. }
  eexists _, _. split; [exact Hu|].
  assert (Hdue : frame_due currentTime s = true).
  { unfold frame_due. apply Z.leb_le.
    assert (0 <= milliseconds (currentTime - lastFrameTime s)).
    { unfold milliseconds. apply Z.quot_pos; lia. }
    lia. }
  unfold updated. rewrite Hdue. done.
Qed.

Lemma negative_frame_rate_is_unthrottled_witness :
  exists s' out,
    update_frame 0
      {| viewer := {| window := false; renderer := false;
                      imagePaths := imagePaths three_frames;
                      textures := textures three_frames;
                      currentIndex := 2; running := true; playing := true;
                      targetFPS := -25; fullscreen := false;
                      windowWidth := 1280; windowHeight := 720 |};
         lastFrameTime := 0; frameCount := 0; fpsTimer := 0 |}
    = Some (s', out)
    /\ currentIndex (viewer s') = 0 /\ lastFrameTime s' = 0.
Proof.
  cbv zeta.
  apply (negative_frame_rate_is_unthrottled
           {| viewer := {| window := false; renderer := false;
                           imagePaths := imagePaths three_frames;
                           textures := textures three_frames;
                           currentIndex := 2; running := true; playing := true;
                           targetFPS := -25; fullscreen := false;
                           windowWidth := 1280; windowHeight := 720 |};
              lastFrameTime := 0; frameCount := 0; fpsTimer := 0 |} 0).
  - simpl. lia.
  - sequence_ok_concrete.
  - index_in_range_concrete.
  - sizes_ok_concrete.
  - simpl. lia.
Defined.

(** ** Drawing in an empty window *)

Lemma render_rect_empty_window (ww wh tw th : Z) :
  0 <= ww <= WINDOW_LIMIT -> 0 <= wh <= WINDOW_LIMIT ->
  0 < tw <= Cxx.INT_MAX -> 0 < th <= Cxx.INT_MAX ->
  ww = 0 \/ wh = 0 ->
  render_rect ww wh tw th
  = Some {| x := Z.quot ww 2; y := Z.quot wh 2; w := 0; h := 0 |}.
Proof.
  intros Hww Hwh Htw Hth Hzero. unfold render_rect.
  destruct (of_int_texture tw Htw) as (dw & Hdw & Hnw).
  destruct (of_int_texture th Hth) as (dh & Hdh & Hnh).
  set (scale := Float32.min _ _).
  assert (Hs : scale = S754_zero false).
  { subst scale.
    destruct (scale_component ww tw dw Hww Hdw Hnw) as [Hx|Hx];
      destruct (scale_component wh th dh Hwh Hdh Hnh) as [Hy|Hy].
    - rewrite Hx, Hy. reflexivity.
    - rewrite Hx. apply min_zero_l. right. by eexists _, _.
    - rewrite Hy. apply min_zero_r. by eexists _, _.
    - exfalso. destruct Hzero as [-> | ->].
      + destruct Hnw as (m & e & Hf & _). rewrite Hf in Hx.
        by destruct Hx as (m' & e' & ? & _).
      + destruct Hnh as (m & e & Hf & _). rewrite Hf in Hy.
        by destruct Hy as (m' & e' & ? & _). }
  rewrite Hs, (to_int_mul_zero _ _ _ Hnw), (to_int_mul_zero _ _ _ Hnh).
  cbn [mbind option_bind]. rewrite !Z.sub_0_r.
  unfold WINDOW_LIMIT in *.
  assert (2 ^ 24 <= Cxx.INT_MAX) by (unfold Cxx.INT_MAX; lia).
  rewrite !int_wrap_small by (unfold Cxx.INT_MIN in *; lia).
  by rewrite !int_div_nonzero.
Qed.

(** X19.  In a window that is zero pixels wide or zero pixels high nothing
    of a frame is visible: the scale is zero, the rectangle is empty (both
    sides are 0) and it sits at the centre of the window; no division and
    no conversion is undefined on the way. *)
Theorem empty_window_empty_rectangle (ww wh tw th : Z) :
  0 <= ww <= WINDOW_LIMIT -> 0 <= wh <= WINDOW_LIMIT ->
  0 < tw <= Cxx.INT_MAX -> 0 < th <= Cxx.INT_MAX ->
  ww = 0 \/ wh = 0 ->
  render_rect ww wh tw th
  = Some {| x := Z.quot ww 2; y := Z.quot wh 2; w := 0; h := 0 |}.
Proof. apply render_rect_empty_window. Qed.

Lemma empty_window_empty_rectangle_witness :
  render_rect 0 720 4000 3000 = Some {| x := 0; y := 360; w := 0; h := 0 |}.
Proof.
  apply (empty_window_empty_rectangle 0 720 4000 3000);
    unfold WINDOW_LIMIT, Cxx.INT_MAX; first [lia | by left].
Defined.

(** ** Binary32 arithmetic: values *)

(** Rounding moves a value by at most one part in [2^23], either way. *)
Lemma binary_round_aux_value (mx : positive) ex lx M :
  24 <= Zpos (digits2_pos mx) ->
  M = Zpos (digits2_pos mx) + ex ->
  -125 <= M <= 126 ->
  0 <= ex + SCALE ->
  exists m e,
    binary_round_aux Float32.prec Float32.emax false (Zpos mx) ex lx
    = S754_finite false m e
    /\ 2 ^ 23 <= Zpos m < 2 ^ 24 /\ M <= e + 24 <= M + 1
    /\ 2 ^ 23 * (Zpos m * 2 ^ (e + SCALE))
       <= (2 ^ 23 + 1) * (Zpos mx * 2 ^ (ex + SCALE))
    /\ 2 ^ 23 * (Zpos mx * 2 ^ (ex + SCALE))
       <= (2 ^ 23 + 1) * (Zpos m * 2 ^ (e + SCALE)).
Proof.
  intros Hd HM Hrange Hex. set (d := Zpos (digits2_pos mx)) in *.
  pose proof (digits2_pos_bounds mx) as Hmx. fold d in Hmx.
  unfold binary_round_aux.
  destruct (shr_fexp_spec (Zpos mx) ex lx) as (mrs1 & H1 & Hm1); [lia|].
  cbn [Zdigits2] in H1, Hm1. fold d in H1, Hm1.
  rewrite fexp_normal in H1, Hm1 by lia.
  replace (Z.max 0 (d + ex - 24 - ex)) with (d - 24) in H1, Hm1 by lia.
  rewrite H1.
  set (m1 := shr_m mrs1) in *.
  set (p := 2 ^ (d - 24)) in *.
  set (E := 2 ^ (ex + SCALE)).
  assert (Hp : 0 < p) by (apply Z.pow_pos_nonneg; lia).
  assert (HE : 0 < E) by (apply Z.pow_pos_nonneg; lia).
  assert (Hb1 : 2 ^ 23 <= m1 < 2 ^ 24).
  { rewrite Hm1. split.
    - apply Z.div_le_lower_bound; [lia|]. unfold p.
      rewrite <- pow2_split by lia.
      replace (d - 24 + 23) with (d - 1) by lia. lia.
    - apply Z.div_lt_upper_bound; [lia|]. unfold p.
      rewrite <- pow2_split by lia.
      replace (d - 24 + 24) with d by lia. lia. }
  assert (Hfloor : m1 * p <= Zpos mx).
  { rewrite Hm1, Z.mul_comm. apply Z.mul_div_le. lia. }
  set (m2 := round_nearest_even m1 (loc_of_shr_record mrs1)).
  assert (Hceil : Zpos mx < (m1 + 1) * p).
  { rewrite Hm1, Z.mul_comm. apply Z.mul_succ_div_gt. lia. }
  assert (Hb2 : m1 <= m2 <= m1 + 1).
  { destruct (round_nearest_even_cases m1 (loc_of_shr_record mrs1)) as [H|H];
      fold m2 in H; lia. }
  assert (Hval : 2 ^ 23 * (m2 * p * E) <= (2 ^ 23 + 1) * (Zpos mx * E)).
  { apply Z.le_trans with ((2 ^ 23 + 1) * (m1 * p * E)).
    - assert (2 ^ 23 * m2 <= (2 ^ 23 + 1) * m1) by lia.
      assert (0 <= p * E) by nia.
      replace (2 ^ 23 * (m2 * p * E)) with ((2 ^ 23 * m2) * (p * E)) by ring.
      replace ((2 ^ 23 + 1) * (m1 * p * E))
        with (((2 ^ 23 + 1) * m1) * (p * E)) by ring.
      by apply Z.mul_le_mono_nonneg_r.
    - apply Z.mul_le_mono_nonneg_l; [lia|].
      apply Z.mul_le_mono_nonneg_r; lia. }
  assert (Hlow : 2 ^ 23 * (Zpos mx * E) <= (2 ^ 23 + 1) * (m2 * p * E)).
  { apply Z.le_trans with ((2 ^ 23 + 1) * (m1 * p * E)).
    - assert (2 ^ 23 * p <= m1 * p) by (apply Z.mul_le_mono_nonneg_r; lia).
      assert (2 ^ 23 * Zpos mx <= (2 ^ 23 + 1) * (m1 * p)) by lia.
      replace (2 ^ 23 * (Zpos mx * E)) with ((2 ^ 23 * Zpos mx) * E) by ring.
      replace ((2 ^ 23 + 1) * (m1 * p * E))
        with (((2 ^ 23 + 1) * (m1 * p)) * E) by ring.
      apply Z.mul_le_mono_nonneg_r; lia.
    - apply Z.mul_le_mono_nonneg_l; [lia|].
      apply Z.mul_le_mono_nonneg_r; [lia|].
      apply Z.mul_le_mono_nonneg_r; lia. }
  assert (Hshift : 2 ^ (ex + (d - 24) + SCALE) = p * E).
  { unfold p, E. rewrite <- pow2_split by lia. f_equal. lia. }
  destruct (shr_fexp_spec m2 (ex + (d - 24)) loc_Exact) as (mrs2 & H2 & Hm2);
    [lia|].
  destruct (Z.eq_dec m2 (2 ^ 24)) as [Heq|Hne].
  - assert (Hd2 : Zdigits2 m2 = 25).
    { apply Zdigits2_unique; [|lia]. rewrite Heq. change (25 - 1) with 24.
      split; [lia|]. apply Z.pow_lt_mono_r; lia. }
    rewrite Hd2 in H2, Hm2. rewrite fexp_normal in H2, Hm2 by lia.
    replace (Z.max 0 (25 + (ex + (d - 24)) - 24 - (ex + (d - 24)))) with 1
      in H2, Hm2 by lia.
    rewrite H2. rewrite Hm2, Heq. change (2 ^ 24 / 2 ^ 1) with (Zpos 8388608).
    destruct (Z.leb_spec (ex + (d - 24) + 1) (Float32.emax - Float32.prec))
      as [_|Hbad]; [|unfold Float32.emax, Float32.prec in Hbad; lia].
    eexists _, _. split; [reflexivity|]. split; [done|]. split; [lia|].
    replace (ex + (d - 24) + 1 + SCALE) with (1 + (ex + (d - 24) + SCALE))
      by lia.
    rewrite pow2_split, Hshift by lia.
    replace (Zpos 8388608 * (2 ^ 1 * (p * E))) with (m2 * p * E)
      by (rewrite Heq; ring).
    by split.
  - assert (Hd2 : Zdigits2 m2 = 24).
    { apply Zdigits2_unique; [|lia]. change (24 - 1) with 23. lia. }
    rewrite Hd2 in H2, Hm2. rewrite fexp_normal in H2, Hm2 by lia.
    replace (Z.max 0 (24 + (ex + (d - 24)) - 24 - (ex + (d - 24)))) with 0
      in H2, Hm2 by lia.
    rewrite H2. rewrite Hm2. rewrite Z.div_1_r.
    destruct m2 as [|q|q] eqn:Hq; try lia.
    destruct (Z.leb_spec (ex + (d - 24) + 0) (Float32.emax - Float32.prec))
      as [_|Hbad]; [|unfold Float32.emax, Float32.prec in Hbad; lia].
    eexists _, _. split; [reflexivity|]. split; [lia|]. split; [lia|].
    rewrite Z.add_0_r, Hshift.
    replace (Zpos q * (p * E)) with (Zpos q * p * E) by ring. by split.
Qed.

(** A mantissa of 24 digits that is exact is left as it is. *)
Lemma binary_round_aux_exact (m : positive) e :
  2 ^ 23 <= Zpos m < 2 ^ 24 -> -149 <= e <= 104 ->
  binary_round_aux Float32.prec Float32.emax false (Zpos m) e loc_Exact
  = S754_finite false m e.
Proof.
  intros Hm He.
  assert (Hshr : shr_fexp Float32.prec Float32.emax (Zpos m) e loc_Exact
                 = ({| shr_m := Zpos m; shr_r := false; shr_s := false |}, e)).
  { unfold shr_fexp. cbn [Zdigits2 shr_record_of_loc].
    rewrite normal_digits by done. rewrite (fexp_normal (24 + e)) by lia.
    by replace (24 + e - 24 - e) with 0 by lia. }
  unfold binary_round_aux. rewrite Hshr.
  cbn [shr_m loc_of_shr_record round_nearest_even]. rewrite Hshr. cbn [shr_m].
  destruct (Z.leb_spec e (Float32.emax - Float32.prec)) as [_|Hbad];
    [done|unfold Float32.emax, Float32.prec in Hbad; lia].
Qed.

(** A window size below [2^24] converts to a float of the very same
    value. *)
Lemma of_int_exact n :
  0 < n < 2 ^ 24 ->
  normal 1 24 (Float32.of_int n) /\ scaled (Float32.of_int n) = n * 2 ^ SCALE.
Proof.
  intros Hn. destruct n as [|p|p]; try lia.
  set (d := Zpos (digits2_pos p)).
  pose proof (digits2_pos_bounds p) as Hp. fold d in Hp.
  assert (Hd : 1 <= d <= 24).
  { split; [unfold d; lia|].
    assert (d - 1 < 24); [|lia]. apply (Z.pow_lt_mono_r_iff 2); lia. }
  unfold Float32.of_int, binary_normalize, binary_round.
  fold d. rewrite fexp_normal by lia. unfold shl_align.
  destruct (d + 0 - 24 - 0) as [|k|k] eqn:Hk; [| lia |].
  - assert (Hd24 : d = 24) by lia. rewrite Hd24 in Hp.
    change (24 - 1) with 23 in Hp.
    rewrite binary_round_aux_exact by (done || lia). split.
    + exists p, 0. split; [done|]. split; [done|]. lia.
    + cbn [scaled]. done.
  - assert (Hpk : Zpos (Pos.iter xO p k) = Zpos p * 2 ^ (24 - d)).
    { rewrite iter_xO_pow2. do 2 f_equal. lia. }
    assert (Hb : 2 ^ 23 <= Zpos (Pos.iter xO p k) < 2 ^ 24).
    { rewrite Hpk. split.
      - replace 23 with ((d - 1) + (24 - d)) by lia.
        rewrite pow2_split by lia. apply Z.mul_le_mono_nonneg_r; lia.
      - replace 24 with (d + (24 - d)) at 2 by lia.
        rewrite pow2_split by lia. apply Z.mul_lt_mono_pos_r; lia. }
    rewrite binary_round_aux_exact by (done || lia). split.
    + eexists _, _. split; [done|]. split; [done|]. lia.
    + cbn [scaled]. rewrite Hpk, <- Z.mul_assoc. f_equal.
      rewrite <- pow2_split by (unfold SCALE; lia). f_equal. lia.
Qed.

Lemma scaled_normal lo hi f :
  normal lo hi f -> -150 <= lo ->
  exists m e, f = S754_finite false m e /\ 2 ^ 23 <= Zpos m < 2 ^ 24
              /\ lo <= e + 24 <= hi /\ scaled f = Zpos m * 2 ^ (e + SCALE)
              /\ 0 < 2 ^ (e + SCALE).
Proof.
  intros (m & e & -> & Hm & He) Hlo. exists m, e. repeat split; try done; try lia.
  apply Z.pow_pos_nonneg; unfold SCALE; lia.
Qed.

(** The quotient of two normal floats, times the divisor, is the dividend
    up to one part in [2^23] above and two below. *)
Lemma div_value a1 a2 b1 b2 f g :
  normal a1 a2 f -> normal b1 b2 g ->
  -100 <= a1 - b2 -> a2 - b1 <= 100 -> -150 <= a1 -> -150 <= b1 ->
  2 ^ 23 * (scaled (Float32.div f g) * scaled g)
  <= (2 ^ 23 + 1) * (scaled f * 2 ^ SCALE)
  /\ 2 ^ 46 * (scaled f * 2 ^ SCALE)
     <= (2 ^ 23 + 1) * ((2 ^ 23 + 1) * (scaled (Float32.div f g) * scaled g)).
Proof.
  intros Hf Hg H1 H2 Ha Hb.
  destruct (scaled_normal _ _ _ Hf Ha) as (mx & ex & -> & Hx & Hex & Hsx & Hpx).
  destruct (scaled_normal _ _ _ Hg Hb) as (my & ey & -> & Hy & Hey & Hsy & Hpy).
  rewrite Hsx, Hsy.
  unfold Float32.div, SFdiv, SFdiv_core_binary.
  cbn [Zdigits2 xorb]. rewrite !normal_digits by done.
  rewrite fexp_normal by lia.
  replace (Z.min (24 + ex - (24 + ey) - 24) (ex - ey)) with (ex - ey - 24)
    by lia.
  replace (ex - ey - (ex - ey - 24)) with 24 by lia.
  rewrite Z.shiftl_mul_pow2 by lia.
  destruct (Z.div_eucl (Zpos mx * 2 ^ 24) (Zpos my)) as [q r] eqn:Hqr.
  assert (Hq : q = Zpos mx * 2 ^ 24 / Zpos my).
  { unfold Z.div. by rewrite Hqr. }
  assert (Hqb : 2 ^ 23 <= q < 2 ^ 25).
  { rewrite Hq. split.
    - apply Z.div_le_lower_bound; [lia|].
      change (2 ^ 24) with (2 * 2 ^ 23). nia.
    - apply Z.div_lt_upper_bound; [lia|].
      change (2 ^ 25) with (2 * 2 ^ 24) at 1. nia. }
  assert (Hqm : q * Zpos my <= Zpos mx * 2 ^ 24).
  { rewrite Hq, Z.mul_comm. apply Z.mul_div_le. lia. }
  assert (Hqc : Zpos mx * 2 ^ 24 < (q + 1) * Zpos my).
  { pose proof (Z.mul_succ_div_gt (Zpos mx * 2 ^ 24) (Zpos my) ltac:(lia))
      as Hc.
    rewrite <- Hq in Hc. lia. }
  destruct q as [|qp|qp]; try lia.
  pose proof (digits2_pos_between qp 23 25 ltac:(lia) Hqb) as Hd.
  destruct (binary_round_aux_value qp (ex - ey - 24)
              (new_location (Zpos my) r)
              (Zpos (digits2_pos qp) + (ex - ey - 24)))
    as (m & e & H & Hm & Hme & Hv & Hv');
    [lia | done | lia | unfold SCALE; lia |].
  rewrite H. cbn [scaled].
  set (R := Zpos m * 2 ^ (e + SCALE)) in *.
  set (Ey := 2 ^ (ey + SCALE)) in *.
  set (Z' := 2 ^ (ex - ey - 24 + SCALE)) in *.
  assert (HEq : 2 ^ 24 * (Z' * Ey) = 2 ^ (ex + SCALE) * 2 ^ SCALE).
  { unfold Ey, Z'. rewrite <- !pow2_split by (unfold SCALE; lia). f_equal. lia. }
  assert (HZ' : 0 < Z') by (apply Z.pow_pos_nonneg; unfold SCALE; lia).
  assert (Hrhs : Zpos mx * 2 ^ (ex + SCALE) * 2 ^ SCALE
                 = (Zpos mx * 2 ^ 24) * (Z' * Ey)).
  { rewrite <- (Z.mul_assoc (Zpos mx) (2 ^ (ex + SCALE))), <- HEq. ring. }
  rewrite Hrhs. split.
  - apply Z.le_trans with ((2 ^ 23 + 1) * (Zpos qp * Z') * (Zpos my * Ey)).
    + replace (2 ^ 23 * (R * (Zpos my * Ey)))
        with (2 ^ 23 * R * (Zpos my * Ey)) by ring.
      apply Z.mul_le_mono_nonneg_r; [nia|done].
    + replace ((2 ^ 23 + 1) * (Zpos qp * Z') * (Zpos my * Ey))
        with ((2 ^ 23 + 1) * ((Zpos qp * Zpos my) * (Z' * Ey))) by ring.
      apply Z.mul_le_mono_nonneg_l; [lia|].
      apply Z.mul_le_mono_nonneg_r; [nia|done].
  - assert (Hrel : 2 ^ 23 * (Zpos mx * 2 ^ 24)
                   <= (2 ^ 23 + 1) * (Zpos qp * Zpos my)).
    { assert (2 ^ 23 * Zpos my <= Zpos qp * Zpos my)
        by (apply Z.mul_le_mono_nonneg_r; lia).
      lia. }
    apply Z.le_trans
      with ((2 ^ 23 + 1) * (2 ^ 23 * (Zpos qp * Z')) * (Zpos my * Ey)).
    + change (2 ^ 46) with (2 ^ 23 * 2 ^ 23).
      replace (2 ^ 23 * 2 ^ 23 * (Zpos mx * 2 ^ 24 * (Z' * Ey)))
        with ((2 ^ 23 * (Zpos mx * 2 ^ 24)) * (2 ^ 23 * (Z' * Ey))) by ring.
      replace ((2 ^ 23 + 1) * (2 ^ 23 * (Zpos qp * Z')) * (Zpos my * Ey))
        with (((2 ^ 23 + 1) * (Zpos qp * Zpos my)) * (2 ^ 23 * (Z' * Ey)))
        by ring.
      apply Z.mul_le_mono_nonneg_r; [nia|done].
    + replace ((2 ^ 23 + 1) * ((2 ^ 23 + 1) * (R * (Zpos my * Ey))))
        with ((2 ^ 23 + 1) * ((2 ^ 23 + 1) * R) * (Zpos my * Ey)) by ring.
      apply Z.mul_le_mono_nonneg_r; [nia|].
      apply Z.mul_le_mono_nonneg_l; [lia|done].
Qed.

(** The product of two normal floats is the exact product up to one part
    in [2^23], either way. *)
Lemma mul_value a1 a2 b1 b2 f g :
  normal a1 a2 f -> normal b1 b2 g ->
  -52 <= a1 + b1 -> a2 + b2 <= 98 -> -150 <= a1 -> -150 <= b1 ->
  2 ^ 23 * (scaled (Float32.mul f g) * 2 ^ SCALE)
  <= (2 ^ 23 + 1) * (scaled f * scaled g)
  /\ 2 ^ 23 * (scaled f * scaled g)
     <= (2 ^ 23 + 1) * (scaled (Float32.mul f g) * 2 ^ SCALE).
Proof.
  intros Hf Hg H1 H2 Ha Hb.
  destruct (scaled_normal _ _ _ Hf Ha) as (mx & ex & -> & Hx & Hex & Hsx & Hpx).
  destruct (scaled_normal _ _ _ Hg Hb) as (my & ey & -> & Hy & Hey & Hsy & Hpy).
  rewrite Hsx, Hsy. unfold Float32.mul, SFmul. cbn [xorb].
  assert (Hbd : 2 ^ 46 <= Zpos (mx * my) < 2 ^ 48).
  { rewrite Pos2Z.inj_mul. change (2 ^ 46) with (2 ^ 23 * 2 ^ 23).
    change (2 ^ 48) with (2 ^ 24 * 2 ^ 24). nia. }
  pose proof (digits2_pos_between (mx * my) 46 48 ltac:(lia) Hbd) as Hd.
  destruct (binary_round_aux_value (mx * my) (ex + ey) loc_Exact
              (Zpos (digits2_pos (mx * my)) + (ex + ey)))
    as (m & e & H & Hm & Hme & Hv & Hv');
    [lia | done | lia | unfold SCALE; lia |].
  rewrite H. cbn [scaled].
  set (R := Zpos m * 2 ^ (e + SCALE)) in *.
  assert (HEq : 2 ^ (ex + ey + SCALE) * 2 ^ SCALE
                = 2 ^ (ex + SCALE) * 2 ^ (ey + SCALE)).
  { rewrite <- !pow2_split by (unfold SCALE; lia). f_equal. lia. }
  assert (0 < 2 ^ SCALE) by (apply Z.pow_pos_nonneg; unfold SCALE; lia).
  assert (Hrhs : Zpos mx * 2 ^ (ex + SCALE) * (Zpos my * 2 ^ (ey + SCALE))
                 = Zpos (mx * my) * 2 ^ (ex + ey + SCALE) * 2 ^ SCALE).
  { rewrite <- (Z.mul_assoc _ (2 ^ (ex + ey + SCALE))), HEq, Pos2Z.inj_mul.
    ring. }
  rewrite Hrhs. split.
  - replace (2 ^ 23 * (R * 2 ^ SCALE)) with (2 ^ 23 * R * 2 ^ SCALE) by ring.
    rewrite Z.mul_assoc. apply Z.mul_le_mono_nonneg_r; [lia|done].
  - replace ((2 ^ 23 + 1) * (R * 2 ^ SCALE))
      with ((2 ^ 23 + 1) * R * 2 ^ SCALE) by ring.
    rewrite Z.mul_assoc. apply Z.mul_le_mono_nonneg_r; [lia|done].
Qed.

(** Comparison of normal floats is comparison of their values. *)
Lemma ltb_normal a1 a2 b1 b2 f g :
  normal a1 a2 f -> normal b1 b2 g -> -150 <= a1 -> -150 <= b1 ->
  if Float32.ltb f g then scaled f < scaled g else scaled g <= scaled f.
Proof.
  intros Hf Hg Ha Hb.
  destruct (scaled_normal _ _ _ Hf Ha) as (mx & ex & -> & Hx & Hex & Hsx & Hpx).
  destruct (scaled_normal _ _ _ Hg Hb) as (my & ey & -> & Hy & Hey & Hsy & Hpy).
  rewrite Hsx, Hsy. unfold Float32.ltb, SFltb, SFcompare.
  assert (Hstep : forall m1 e1 m2 e2,
    2 ^ 23 <= Zpos m1 < 2 ^ 24 -> 2 ^ 23 <= Zpos m2 < 2 ^ 24 ->
    0 <= e1 + SCALE -> e1 < e2 ->
    Zpos m1 * 2 ^ (e1 + SCALE) < Zpos m2 * 2 ^ (e2 + SCALE)).
  { intros m1 e1 m2 e2 H1 H2 H0 Hlt.
    assert (0 < 2 ^ (e1 + SCALE)) by (by apply Z.pow_pos_nonneg).
    apply Z.lt_le_trans with (2 ^ 24 * 2 ^ (e1 + SCALE)).
    - apply Z.mul_lt_mono_pos_r; lia.
    - apply Z.le_trans with (2 ^ 23 * 2 ^ (e2 + SCALE)).
      + change (2 ^ 24) with (2 ^ 23 * 2 ^ 1).
        rewrite <- Z.mul_assoc, <- pow2_split by lia.
        apply Z.mul_le_mono_nonneg_l; [lia|].
        apply Z.pow_le_mono_r; lia.
      + apply Z.mul_le_mono_nonneg_r; [|lia].
        apply Z.pow_nonneg. lia. }
  destruct (Z.compare_spec ex ey) as [->|Hlt|Hgt].
  - change (PosDef.Pos.compare_cont Eq mx my) with (Pos.compare mx my).
    destruct (Pos.compare_spec mx my) as [->|Hm|Hm].
    + lia.
    + apply Z.mul_lt_mono_pos_r; lia.
    + apply Z.mul_le_mono_nonneg_r; lia.
  - apply Hstep; unfold SCALE; lia.
  - apply Z.lt_le_incl, Hstep; unfold SCALE; lia.
Qed.

Lemma min_upper a1 a2 b1 b2 f g :
  normal a1 a2 f -> normal b1 b2 g -> -150 <= a1 -> -150 <= b1 ->
  scaled (Float32.min f g) <= scaled f /\ scaled (Float32.min f g) <= scaled g.
Proof.
  intros Hf Hg Ha Hb. unfold Float32.min.
  pose proof (ltb_normal _ _ _ _ _ _ Hg Hf Hb Ha) as H.
  destruct (Float32.ltb g f); lia.
Qed.

(** Conversion to [int] cuts the value down to an integer. *)
Lemma to_int_value lo hi f :
  normal lo hi f -> -150 <= lo -> hi <= 31 ->
  exists v, Float32.to_int f = Some v /\ 0 <= v
            /\ v * 2 ^ SCALE <= scaled f < (v + 1) * 2 ^ SCALE.
Proof.
  intros Hf Hlo Hhi. destruct (to_int_normal lo hi f Hf Hhi) as [v Hv].
  exists v. split; [done|].
  destruct (scaled_normal _ _ _ Hf Hlo) as (m & e & -> & Hm & He & Hs & Hp).
  rewrite Hs. unfold Float32.to_int in Hv.
  destruct (bool_decide _); [|done]. injection Hv as <-.
  assert (HQ : 0 < 2 ^ SCALE) by (apply Z.pow_pos_nonneg; unfold SCALE; lia).
  unfold Float32.truncate. destruct e as [|p|p].
  - rewrite Z.shiftl_0_r, Z.add_0_l. split; [lia|]. split; [lia|].
    apply Z.mul_lt_mono_pos_r; lia.
  - rewrite Z.shiftl_mul_pow2 by lia. split; [lia|].
    rewrite (pow2_split (Zpos p) SCALE) by (unfold SCALE; lia).
    rewrite Z.mul_assoc. split; [lia|].
    apply Z.mul_lt_mono_pos_r; lia.
  - rewrite Z.shiftr_div_pow2 by lia. split; [apply Z.div_pos; lia|].
    assert (H2 : 2 ^ SCALE = 2 ^ Zpos p * 2 ^ (Zneg p + SCALE)).
    { rewrite <- pow2_split by (unfold SCALE in *; lia). f_equal. lia. }
    rewrite H2, !Z.mul_assoc. split.
    + apply Z.mul_le_mono_nonneg_r; [lia|].
      rewrite Z.mul_comm. apply Z.mul_div_le. lia.
    + apply Z.mul_lt_mono_pos_r; [done|].
      pose proof (Z.mul_succ_div_gt (Zpos m) (2 ^ Zpos p) ltac:(lia)). lia.
Qed.

(** One side of the rectangle: the texture size times a scale that is at
    most window size / texture size, converted to [int], is at most the
    window size. *)
Lemma side_inside ws d T s lo hi :
  0 < ws < INSIDE_LIMIT -> 1 <= d <= 31 ->
  normal d (d + 1) T -> normal lo hi s ->
  - 32 <= lo -> hi <= 26 - d ->
  scaled s <= scaled (Float32.div (Float32.of_int ws) T) ->
  exists v, Float32.to_int (Float32.mul T s) = Some v /\ 0 <= v <= ws.
Proof.
  unfold INSIDE_LIMIT. intros Hws Hd HT Hs Hlo Hhi Hle.
  destruct (of_int_exact ws) as [HX HXv]; [lia|].
  pose proof (div_value 1 24 d (d + 1) _ _ HX HT) as HA.
  rewrite HXv in HA.
  specialize (HA ltac:(lia) ltac:(lia) ltac:(lia) ltac:(lia)) as [HA _].
  pose proof (mul_value d (d + 1) lo hi _ _ HT Hs) as HC.
  specialize (HC ltac:(lia) ltac:(lia) ltac:(lia) ltac:(lia)) as [HC _].
  pose proof (mul_normal d (d + 1) lo hi _ _ HT Hs ltac:(lia) ltac:(lia)) as HP.
  destruct (to_int_value _ _ _ HP) as (v & Hv & Hv0 & HE & _); [lia..|].
  exists v. split; [done|]. split; [done|].
  destruct (scaled_normal _ _ _ HT ltac:(lia)) as (mT & eT & _ & HmT & _ & HsT & HpT).
  destruct (scaled_normal _ _ _ Hs ltac:(lia)) as (ms & es & _ & Hms & _ & Hss & Hps).
  set (SX := scaled (Float32.div (Float32.of_int ws) T)) in *.
  set (SP := scaled (Float32.mul T s)) in *.
  set (ST := scaled T) in *. set (Ss := scaled s) in *.
  set (Q := 2 ^ SCALE) in *.
  assert (HQ : 0 < Q) by (apply Z.pow_pos_nonneg; unfold SCALE; lia).
  assert (HST : 0 < ST) by (rewrite HsT; lia).
  assert (HSs : 0 < Ss) by (rewrite Hss; lia).
  assert (H1 : 2 ^ 46 * (v * Q * Q) <= 2 ^ 23 * (2 ^ 23 * (SP * Q))).
  { change (2 ^ 46) with (2 ^ 23 * 2 ^ 23). rewrite <- !Z.mul_assoc.
    do 2 (apply Z.mul_le_mono_nonneg_l; [lia|]).
    rewrite Z.mul_assoc. apply Z.mul_le_mono_nonneg_r; lia. }
  assert (H2 : 2 ^ 23 * ((2 ^ 23 + 1) * (ST * Ss))
               <= (2 ^ 23 + 1) * (2 ^ 23 * (SX * ST))).
  { replace (2 ^ 23 * ((2 ^ 23 + 1) * (ST * Ss)))
      with ((2 ^ 23 + 1) * (2 ^ 23 * (Ss * ST))) by ring.
    do 2 (apply Z.mul_le_mono_nonneg_l; [lia|]).
    apply Z.mul_le_mono_nonneg_r; lia. }
  assert (H3 : 2 ^ 46 * (v * Q * Q)
               <= (2 ^ 23 + 1) * ((2 ^ 23 + 1) * (ws * Q * Q))).
  { eapply Z.le_trans; [exact H1|].
    eapply Z.le_trans; [apply Z.mul_le_mono_nonneg_l; [lia|exact HC]|].
    eapply Z.le_trans; [exact H2|].
    apply Z.mul_le_mono_nonneg_l; [lia|exact HA]. }
  assert (HQQ : 0 < Q * Q) by nia.
  assert (H4 : 2 ^ 46 * v <= (2 ^ 23 + 1) * ((2 ^ 23 + 1) * ws)).
  { apply (Z.mul_le_mono_pos_r _ _ (Q * Q)); [done|].
    replace (2 ^ 46 * v * (Q * Q)) with (2 ^ 46 * (v * Q * Q)) by ring.
    replace ((2 ^ 23 + 1) * ((2 ^ 23 + 1) * ws) * (Q * Q))
      with ((2 ^ 23 + 1) * ((2 ^ 23 + 1) * (ws * Q * Q))) by ring.
    exact H3. }
  lia.
Qed.

(** The side along which the scale is window size / texture size comes
    back as the window size, or one pixel less. *)
Lemma side_fills ws d T :
  0 < ws < FILL_LIMIT -> 1 <= d <= 31 -> normal d (d + 1) T ->
  exists v,
    Float32.to_int (Float32.mul T (Float32.div (Float32.of_int ws) T)) = Some v
    /\ ws - 1 <= v.
Proof.
  unfold FILL_LIMIT. intros Hws Hd HT.
  destruct (of_int_exact ws) as [HX HXv]; [lia|].
  pose proof (div_normal 1 24 d (d + 1) _ _ HX HT ltac:(lia) ltac:(lia)) as Hs.
  pose proof (div_value 1 24 d (d + 1) _ _ HX HT) as HA.
  rewrite HXv in HA.
  specialize (HA ltac:(lia) ltac:(lia) ltac:(lia) ltac:(lia)) as [_ HA].
  pose proof (mul_value d (d + 1) _ _ _ _ HT Hs) as HC.
  specialize (HC ltac:(lia) ltac:(lia) ltac:(lia) ltac:(lia)) as [_ HC].
  pose proof (mul_normal d (d + 1) _ _ _ _ HT Hs ltac:(lia) ltac:(lia)) as HP.
  destruct (to_int_value _ _ _ HP) as (v & Hv & Hv0 & _ & HE); [lia..|].
  exists v. split; [done|].
  set (SX := scaled (Float32.div (Float32.of_int ws) T)) in *.
  set (SP := scaled (Float32.mul T (Float32.div (Float32.of_int ws) T))) in *.
  set (ST := scaled T) in *.
  set (Q := 2 ^ SCALE) in *.
  assert (HQ : 0 < Q) by (apply Z.pow_pos_nonneg; unfold SCALE; lia).
  set (c := 2 ^ 23 + 1) in *.
  assert (Hc : 0 < c) by (unfold c; lia).
  assert (H1 : 2 ^ 23 * (2 ^ 46 * (ws * Q * Q)) <= c * (c * (c * (SP * Q)))).
  { apply Z.le_trans with (c * (c * (2 ^ 23 * (ST * SX)))).
    - replace (c * (c * (2 ^ 23 * (ST * SX))))
        with (2 ^ 23 * (c * (c * (SX * ST)))) by ring.
      apply Z.mul_le_mono_nonneg_l; [lia|exact HA].
    - do 2 (apply Z.mul_le_mono_nonneg_l; [lia|]). exact HC. }
  assert (H2 : c * (c * (c * (SP * Q))) < c * (c * (c * ((v + 1) * Q * Q)))).
  { do 3 (apply Z.mul_lt_mono_pos_l; [done|]).
    apply Z.mul_lt_mono_pos_r; [done|]. exact HE. }
  assert (HQQ : 0 < Q * Q) by nia.
  assert (H3 : 2 ^ 23 * (2 ^ 46 * ws) < c * (c * (c * (v + 1)))).
  { apply (Z.mul_lt_mono_pos_r (Q * Q)); [done|].
    replace (2 ^ 23 * (2 ^ 46 * ws) * (Q * Q))
      with (2 ^ 23 * (2 ^ 46 * (ws * Q * Q))) by ring.
    replace (c * (c * (c * (v + 1))) * (Q * Q))
      with (c * (c * (c * ((v + 1) * Q * Q)))) by ring.
    lia. }
  unfold c in H3. lia.
Qed.

(** ** The frame and the window *)

Lemma render_rect_inside ww wh tw th r :
  0 <= ww < INSIDE_LIMIT -> 0 <= wh < INSIDE_LIMIT ->
  0 < tw <= Cxx.INT_MAX -> 0 < th <= Cxx.INT_MAX ->
  render_rect ww wh tw th = Some r ->
  0 <= w r <= ww /\ 0 <= h r <= wh
  /\ 0 <= x r /\ x r + w r <= ww /\ 0 <= y r /\ y r + h r <= wh.
Proof.
  intros Hww Hwh Htw Hth Hr.
  assert (Hlim : INSIDE_LIMIT <= WINDOW_LIMIT /\ WINDOW_LIMIT <= Cxx.INT_MAX).
  { unfold INSIDE_LIMIT, WINDOW_LIMIT, Cxx.INT_MAX. lia. }
  assert (Hsides : 0 <= w r <= ww /\ 0 <= h r <= wh).
  { destruct (Z.eq_dec ww 0) as [Hw0|Hw0]; [|destruct (Z.eq_dec wh 0) as [Hh0|Hh0]].
    - rewrite render_rect_empty_window in Hr by (lia || by left).
      injection Hr as <-. cbn [w h]. lia.
    - rewrite render_rect_empty_window in Hr by (lia || by right).
      injection Hr as <-. cbn [w h]. lia.
    - destruct (render_rect_spec ww wh tw th r) as (Hrw & Hrh & _);
        [lia..|done|]. cbv zeta in Hrw, Hrh.
      destruct (of_int_texture tw Htw) as (dw & Hdw & Hnw).
      destruct (of_int_texture th Hth) as (dh & Hdh & Hnh).
      destruct (of_int_exact ww) as [HX _]; [unfold INSIDE_LIMIT in *; lia|].
      destruct (of_int_exact wh) as [HY _]; [unfold INSIDE_LIMIT in *; lia|].
      pose proof (div_normal 1 24 dw (dw + 1) _ _ HX Hnw ltac:(lia) ltac:(lia))
        as Hsx.
      pose proof (div_normal 1 24 dh (dh + 1) _ _ HY Hnh ltac:(lia) ltac:(lia))
        as Hsy.
      pose proof (min_normal _ _ _ _ _ _ Hsx Hsy) as Hs.
      pose proof (min_upper _ _ _ _ _ _ Hsx Hsy ltac:(lia) ltac:(lia))
        as [Hlex Hley].
      destruct (side_inside ww dw _ _ _ _ ltac:(lia) Hdw Hnw Hs
                  ltac:(lia) ltac:(lia) Hlex) as (vw & Hvw & Hbw).
      destruct (side_inside wh dh _ _ _ _ ltac:(lia) Hdh Hnh Hs
                  ltac:(lia) ltac:(lia) Hley) as (vh & Hvh & Hbh).
      rewrite Hvw in Hrw. rewrite Hvh in Hrh.
      injection Hrw as <-. injection Hrh as <-. done. }
  destruct (render_rect_spec ww wh tw th r) as (_ & _ & _ & _ & Hx & Hy);
    [lia..|done|].
  destruct Hsides as [Hw Hh]. split; [done|]. split; [done|].
  rewrite Hx, Hy.
  pose proof (Z.quot_pos (ww - w r) 2 ltac:(lia) ltac:(lia)).
  pose proof (Z.quot_pos (wh - h r) 2 ltac:(lia) ltac:(lia)).
  pose proof (Z.quot_le_upper_bound (ww - w r) 2 (ww - w r) ltac:(lia) ltac:(lia)).
  pose proof (Z.quot_le_upper_bound (wh - h r) 2 (wh - h r) ltac:(lia) ltac:(lia)).
  lia.
Qed.

Lemma screen_trace_copy v out tex r :
  screen_trace v out -> SDL_RenderCopy tex r ∈ out ->
  Some tex ∈ textures v
  /\ render_rect (windowWidth v) (windowHeight v) (texture_w tex) (texture_h tex)
     = Some r.
Proof.
  induction 1 as [|tex0 r0 out Hin Hr _ IH|title out _ IH|out _ IH]; intros Hc.
  - by apply elem_of_nil in Hc.
  - unfold frame_calls in Hc. cbn [app] in Hc.
    rewrite !elem_of_cons in Hc.
    destruct Hc as [Hc|[Hc|[Hc|[Hc|Hc]]]]; try discriminate; [|by apply IH].
    by injection Hc as -> ->.
  - apply elem_of_cons in Hc as [Hc|Hc]; [discriminate|by apply IH].
  - apply elem_of_cons in Hc as [Hc|Hc]; [discriminate|by apply IH].
Qed.

(** X20.  Nothing is drawn outside the window.  In a window of less than
    2^22 pixels each way, with decoded frames whose sizes are positive
    [int]s, every rectangle [run] copies a texture to lies inside the
    window: its corner is at or after the origin, its sides are not
    negative and neither exceeds the window, however the single-precision
    scale is rounded; and it is centred, the margins on the two sides of an
    axis differing by at most one pixel. *)
Theorem drawn_frames_stay_inside_the_window (now1 now2 : Z)
    (turns : list (list SDL_Event * Z)) (v : TimelapseViewer)
    (s' : run_state) (out : list sdl_call) (err : list cerr_line)
    (tex : SDL_Texture) (r : SDL_Rect) :
  0 <= windowWidth v < INSIDE_LIMIT ->
  0 <= windowHeight v < INSIDE_LIMIT ->
  Forall texture_sized (textures v) ->
  run now1 now2 turns v = (Some (s', out), err) ->
  SDL_RenderCopy tex r ∈ out ->
  0 <= x r /\ 0 <= y r /\ 0 <= w r /\ 0 <= h r
  /\ x r + w r <= windowWidth v /\ y r + h r <= windowHeight v
  /\ 0 <= (windowWidth v - w r) - 2 * x r <= 1
  /\ 0 <= (windowHeight v - h r) - 2 * y r <= 1.
Proof.
  intros Hw Hh Hsized Hrun Hin.
  assert (Htrace : screen_trace v out).
  { unfold run in Hrun. destruct (_ || _).
    - injection Hrun as _ <- _. constructor.
    - injection Hrun as Hrun _.
      by destruct (run_loop_any _ _ _ _ Hrun) as (_ & Ht & _). }
  destruct (screen_trace_copy _ _ _ _ Htrace Hin) as [Htex Hr].
  rewrite Forall_forall in Hsized. specialize (Hsized _ Htex).
  destruct Hsized as [Htw Hth].
  destruct (render_rect_inside _ _ _ _ _ Hw Hh Htw Hth Hr)
    as (Hrw & Hrh & Hx & Hxw & Hy & Hyh).
  assert (Hlim : INSIDE_LIMIT <= Cxx.INT_MAX)
    by (unfold INSIDE_LIMIT, Cxx.INT_MAX; lia).
  destruct (render_rect_spec (windowWidth v) (windowHeight v)
              (texture_w tex) (texture_h tex) r)
    as (_ & _ & _ & _ & Ex & Ey); [lia..|done|].
  repeat split; try lia.
  - pose proof (Z.quot_rem' (windowWidth v - w r) 2).
    pose proof (Z.rem_bound_pos (windowWidth v - w r) 2 ltac:(lia) ltac:(lia)).
    lia.
  - pose proof (Z.quot_rem' (windowWidth v - w r) 2).
    pose proof (Z.rem_bound_pos (windowWidth v - w r) 2 ltac:(lia) ltac:(lia)).
    lia.
  - pose proof (Z.quot_rem' (windowHeight v - h r) 2).
    pose proof (Z.rem_bound_pos (windowHeight v - h r) 2 ltac:(lia) ltac:(lia)).
    lia.
  - pose proof (Z.quot_rem' (windowHeight v - h r) 2).
    pose proof (Z.rem_bound_pos (windowHeight v - h r) 2 ltac:(lia) ltac:(lia)).
    lia.
Qed.

Lemma drawn_frames_stay_inside_the_window_witness :
  let r := {| x := 160; y := 0; w := 960; h := 720 |} in
  exists s',
    run 0 0 [([StepBackward], ms 5); ([SDL_QUIT], ms 20)] three_frames_shown
    = (Some (s', frame_calls {| texture_w := 640; texture_h := 480 |} r
                 ++ [SDL_Delay 10; SDL_Delay 10]), [])
    /\ x r + w r <= 1280 /\ y r + h r <= 720
    /\ 0 <= (1280 - w r) - 2 * x r <= 1.
Proof.
  cbv zeta. eexists. split; [vm_compute; reflexivity|].
  pose proof (drawn_frames_stay_inside_the_window 0 0
                [([StepBackward], ms 5); ([SDL_QUIT], ms 20)]
                three_frames_shown _ _ _
                {| texture_w := 640; texture_h := 480 |}
                {| x := 160; y := 0; w := 960; h := 720 |}
                ltac:(by vm_compute) ltac:(by vm_compute)
                ltac:(repeat (apply List.Forall_cons; [by vm_compute|]);
                      apply List.Forall_nil)
                ltac:(vm_compute; reflexivity)
                ltac:(unfold frame_calls; cbn [app]; rewrite !elem_of_cons;
                      by right; right; left)) as H.
  destruct H as (_ & _ & _ & _ & H1 & H2 & H3 & _).
  split; [exact H1|]. split; [exact H2|exact H3].
Defined.

Lemma render_rect_fills ww wh tw th r :
  0 < ww < FILL_LIMIT -> 0 < wh < FILL_LIMIT ->
  0 < tw <= Cxx.INT_MAX -> 0 < th <= Cxx.INT_MAX ->
  render_rect ww wh tw th = Some r ->
  ww - 1 <= w r \/ wh - 1 <= h r.
Proof.
  intros Hww Hwh Htw Hth Hr.
  assert (Hlim : FILL_LIMIT <= Cxx.INT_MAX)
    by (unfold FILL_LIMIT, Cxx.INT_MAX; lia).
  destruct (render_rect_spec ww wh tw th r) as (Hrw & Hrh & _);
    [lia..|done|]. cbv zeta in Hrw, Hrh.
  destruct (of_int_texture tw Htw) as (dw & Hdw & Hnw).
  destruct (of_int_texture th Hth) as (dh & Hdh & Hnh).
  unfold Float32.min in Hrw, Hrh. destruct (Float32.ltb _ _).
  - right. destruct (side_fills wh dh _ Hwh Hdh Hnh) as (v & Hv & Hb).
    rewrite Hv in Hrh. by injection Hrh as <-.
  - left. destruct (side_fills ww dw _ Hww Hdw Hnw) as (v & Hv & Hb).
    rewrite Hv in Hrw. by injection Hrw as <-.
Qed.

(** X21.  The frame fills the window along one axis.  In a window of at
    least one and less than 2^21 pixels each way, every rectangle [run]
    copies a texture to is as wide as the window or as high as the window,
    but for at most one pixel that the rounding of the single-precision
    scale may cost; along the other axis it is at most as large as the
    window. *)
Theorem drawn_frames_fill_one_axis (now1 now2 : Z)
    (turns : list (list SDL_Event * Z)) (v : TimelapseViewer)
    (s' : run_state) (out : list sdl_call) (err : list cerr_line)
    (tex : SDL_Texture) (r : SDL_Rect) :
  0 < windowWidth v < FILL_LIMIT ->
  0 < windowHeight v < FILL_LIMIT ->
  Forall texture_sized (textures v) ->
  run now1 now2 turns v = (Some (s', out), err) ->
  SDL_RenderCopy tex r ∈ out ->
  w r <= windowWidth v /\ h r <= windowHeight v
  /\ (windowWidth v - 1 <= w r \/ windowHeight v - 1 <= h r).
Proof.
  intros Hw Hh Hsized Hrun Hin.
  assert (Htrace : screen_trace v out).
  { unfold run in Hrun. destruct (_ || _).
    - injection Hrun as _ <- _. constructor.
    - injection Hrun as Hrun _.
      by destruct (run_loop_any _ _ _ _ Hrun) as (_ & Ht & _). }
  destruct (screen_trace_copy _ _ _ _ Htrace Hin) as [Htex Hr].
  rewrite Forall_forall in Hsized. specialize (Hsized _ Htex).
  destruct Hsized as [Htw Hth].
  assert (Hlim : FILL_LIMIT <= INSIDE_LIMIT)
    by (unfold FILL_LIMIT, INSIDE_LIMIT; lia).
  destruct (render_rect_inside (windowWidth v) (windowHeight v)
              (texture_w tex) (texture_h tex) r)
    as (Hrw & Hrh & _); [lia..|done|].
  split; [lia|]. split; [lia|].
  by apply (render_rect_fills _ _ _ _ _ Hw Hh Htw Hth Hr).
Qed.

Lemma drawn_frames_fill_one_axis_witness :
  let r := {| x := 160; y := 0; w := 959; h := 720 |} in
  let tex := {| texture_w := 2592; texture_h := 1944 |} in
  let v := set_textures [Some tex] three_frames_shown in
  exists s',
    run 0 0 [([StepBackward; StepForward], ms 5); ([SDL_QUIT], ms 20)] v
    = (Some (s', frame_calls tex r ++ [SDL_Delay 10; SDL_Delay 10]), [])
    /\ w r <= 1280 /\ h r <= 720 /\ (1280 - 1 <= w r \/ 720 - 1 <= h r).
Proof.
  cbv zeta. eexists. split; [vm_compute; reflexivity|].
  exact (drawn_frames_fill_one_axis 0 0
           [([StepBackward; StepForward], ms 5); ([SDL_QUIT], ms 20)]
           (set_textures [Some {| texture_w := 2592; texture_h := 1944 |}]
              three_frames_shown) _ _ _
           {| texture_w := 2592; texture_h := 1944 |}
           {| x := 160; y := 0; w := 959; h := 720 |}
           ltac:(by vm_compute) ltac:(by vm_compute)
           ltac:(repeat (apply List.Forall_cons; [by vm_compute|]);
                 apply List.Forall_nil)
           ltac:(vm_compute; reflexivity)
           ltac:(unfold frame_calls; cbn [app]; rewrite !elem_of_cons;
                 by right; right; left)).
Defined.

(** ** Names the scan passes over *)

(** X22.  Files without an extension are passed over, and so are files whose
    name is nothing but an extension.  A directory entry whose name holds
    no period, or whose only period is its first character (a file named
    [.jpg], say), has an empty [path::extension()], so the scan never takes
    it as an image, whatever kind of file it is. *)
Theorem names_without_extension_are_skipped (directoryPath name : string)
    (node : fs_node) :
  Path.suffix_from_last Path.separator name = None ->
  Path.suffix_from_last Path.dot name = None
  \/ (exists rest, name = String Path.dot rest
                   /\ Path.suffix_from_last Path.dot rest = None) ->
  Path.extension (Path.append directoryPath name) = EmptyString
  /\ is_candidate directoryPath (name, node) = false
  /\ forall paths, scan_entry directoryPath paths (name, node) = paths.
Proof.
  intros Hsep Hdot.
  assert (Hext : Path.extension (Path.append directoryPath name) = EmptyString).
  { unfold Path.extension. rewrite filename_append by done.
    destruct (String.eqb name "." || String.eqb name ".."); [done|].
    destruct Hdot as [-> | (rest & -> & Hrest)]; [done|].
    cbn [Path.suffix_from_last]. rewrite Hrest.
    change (Ascii.eqb Path.dot Path.dot) with true. cbn iota.
    by rewrite Nat.eqb_refl. }
  split; [done|].
  assert (Hc : is_candidate directoryPath (name, node) = false).
  { unfold is_candidate. cbn [fst snd]. rewrite Hext. apply andb_false_r. }
  split; [done|]. intros paths. unfold scan_entry. cbn [fst snd].
  rewrite Hext. by destruct (is_regular_file node).
Qed.

Lemma names_without_extension_are_skipped_witness :
  is_candidate "shots" (".jpg", Regular_file) = false
  /\ is_candidate "shots" ("README", Regular_file) = false.
Proof.
  split.
  - apply (names_without_extension_are_skipped "shots" ".jpg" Regular_file);
      [reflexivity|]. right. by exists "jpg".
  - apply (names_without_extension_are_skipped "shots" "README" Regular_file);
      [reflexivity|]. by left.
Defined.
